(** * MySQL statement samples: a model of [statement_samples.py]

    A shallow embedding of [datadog_checks/mysql/statement_samples.py]
    (class [MySQLStatementSamples]) and the properties of its sampling
    engine: the row filter, the explain engine with its per-schema strategy
    cache, the checkpointed row fetcher, the strategy selector and the
    de-duplicating event emission.

    Layout: Python values and exceptions; JSON and [float]; the expiring
    cache; the database as the engine sees it; the engine's methods; the
    sampler around the engine; then the lemmas and theorems. *)

From Stdlib Require Import List String Ascii ZArith QArith Bool Lia Lqa.
Import ListNotations.

Set Warnings "-register-all".

Local Open Scope string_scope.
Local Open Scope list_scope.
Local Open Scope Z_scope.

(* ===================================================================== *)
(** * Python values, exceptions and results *)
(* ===================================================================== *)

(** Python floats are modelled by the exact rational they denote, plus the
    two infinities and NaN. Binary64 rounding, overflow and the sign of zero
    are not modelled; nothing below depends on them. *)
Inductive pyfloat :=
| Finite (q : Q)
| Infinite (negative : bool)
| NotANumber.

(** The values a [DictCursor] row or a pymysql error tuple can hold. *)
Inductive pyval :=
| PNone
| PBool (b : bool)
| PInt (z : Z)
| PFloat (f : pyfloat)
| PStr (s : string).

(** The exceptions the module can meet. [DatabaseError] stands for
    [pymysql.err.DatabaseError] and its subclasses, with the exception's
    [args] tuple; [OtherError] is any exception not named here. *)
Inductive exn :=
| DatabaseError (args : list pyval)
| KeyError (key : string)
| TypeError
| ValueError
| AttributeError
| JSONDecodeError
| OtherError (name : string).

Inductive result (A : Type) :=
| Return (a : A)
| Raise (e : exn).
Arguments Return {A} a.
Arguments Raise {A} e.

Definition result_bind {A B} (r : result A) (k : A -> result B) : result B :=
  match r with
  | Return a => k a
  | Raise e => Raise e
  end.

Notation "'let?' x ':=' r 'in' k" := (result_bind r (fun x => k))
  (at level 10, x name, r at level 100, k at level 200).

Definition float_truthy (f : pyfloat) : bool :=
  match f with
  | Finite q => negb (Qeq_bool q 0)
  | Infinite _ => true
  | NotANumber => true
  end.

(** [bool(v)]. *)
Definition truthy (v : pyval) : bool :=
  match v with
  | PNone => false
  | PBool b => b
  | PInt z => negb (z =? 0)
  | PFloat f => float_truthy f
  | PStr s => negb (s =? "")%string
  end.

(** ** Dictionaries with string keys, in insertion order *)

Definition dict (V : Type) := list (string * V).

Fixpoint lookup {V} (key : string) (d : dict V) : option V :=
  match d with
  | [] => None
  | (k, v) :: rest => if (k =? key)%string then Some v else lookup key rest
  end.

(** [d[key] = v]: an existing key keeps its position. *)
Fixpoint dict_set {V} (key : string) (v : V) (d : dict V) : dict V :=
  match d with
  | [] => [(key, v)]
  | (k, v0) :: rest =>
      if (k =? key)%string then (k, v) :: rest else (k, v0) :: dict_set key v rest
  end.

(** [d[key]], raising [KeyError]. *)
Definition getitem {V} (d : dict V) (key : string) : result V :=
  match lookup key d with
  | Some v => Return v
  | None => Raise (KeyError key)
  end.

(** [d.get(key, default)]. *)
Definition dict_get {V} (d : dict V) (key : string) (default : V) : V :=
  match lookup key d with
  | Some v => v
  | None => default
  end.

(* ===================================================================== *)
(** * Characters and numerals *)
(* ===================================================================== *)

Definition quote : ascii := "034"%char.
Definition backslash : ascii := "092"%char.

Definition code (c : ascii) : Z := Z.of_nat (nat_of_ascii c).
Definition chr (n : Z) : ascii := ascii_of_nat (Z.to_nat n).

Definition is_digit (c : ascii) : bool := (48 <=? code c) && (code c <=? 57).
Definition digit_val (c : ascii) : Z := code c - 48.

Definition to_lower (c : ascii) : ascii :=
  if (65 <=? code c) && (code c <=? 90) then chr (code c + 32) else c.

Definition lower (s : string) : string :=
  string_of_list_ascii (map to_lower (list_ascii_of_string s)).

Fixpoint take_digits (cs : list ascii) : list ascii * list ascii :=
  match cs with
  | c :: rest =>
      if is_digit c then let (ds, r) := take_digits rest in (c :: ds, r) else ([], cs)
  | [] => ([], [])
  end.

Definition digits_val (ds : list ascii) : Z :=
  fold_left (fun acc c => acc * 10 + digit_val c) ds 0.

(** The rational [m * 10^e], in lowest terms. *)
Definition scale10 (m e : Z) : Q :=
  if 0 <=? e then inject_Z (m * 10 ^ e)
  else Qred (Qmake m (Z.to_pos (10 ^ (- e)))).

(** The exponent part [[eE][-+]?\d+] of a numeral, when there is one. *)
Definition take_exponent (cs : list ascii) : option (Z * list ascii) :=
  match cs with
  | c :: rest =>
      if (to_lower c =? "e")%char then
        let (neg, rest1) :=
          match rest with
          | "-"%char :: r => (true, r)
          | "+"%char :: r => (false, r)
          | _ => (false, rest)
          end in
        match take_digits rest1 with
        | ([], _) => None
        | (ds, rest2) => Some (if neg then - digits_val ds else digits_val ds, rest2)
        end
      else None
  | [] => None
  end.

(** The fraction part [\.\d+], when there is one. *)
Definition take_fraction (cs : list ascii) : option (list ascii * list ascii) :=
  match cs with
  | "."%char :: rest =>
      match take_digits rest with
      | ([], _) => None
      | (ds, rest1) => Some (ds, rest1)
      end
  | _ => None
  end.

Definition decimal_value (negative : bool) (int_ds frac_ds : list ascii) (e : Z) : Q :=
  let m := digits_val (int_ds ++ frac_ds) in
  scale10 (if negative then - m else m) (e - Z.of_nat (List.length frac_ds)).

(* ===================================================================== *)
(** * [json.loads] and [float] *)
(* ===================================================================== *)

(** What [json.loads] returns: [JObject] is a Python [dict], [JArray] a
    [list], [JInt] and [JFloat] the two number types. *)
Inductive json :=
| JNull
| JBool (b : bool)
| JInt (n : Z)
| JFloat (f : pyfloat)
| JString (s : string)
| JArray (items : list json)
| JObject (members : dict json).

Definition is_ws (c : ascii) : bool :=
  (code c =? 32) || (code c =? 9) || (code c =? 10) || (code c =? 13).

Fixpoint skip_ws (cs : list ascii) : list ascii :=
  match cs with
  | c :: rest => if is_ws c then skip_ws rest else cs
  | [] => []
  end.

Definition hex_val (c : ascii) : option Z :=
  let n := code c in
  if is_digit c then Some (n - 48)
  else if (97 <=? n) && (n <=? 102) then Some (n - 87)
  else if (65 <=? n) && (n <=? 70) then Some (n - 55)
  else None.

(** The UTF-8 bytes of a [\uXXXX] code unit (surrogate pairs are not
    recombined). *)
Definition utf8 (n : Z) : list ascii :=
  if n <? 128 then [chr n]
  else if n <? 2048 then [chr (192 + n / 64); chr (128 + n mod 64)]
  else [chr (224 + n / 4096); chr (128 + (n / 64) mod 64); chr (128 + n mod 64)].

Definition unescape (c : ascii) : option ascii :=
  let n := code c in
  if (n =? 34) || (n =? 92) || (n =? 47) then Some c
  else if n =? 98 then Some (chr 8)
  else if n =? 102 then Some (chr 12)
  else if n =? 110 then Some (chr 10)
  else if n =? 114 then Some (chr 13)
  else if n =? 116 then Some (chr 9)
  else None.

(** The body of a string literal, after its opening quote: the decoded
    text (accumulated in reverse) and what follows the closing quote. *)
Fixpoint string_body (cs : list ascii) (acc : list ascii)
  : option (string * list ascii) :=
  match cs with
  | [] => None
  | c :: rest =>
      if (c =? quote)%char then Some (string_of_list_ascii (rev acc), rest)
      else if (c =? backslash)%char then
        match rest with
        | "u"%char :: h1 :: h2 :: h3 :: h4 :: rest' =>
            match hex_val h1, hex_val h2, hex_val h3, hex_val h4 with
            | Some a, Some b, Some c', Some d =>
                string_body rest' (rev (utf8 (((a * 16 + b) * 16 + c') * 16 + d)) ++ acc)
            | _, _, _, _ => None
            end
        | e :: rest' =>
            match unescape e with
            | Some c' => string_body rest' (c' :: acc)
            | None => None
            end
        | [] => None
        end
      else if code c <? 32 then None
      else string_body rest (c :: acc)
  end.

(** A JSON number, its sign already read: an integer part with no leading
    zero, then an optional fraction and an optional exponent. *)
Definition number (negative : bool) (cs : list ascii) : option (json * list ascii) :=
  let int_part :=
    match cs with
    | c :: rest =>
        if (c =? "0")%char then Some ([c], rest)
        else match take_digits cs with
             | ([], _) => None
             | (ds, r) => Some (ds, r)
             end
    | [] => None
    end in
  match int_part with
  | None => None
  | Some (int_ds, rest) =>
      let (frac_ds, rest1) :=
        match take_fraction rest with
        | Some (ds, r) => (ds, r)
        | None => ([], rest)
        end in
      match take_exponent rest1, frac_ds with
      | None, [] =>
          let n := digits_val int_ds in
          Some (JInt (if negative then - n else n), rest1)
      | None, _ =>
          Some (JFloat (Finite (decimal_value negative int_ds frac_ds 0)), rest1)
      | Some (e, rest2), _ =>
          Some (JFloat (Finite (decimal_value negative int_ds frac_ds e)), rest2)
      end
  end.

(** [cs] starts with the characters of [word]: what follows them. *)
Fixpoint strip_prefix (word cs : list ascii) : option (list ascii) :=
  match word, cs with
  | [], _ => Some cs
  | w :: word', c :: cs' => if (w =? c)%char then strip_prefix word' cs' else None
  | _ :: _, [] => None
  end.

Definition literal (word : string) (v : json) (cs : list ascii)
  : option (json * list ascii) :=
  match strip_prefix (list_ascii_of_string word) cs with
  | Some rest => Some (v, rest)
  | None => None
  end.

(** One JSON value at the head of [cs], and the rest of the text. Each
    nested call spends one unit of [fuel] and reads at least one character,
    so a fuel above the length of the text is never exhausted. *)
Fixpoint value (fuel : nat) (cs : list ascii) {struct fuel}
  : option (json * list ascii) :=
  match fuel with
  | O => None
  | S fuel' =>
      match skip_ws cs with
      | [] => None
      | c :: rest =>
          if (c =? "{")%char then
            match skip_ws rest with
            | "}"%char :: rest' => Some (JObject [], rest')
            | _ => members fuel' rest []
            end
          else if (c =? "[")%char then
            match skip_ws rest with
            | "]"%char :: rest' => Some (JArray [], rest')
            | _ => elements fuel' rest []
            end
          else if (c =? quote)%char then
            match string_body rest [] with
            | Some (s, rest') => Some (JString s, rest')
            | None => None
            end
          else if (c =? "-")%char then
            match literal "Infinity" (JFloat (Infinite true)) rest with
            | Some r => Some r
            | None => number true rest
            end
          else if is_digit c then number false (c :: rest)
          else if (c =? "n")%char then literal "null" JNull (c :: rest)
          else if (c =? "t")%char then literal "true" (JBool true) (c :: rest)
          else if (c =? "f")%char then literal "false" (JBool false) (c :: rest)
          else if (c =? "N")%char then literal "NaN" (JFloat NotANumber) (c :: rest)
          else if (c =? "I")%char then
            literal "Infinity" (JFloat (Infinite false)) (c :: rest)
          else None
      end
  end
with members (fuel : nat) (cs : list ascii) (acc : dict json) {struct fuel}
  : option (json * list ascii) :=
  match fuel with
  | O => None
  | S fuel' =>
      match skip_ws cs with
      | c :: rest =>
          if (c =? quote)%char then
            match string_body rest [] with
            | Some (key, rest1) =>
                match skip_ws rest1 with
                | ":"%char :: rest2 =>
                    match value fuel' rest2 with
                    | Some (v, rest3) =>
                        match skip_ws rest3 with
                        | ","%char :: rest4 => members fuel' rest4 (dict_set key v acc)
                        | "}"%char :: rest4 => Some (JObject (dict_set key v acc), rest4)
                        | _ => None
                        end
                    | None => None
                    end
                | _ => None
                end
            | None => None
            end
          else None
      | [] => None
      end
  end
with elements (fuel : nat) (cs : list ascii) (acc : list json) {struct fuel}
  : option (json * list ascii) :=
  match fuel with
  | O => None
  | S fuel' =>
      match value fuel' cs with
      | Some (v, rest) =>
          match skip_ws rest with
          | ","%char :: rest' => elements fuel' rest' (acc ++ [v])
          | "]"%char :: rest' => Some (JArray (acc ++ [v]), rest')
          | _ => None
          end
      | None => None
      end
  end.

(** [json.loads(s)]: one value, then only white space. *)
Definition json_loads (s : string) : result json :=
  let cs := list_ascii_of_string s in
  match value (S (List.length cs)) cs with
  | Some (v, rest) =>
      match skip_ws rest with
      | [] => Return v
      | _ :: _ => Raise JSONDecodeError
      end
  | None => Raise JSONDecodeError
  end.

Definition json_truthy (v : json) : bool :=
  match v with
  | JNull => false
  | JBool b => b
  | JInt n => negb (n =? 0)
  | JFloat f => float_truthy f
  | JString s => negb (s =? "")%string
  | JArray items => match items with [] => false | _ => true end
  | JObject ms => match ms with [] => false | _ => true end
  end.

(** [obj.get(key, default)] on a decoded value: only a [dict] has [get]. *)
Definition json_get (obj : json) (key : string) (default : json) : result json :=
  match obj with
  | JObject d => Return (dict_get d key default)
  | _ => Raise AttributeError
  end.

Definition is_space (c : ascii) : bool :=
  is_ws c || (code c =? 11) || (code c =? 12).

Definition strip (s : string) : list ascii :=
  let drop := fix drop (cs : list ascii) :=
    match cs with
    | c :: rest => if is_space c then drop rest else cs
    | [] => []
    end in
  rev (drop (rev (drop (list_ascii_of_string s)))).

(** Underscores of a numeral: each must stand between two digits. *)
Fixpoint drop_underscores (after_digit : bool) (cs : list ascii) : option (list ascii) :=
  match cs with
  | [] => Some []
  | c :: rest =>
      if (c =? "_")%char then
        match rest with
        | d :: _ => if after_digit && is_digit d then drop_underscores false rest else None
        | [] => None
        end
      else match drop_underscores (is_digit c) rest with
           | Some r => Some (c :: r)
           | None => None
           end
  end.

(** [float(s)] on a string: optional sign, then [inf], [infinity], [nan]
    or a decimal numeral with an optional exponent. *)
Definition float_of_string (s : string) : result pyfloat :=
  let cs := strip s in
  let (negative, body) :=
    match cs with
    | "-"%char :: r => (true, r)
    | "+"%char :: r => (false, r)
    | _ => (false, cs)
    end in
  let word := string_of_list_ascii (map to_lower body) in
  if (word =? "inf")%string || (word =? "infinity")%string then Return (Infinite negative)
  else if (word =? "nan")%string then Return NotANumber
  else
    match drop_underscores false body with
    | None => Raise ValueError
    | Some body' =>
        let (int_ds, rest) := take_digits body' in
        let (frac_ds, rest1) :=
          match rest with
          | "."%char :: r => take_digits r
          | _ => ([], rest)
          end in
        match (int_ds ++ frac_ds)%list with
        | [] => Raise ValueError
        | _ :: _ =>
            match rest1 with
            | [] => Return (Finite (decimal_value negative int_ds frac_ds 0))
            | _ :: _ =>
                match take_exponent rest1 with
                | Some (e, []) => Return (Finite (decimal_value negative int_ds frac_ds e))
                | _ => Raise ValueError
                end
            end
        end
    end.

(** [float(v)] on a decoded JSON value. *)
Definition py_float (v : json) : result pyfloat :=
  match v with
  | JInt n => Return (Finite (inject_Z n))
  | JFloat f => Return f
  | JBool b => Return (Finite (if b then 1 else 0))
  | JString s => float_of_string s
  | JNull | JArray _ | JObject _ => Raise TypeError
  end.

Definition zero : pyfloat := Finite 0.

(* ===================================================================== *)
(** * Strings the way Python slices and splits them *)
(* ===================================================================== *)

(** White space as [str.strip()] sees it (the ASCII part). *)
Definition is_strip_space (c : ascii) : bool :=
  is_space c || ((28 <=? code c) && (code c <=? 31)).

Fixpoint lstrip (cs : list ascii) : list ascii :=
  match cs with
  | c :: rest => if is_strip_space c then lstrip rest else cs
  | [] => []
  end.

(** [s.strip()]. *)
Definition py_strip (s : string) : string :=
  string_of_list_ascii (rev (lstrip (rev (lstrip (list_ascii_of_string s))))).

(** [s.split(' ', 1)[0]]: the text before the first space. *)
Fixpoint first_word (s : string) : string :=
  match s with
  | EmptyString => EmptyString
  | String c rest => if (c =? " ")%char then EmptyString else String c (first_word rest)
  end.

(** [s[-3:]]: the last three characters, or all of [s] when it is shorter. *)
Definition last3 (s : string) : string :=
  let n := String.length s in
  substring (n - 3) 3 s.

(** [s * n] on strings. *)
Fixpoint repeat_string (s : string) (n : nat) : string :=
  match n with
  | O => EmptyString
  | S n' => (s ++ repeat_string s n')%string
  end.

(* ===================================================================== *)
(** * The bounded expiring cache ([cachetools.TTLCache]) *)
(* ===================================================================== *)

(** Hashable keys: a decidable equality. *)
Class EqKey (K : Type) := {
  key_eqb : K -> K -> bool;
  key_eqb_eq : forall a b, key_eqb a b = true <-> a = b
}.

#[export] Instance EqKey_string : EqKey string :=
  {| key_eqb := String.eqb; key_eqb_eq := String.eqb_eq |}.

Definition option_eqb {A} (eqb : A -> A -> bool) (a b : option A) : bool :=
  match a, b with
  | Some x, Some y => eqb x y
  | None, None => true
  | _, _ => false
  end.

Lemma option_eqb_eq {A} `{EqKey A} (a b : option A) :
  option_eqb key_eqb a b = true <-> a = b.
Proof.
  destruct a as [x|], b as [y|]; simpl; try (split; congruence).
  rewrite key_eqb_eq. split; congruence.
Qed.

#[export] Instance EqKey_option {A} `{EqKey A} : EqKey (option A) :=
  {| key_eqb := option_eqb key_eqb; key_eqb_eq := option_eqb_eq |}.

Lemma pair_eqb_eq {A B} `{EqKey A} `{EqKey B} (a b : A * B) :
  key_eqb (fst a) (fst b) && key_eqb (snd a) (snd b) = true <-> a = b.
Proof.
  destruct a as [a1 a2], b as [b1 b2]; simpl.
  rewrite andb_true_iff, !key_eqb_eq. split; [intros [-> ->]; reflexivity | intros [= -> ->]; auto].
Qed.

#[export] Instance EqKey_pair {A B} `{EqKey A} `{EqKey B} : EqKey (A * B) :=
  {| key_eqb := fun a b => key_eqb (fst a) (fst b) && key_eqb (snd a) (snd b);
     key_eqb_eq := pair_eqb_eq |}.

(** [a < b] on rationals, as a boolean. *)
Definition Qltb (a b : Q) : bool := negb (Qle_bool b a).

Module Cache.
Section Defs.
Context {K V : Type} `{EqKey K}.

(** Modelled from the spec: [cachetools.TTLCache], a library the module
    imports, after section 4.2: a mapping with a per-entry time-to-live
    and a maximum entry count; an expired entry reads as absent; a new key
    inserted at capacity evicts the least recently inserted entry. The
    entries are kept oldest first, each with the time it expires at. *)
Record t := make {
  maxsize : Z;
  ttl : Q;
  entries : list (K * V * Q)
}.

Definition entry_key (e : K * V * Q) : K := fst (fst e).
Definition entry_value (e : K * V * Q) : V := snd (fst e).
Definition expires (e : K * V * Q) : Q := snd e.

Definition empty (maxsize : Z) (ttl : Q) : t := make maxsize ttl [].

(** An entry is expired once its expiry time lies before the clock. *)
Definition fresh (now : Q) (e : K * V * Q) : bool := negb (Qltb (expires e) now).

Definition is_key (key : K) (e : K * V * Q) : bool := key_eqb (entry_key e) key.

(** [c.expire(now)]: drop the expired entries. *)
Definition expire (now : Q) (es : list (K * V * Q)) : list (K * V * Q) :=
  filter (fresh now) es.

(** [c.get(key)] read at time [now]. *)
Definition get (c : t) (key : K) (now : Q) : option V :=
  match find (is_key key) (expire now (entries c)) with
  | Some e => Some (entry_value e)
  | None => None
  end.

(** [key in c] read at time [now]. *)
Definition contains (c : t) (key : K) (now : Q) : bool :=
  existsb (is_key key) (expire now (entries c)).

Definition remove (key : K) (es : list (K * V * Q)) : list (K * V * Q) :=
  filter (fun e => negb (is_key key e)) es.

(** Make room for one more entry: drop the oldest ones. *)
Definition evict (maxsize : Z) (es : list (K * V * Q)) : list (K * V * Q) :=
  skipn (S (List.length es) - Z.to_nat maxsize) es.

(** [c[key] = value] at time [now]. A cache with no room for a single
    entry refuses it ([ValueError]). *)
Definition set (c : t) (key : K) (value : V) (now : Q) : result t :=
  if maxsize c <? 1 then Raise ValueError
  else
    let live := expire now (entries c) in
    let kept :=
      if existsb (is_key key) live then remove key live
      else evict (maxsize c) live in
    Return (make (maxsize c) (ttl c) (kept ++ [(key, value, now + ttl c)%Q])).

(** [len(c)] at time [now]. *)
Definition size (c : t) (now : Q) : nat := List.length (expire now (entries c)).
End Defs.
Arguments t : clear implicits.
End Cache.

(* ===================================================================== *)
(** * Module constants *)
(* ===================================================================== *)

Definition VALID_EXPLAIN_STATEMENTS : list string :=
  ["select"; "table"; "delete"; "insert"; "replace"; "update"].

Definition EVENTS_STATEMENTS_PREFERRED_TABLES : list string :=
  ["events_statements_history_long";
   "events_statements_current";
   "events_statements_history"].

Definition DEFAULT_EVENTS_STATEMENTS_COLLECTIONS_PER_SECOND : dict Q :=
  [("events_statements_history_long", 1 # 10);
   ("events_statements_history", 1 # 10);
   ("events_statements_current", 1 # 1)].

Definition EVENTS_STATEMENTS_SAMPLE_EXCLUDE_KEYS : list string :=
  ["sql_text"; "current_schema"; "digest_text"; "timer_end_time_s";
   "max_timer_wait_ns"; "timer_start"; "processlist_host"].

Definition PYMYSQL_NON_RETRYABLE_ERRORS : list Z :=
  [1044; 1046; 1049; 1305; 1370].

Definition mem_string (s : string) (l : list string) : bool :=
  existsb (String.eqb s) l.

(* ===================================================================== *)
(** * The statement-history query *)
(* ===================================================================== *)

(** A row as [DictCursor] returns it: column name to value. *)
Definition row := dict pyval.

(** A row of [performance_schema.events_statements_*] joined with
    [performance_schema.threads], before the query's WHERE, ORDER BY and
    SELECT. [timer_end_time_s] is the server's value of the expression the
    query selects under that name; [columns] holds the columns the query
    selects unchanged. *)
Record events_statement := {
  event_name : string;
  current_schema : option string;
  sql_text : option string;
  digest_text : option string;
  timer_start : option Z;
  timer_end_time_s : pyval;
  timer_wait : option Z;
  lock_time : option Z;
  columns : dict pyval
}.

(** SQL [s LIKE pattern] under the server's default, case-insensitive
    collation: [%] is any run of characters, [_] any one character. *)
Fixpoint like (pattern s : list ascii) : bool :=
  match pattern with
  | [] => match s with [] => true | _ :: _ => false end
  | p :: pattern' =>
      if (p =? "%")%char then
        (fix any_run (s : list ascii) : bool :=
           like pattern' s || match s with [] => false | _ :: s' => any_run s' end) s
      else
        match s with
        | [] => false
        | c :: s' =>
            ((p =? "_")%char || (to_lower p =? to_lower c)%char) && like pattern' s'
        end
  end.

Definition sql_like (s pattern : string) : bool :=
  like (list_ascii_of_string pattern) (list_ascii_of_string s).

(** The query's parameters: [('statement/%', 'EXPLAIN %', checkpoint, row_limit)]. *)
Record query_params := {
  event_name_pattern : string;
  digest_exclude_pattern : string;
  checkpoint_param : Z;
  limit_param : Z
}.

(** [WHERE sql_text IS NOT NULL AND event_name like %s
     AND (digest_text is NULL OR digest_text NOT LIKE %s) AND timer_start > %s]. *)
Definition where_clause (p : query_params) (e : events_statement) : bool :=
  match sql_text e with Some _ => true | None => false end
  && sql_like (event_name e) (event_name_pattern p)
  && match digest_text e with
     | None => true
     | Some d => negb (sql_like d (digest_exclude_pattern p))
     end
  && match timer_start e with
     | Some t => checkpoint_param p <? t
     | None => false
     end.

(** [a] sorts before [b] under [ORDER BY timer_wait DESC] (NULL is lowest). *)
Definition wait_geb (a b : events_statement) : bool :=
  match timer_wait a, timer_wait b with
  | _, None => true
  | None, Some _ => false
  | Some x, Some y => y <=? x
  end.

Fixpoint insert_by_wait (e : events_statement) (sorted : list events_statement)
  : list events_statement :=
  match sorted with
  | [] => [e]
  | x :: rest => if wait_geb e x then e :: sorted else x :: insert_by_wait e rest
  end.

(** [ORDER BY timer_wait DESC]; rows of equal wait keep the table's order
    (the server is free to order them otherwise). *)
Definition order_by_timer_wait_desc (l : list events_statement) : list events_statement :=
  fold_right insert_by_wait [] l.

Definition opt_str (o : option string) : pyval :=
  match o with Some s => PStr s | None => PNone end.

(** [x / 1000] on a nullable integer column. *)
Definition div1000 (o : option Z) : pyval :=
  match o with
  | Some z => PFloat (Finite (Qred (z # 1000)))
  | None => PNone
  end.

Definition PASSTHROUGH_COLUMNS : list string :=
  ["rows_affected"; "rows_sent"; "rows_examined"; "select_full_join";
   "select_full_range_join"; "select_range"; "select_range_check"; "select_scan";
   "sort_merge_passes"; "sort_range"; "sort_rows"; "sort_scan"; "no_index_used";
   "no_good_index_used"; "processlist_user"; "processlist_host"; "processlist_db"].

(** The SELECT list, as the dictionary [DictCursor] builds from it. *)
Definition select_columns (e : events_statement) : row :=
  [("current_schema", opt_str (current_schema e));
   ("sql_text", opt_str (sql_text e));
   ("digest_text",
      opt_str (match digest_text e with Some d => Some d | None => sql_text e end));
   ("timer_start", match timer_start e with Some t => PInt t | None => PNone end);
   ("timer_end_time_s", timer_end_time_s e);
   ("timer_wait_ns", div1000 (timer_wait e));
   ("lock_time_ns", div1000 (lock_time e))]
  ++ map (fun name => (name, dict_get (columns e) name PNone)) PASSTHROUGH_COLUMNS.

(** [EVENTS_STATEMENTS_QUERY] run against the contents of one table. *)
Definition EVENTS_STATEMENTS_QUERY (p : query_params) (table : list events_statement)
  : list row :=
  map select_columns
    (firstn (Z.to_nat (limit_param p))
       (order_by_timer_wait_desc (filter (where_clause p) table))).

(* ===================================================================== *)
(** * The world outside the engine *)
(* ===================================================================== *)

(** The three mechanisms [self._explain_strategies] dispatches on. *)
Inductive explain_strategy := PROCEDURE | FQ_PROCEDURE | STATEMENT.

Definition strategy_eqb (a b : explain_strategy) : bool :=
  match a, b with
  | PROCEDURE, PROCEDURE | FQ_PROCEDURE, FQ_PROCEDURE | STATEMENT, STATEMENT => true
  | _, _ => false
  end.

(** A signature as [compute_sql_signature] returns it: a hash, or [None]
    for empty input. *)
Definition signature := option string.

(** How the database, the agent and the clock answer at one instant. *)
Record Env := {
  (** [time.monotonic()], the cache timer *)
  monotonic : Q;
  (** [pymysql.connect(...)] *)
  connect : result unit;
  (** [SELECT name from performance_schema.setup_consumers WHERE enabled = 'YES'] *)
  setup_consumers : result (list string);
  (** [UPDATE performance_schema.setup_consumers SET enabled = 'YES' WHERE name = %s] *)
  update_setup_consumers : string -> result unit;
  (** the contents of [performance_schema.<table>] joined with the threads *)
  performance_schema : string -> result (list events_statement);
  (** [SET @@SESSION.sql_notes = 0] *)
  set_sql_notes : result unit;
  (** [USE `schema`] *)
  use_schema : string -> result unit;
  (** a mechanism run on a statement, then [cursor.fetchone()[0]] *)
  explain : explain_strategy -> string -> result (option string);
  (** [datadog_agent.obfuscate_sql] *)
  obfuscate_sql : string -> result string;
  (** [datadog_agent.obfuscate_sql_exec_plan(plan, normalize)] *)
  obfuscate_sql_exec_plan : string -> bool -> result string
}.

(** The world of a run: the two signature functions of
    [datadog_checks.base.utils.db.sql], and the answers of the environment
    to the engine's successive calls, the n-th call being answered by
    [answers n]. *)
Record World := {
  compute_sql_signature : string -> signature;
  compute_exec_plan_signature : string -> result signature;
  answers : nat -> Env
}.

(** What went over the cursor, with the answer. *)
Inductive db_call :=
| Connect (r : result unit)
| SelectEnabledConsumers (r : result (list string))
| EnableConsumer (name : string) (r : result unit)
| SelectEventsStatements (table : string) (p : query_params) (r : result (list row))
| SetSqlNotes (r : result unit)
| UseSchema (schema : string) (r : result unit)
| Explain (strategy : explain_strategy) (statement : string) (r : result (option string)).

(* ===================================================================== *)
(** * The engine's state *)
(* ===================================================================== *)

(** What the per-schema and the collection strategy cache hold: the
    [(table, rate_limit)] tuple, the name of a working explain strategy, or
    the string ['ERROR']. *)
Inductive cached :=
| CollectionStrategy (table : string) (rate_limit : Q)
| ExplainStrategy (s : explain_strategy)
| ExplainError.

(** The tag of one [dd.mysql.statement_samples.error] count. *)
Inductive counted_error :=
| TruncatedSqlText
| SqlObfuscate
| ExplainFailed (e : exn)
| ExplainUseSchema (e : exn)
| ExplainAttempt (s : explain_strategy) (e : exn).

(** The emitted event. Host, service and tags, which repeat the instance's
    identity, are left out. *)
Record event := {
  timestamp : pyval;
  duration : pyval;
  network_client_ip : pyval;
  db_instance : option string;
  db_plan_definition : option string;
  db_plan_cost : option pyfloat;
  db_plan_signature : signature;
  db_query_signature : signature;
  db_resource_hash : signature;
  db_statement : string;
  mysql : dict pyval
}.

(** The fields of [self] the engine reads and writes, with a record of what
    it did to the outside: the answers consumed, the statements sent, the
    errors counted and the events yielded. *)
Record MySQLStatementSamples := Engine {
  _checkpoint : Z;
  (** whether [self._db] holds a connection *)
  _db : bool;
  (** [self._rate_limiter.rate_limit_s] *)
  _rate_limiter : Q;
  _auto_enable_events_statements_consumers : bool;
  _collections_per_second : Q;
  _events_statements_row_limit : Z;
  _preferred_events_statements_tables : list string;
  _collection_strategy_cache : Cache.t string cached;
  _explained_statements_cache : Cache.t signature bool;
  _seen_samples_cache : Cache.t (signature * signature) bool;
  _preferred_explain_strategies : list explain_strategy;
  (** how many answers of the world the run has consumed *)
  answered : nat;
  (** the statements sent to the database so far, oldest first *)
  cursor_log : list db_call;
  (** the [dd.mysql.statement_samples.error] counts so far, oldest first *)
  counted : list counted_error;
  (** the events yielded to the sink so far, oldest first *)
  submitted : list event
}.

Definition set_checkpoint (v : Z) (self : MySQLStatementSamples) : MySQLStatementSamples :=
  Engine (v) (_db self) (_rate_limiter self) (_auto_enable_events_statements_consumers self)
    (_collections_per_second self) (_events_statements_row_limit self)
    (_preferred_events_statements_tables self) (_collection_strategy_cache self)
    (_explained_statements_cache self) (_seen_samples_cache self)
    (_preferred_explain_strategies self) (answered self) (cursor_log self) (counted self)
    (submitted self).

Definition set_db (v : bool) (self : MySQLStatementSamples) : MySQLStatementSamples :=
  Engine (_checkpoint self) (v) (_rate_limiter self) (_auto_enable_events_statements_consumers
    self) (_collections_per_second self) (_events_statements_row_limit self)
    (_preferred_events_statements_tables self) (_collection_strategy_cache self)
    (_explained_statements_cache self) (_seen_samples_cache self)
    (_preferred_explain_strategies self) (answered self) (cursor_log self) (counted self)
    (submitted self).

Definition set_rate_limiter (v : Q) (self : MySQLStatementSamples) : MySQLStatementSamples :=
  Engine (_checkpoint self) (_db self) (v) (_auto_enable_events_statements_consumers self)
    (_collections_per_second self) (_events_statements_row_limit self)
    (_preferred_events_statements_tables self) (_collection_strategy_cache self)
    (_explained_statements_cache self) (_seen_samples_cache self)
    (_preferred_explain_strategies self) (answered self) (cursor_log self) (counted self)
    (submitted self).

Definition set_collection_strategy_cache (v : Cache.t string cached) (self : MySQLStatementSamples) : MySQLStatementSamples :=
  Engine (_checkpoint self) (_db self) (_rate_limiter self)
    (_auto_enable_events_statements_consumers self) (_collections_per_second self)
    (_events_statements_row_limit self) (_preferred_events_statements_tables self) (v)
    (_explained_statements_cache self) (_seen_samples_cache self)
    (_preferred_explain_strategies self) (answered self) (cursor_log self) (counted self)
    (submitted self).

Definition set_explained_statements_cache (v : Cache.t signature bool) (self : MySQLStatementSamples) : MySQLStatementSamples :=
  Engine (_checkpoint self) (_db self) (_rate_limiter self)
    (_auto_enable_events_statements_consumers self) (_collections_per_second self)
    (_events_statements_row_limit self) (_preferred_events_statements_tables self)
    (_collection_strategy_cache self) (v) (_seen_samples_cache self)
    (_preferred_explain_strategies self) (answered self) (cursor_log self) (counted self)
    (submitted self).

Definition set_seen_samples_cache (v : Cache.t (signature * signature) bool) (self : MySQLStatementSamples) : MySQLStatementSamples :=
  Engine (_checkpoint self) (_db self) (_rate_limiter self)
    (_auto_enable_events_statements_consumers self) (_collections_per_second self)
    (_events_statements_row_limit self) (_preferred_events_statements_tables self)
    (_collection_strategy_cache self) (_explained_statements_cache self) (v)
    (_preferred_explain_strategies self) (answered self) (cursor_log self) (counted self)
    (submitted self).

Definition set_answered (v : nat) (self : MySQLStatementSamples) : MySQLStatementSamples :=
  Engine (_checkpoint self) (_db self) (_rate_limiter self)
    (_auto_enable_events_statements_consumers self) (_collections_per_second self)
    (_events_statements_row_limit self) (_preferred_events_statements_tables self)
    (_collection_strategy_cache self) (_explained_statements_cache self) (_seen_samples_cache
    self) (_preferred_explain_strategies self) (v) (cursor_log self) (counted self) (submitted
    self).

Definition set_cursor_log (v : list db_call) (self : MySQLStatementSamples) : MySQLStatementSamples :=
  Engine (_checkpoint self) (_db self) (_rate_limiter self)
    (_auto_enable_events_statements_consumers self) (_collections_per_second self)
    (_events_statements_row_limit self) (_preferred_events_statements_tables self)
    (_collection_strategy_cache self) (_explained_statements_cache self) (_seen_samples_cache
    self) (_preferred_explain_strategies self) (answered self) (v) (counted self) (submitted
    self).

Definition set_counted (v : list counted_error) (self : MySQLStatementSamples) : MySQLStatementSamples :=
  Engine (_checkpoint self) (_db self) (_rate_limiter self)
    (_auto_enable_events_statements_consumers self) (_collections_per_second self)
    (_events_statements_row_limit self) (_preferred_events_statements_tables self)
    (_collection_strategy_cache self) (_explained_statements_cache self) (_seen_samples_cache
    self) (_preferred_explain_strategies self) (answered self) (cursor_log self) (v)
    (submitted self).

Definition set_submitted (v : list event) (self : MySQLStatementSamples) : MySQLStatementSamples :=
  Engine (_checkpoint self) (_db self) (_rate_limiter self)
    (_auto_enable_events_statements_consumers self) (_collections_per_second self)
    (_events_statements_row_limit self) (_preferred_events_statements_tables self)
    (_collection_strategy_cache self) (_explained_statements_cache self) (_seen_samples_cache
    self) (_preferred_explain_strategies self) (answered self) (cursor_log self) (counted
    self) (v).

(* ===================================================================== *)
(** * Running the engine: state, exceptions and the world's answers *)
(* ===================================================================== *)

(** A method of the engine: given the world it reads and updates [self]
    and returns or raises. *)
Definition M (A : Type) : Type :=
  World -> MySQLStatementSamples -> result A * MySQLStatementSamples.

Definition ret {A} (a : A) : M A := fun _ self => (Return a, self).

Definition raise {A} (e : exn) : M A := fun _ self => (Raise e, self).

Definition bind {A B} (m : M A) (k : A -> M B) : M B :=
  fun w self =>
    match m w self with
    | (Return a, self') => k a w self'
    | (Raise e, self') => (Raise e, self')
    end.

Notation "x <- m ;; k" := (bind m (fun x => k))
  (at level 61, m at next level, right associativity).
Notation "m ;; k" := (bind m (fun _ => k))
  (at level 61, right associativity).

Definition lift {A} (r : result A) : M A := fun _ self => (r, self).

Definition gets {A} (f : MySQLStatementSamples -> A) : M A :=
  fun _ self => (Return (f self), self).

Definition modify (f : MySQLStatementSamples -> MySQLStatementSamples) : M unit :=
  fun _ self => (Return tt, f self).

(** [try: body / except: handler]. A handler for one class of exceptions
    re-raises the others. *)
Definition try_except {A} (body : M A) (handler : exn -> M A) : M A :=
  fun w self =>
    match body w self with
    | (Return a, self') => (Return a, self')
    | (Raise e, self') => handler e w self'
    end.

(** The world itself, for its pure functions. *)
Definition world : M World := fun w self => (Return w, self).

(** The next answer of the world. *)
Definition ask : M Env :=
  fun w self => (Return (answers w (answered self)), set_answered (S (answered self)) self).

Definition sent (c : db_call) : M unit :=
  modify (fun self => set_cursor_log (cursor_log self ++ [c]) self).

(** [self._check.count("dd.mysql.statement_samples.error", 1, tags=...)]. *)
Definition count_error (t : counted_error) : M unit :=
  modify (fun self => set_counted (counted self ++ [t]) self).

(** [yield event]: the sink reads the generator to its end. *)
Definition yield (ev : event) : M unit :=
  modify (fun self => set_submitted (submitted self ++ [ev]) self).

Definition time_monotonic : M Q := e <- ask ;; ret (monotonic e).

(** ** The three caches *)

Definition strategy_cache_get (key : string) : M (option cached) :=
  now <- time_monotonic ;;
  c <- gets _collection_strategy_cache ;;
  ret (Cache.get c key now).

Definition strategy_cache_set (key : string) (v : cached) : M unit :=
  now <- time_monotonic ;;
  c <- gets _collection_strategy_cache ;;
  c' <- lift (Cache.set c key v now) ;;
  modify (set_collection_strategy_cache c').

Definition explained_statements_contains (key : signature) : M bool :=
  now <- time_monotonic ;;
  c <- gets _explained_statements_cache ;;
  ret (Cache.contains c key now).

Definition explained_statements_set (key : signature) : M unit :=
  now <- time_monotonic ;;
  c <- gets _explained_statements_cache ;;
  c' <- lift (Cache.set c key true now) ;;
  modify (set_explained_statements_cache c').

Definition seen_samples_contains (key : signature * signature) : M bool :=
  now <- time_monotonic ;;
  c <- gets _seen_samples_cache ;;
  ret (Cache.contains c key now).

Definition seen_samples_set (key : signature * signature) : M unit :=
  now <- time_monotonic ;;
  c <- gets _seen_samples_cache ;;
  c' <- lift (Cache.set c key true now) ;;
  modify (set_seen_samples_cache c').

(** ** The connection and the cursor *)

(** [_get_db_connection]: connect on first use. *)
Definition _get_db_connection : M unit :=
  db <- gets _db ;;
  if db then ret tt
  else
    e <- ask ;;
    sent (Connect (connect e)) ;;
    lift (connect e) ;;
    modify (set_db true).

Definition result_map {A B} (f : A -> B) (r : result A) : result B :=
  match r with
  | Return a => Return (f a)
  | Raise e => Raise e
  end.

Definition execute_select_consumers : M (list string) :=
  e <- ask ;;
  sent (SelectEnabledConsumers (setup_consumers e)) ;;
  lift (setup_consumers e).

Definition execute_enable_consumer (name : string) : M unit :=
  e <- ask ;;
  sent (EnableConsumer name (update_setup_consumers e name)) ;;
  lift (update_setup_consumers e name).

Definition execute_events_statements_query (table : string) (p : query_params)
  : M (list row) :=
  e <- ask ;;
  let r := result_map (EVENTS_STATEMENTS_QUERY p) (performance_schema e table) in
  sent (SelectEventsStatements table p r) ;;
  lift r.

Definition execute_set_sql_notes : M unit :=
  e <- ask ;;
  sent (SetSqlNotes (set_sql_notes e)) ;;
  lift (set_sql_notes e).

Definition execute_use (schema : string) : M unit :=
  e <- ask ;;
  sent (UseSchema schema (use_schema e schema)) ;;
  lift (use_schema e schema).

(** [_run_explain], [_run_explain_procedure] and
    [_run_fully_qualified_explain_procedure], by strategy name. *)
Definition _explain_strategies (strategy : explain_strategy) (statement : string)
  : M (option string) :=
  e <- ask ;;
  sent (Explain strategy statement (explain e strategy statement)) ;;
  lift (explain e strategy statement).

Definition agent_obfuscate_sql (text : string) : M string :=
  e <- ask ;;
  lift (obfuscate_sql e text).

Definition agent_obfuscate_sql_exec_plan (plan : string) (normalize : bool) : M string :=
  e <- ask ;;
  lift (obfuscate_sql_exec_plan e plan normalize).

(* ===================================================================== *)
(** * The methods of [MySQLStatementSamples] *)
(* ===================================================================== *)

(** ** [_get_new_events_statements] *)

(** An integer column of a row. *)
Definition as_int (v : pyval) : result Z :=
  match v with
  | PInt z => Return z
  | _ => Raise TypeError
  end.

(** [max(r['timer_start'] for r in rows)] on a non-empty batch. *)
Fixpoint max_timer_start (rows : list row) : result Z :=
  match rows with
  | [] => Raise ValueError
  | r :: rest =>
      let? v := getitem r "timer_start" in
      let? t := as_int v in
      match rest with
      | [] => Return t
      | _ :: _ => let? m := max_timer_start rest in Return (Z.max t m)
      end
  end.

(** The parameters of the query:
    [('statement/%', 'EXPLAIN %', self._checkpoint, row_limit)]. *)
Definition fetch_params (checkpoint row_limit : Z) : query_params :=
  {| event_name_pattern := "statement/%";
     digest_exclude_pattern := "EXPLAIN %";
     checkpoint_param := checkpoint;
     limit_param := row_limit |}.

(** The body of the method's [with] block, the cursor in hand. *)
Definition fetch_with_cursor (events_statements_table : string) (row_limit : Z)
  : M (list row) :=
  checkpoint <- gets _checkpoint ;;
  let params := fetch_params checkpoint row_limit in
  rows <- execute_events_statements_query events_statements_table params ;;
  match rows with
  | [] => ret rows
  | _ :: _ =>
      newest <- lift (max_timer_start rows) ;;
      modify (set_checkpoint newest) ;;
      execute_set_sql_notes ;;
      ret rows
  end.

Definition _get_new_events_statements (events_statements_table : string) (row_limit : Z)
  : M (list row) :=
  _get_db_connection ;;
  fetch_with_cursor events_statements_table row_limit.

(** ** [_filter_valid_statement_rows] *)

(** [all(row)]: iterating a dictionary visits its keys. *)
Definition all_keys (r : row) : bool :=
  forallb (fun kv => negb (fst kv =? "")%string) r.

(** A generator read to its end: what it yielded, then how it ended. *)
Record generated (A E : Type) := {
  yields : list A;
  ending : result E
}.
Arguments yields {A E} g.
Arguments ending {A E} g.

(** The loop of the filter from counters [num_sent] and [num_truncated];
    it ends with the two counters, or with the exception a row raised. *)
Fixpoint filter_rows_from (rows : list row) (num_sent num_truncated : nat)
  : generated row (nat * nat) :=
  match rows with
  | [] => {| yields := []; ending := Return (num_sent, num_truncated) |}
  | r :: rest =>
      if match r with [] => true | _ :: _ => false end || negb (all_keys r)
      then filter_rows_from rest num_sent num_truncated
      else
        match getitem r "sql_text" with
        | Raise e => {| yields := []; ending := Raise e |}
        | Return sql_text =>
            if negb (truthy sql_text) then filter_rows_from rest num_sent num_truncated
            else
              match sql_text with
              | PStr s =>
                  if (last3 s =? "...")%string
                  then filter_rows_from rest num_sent (S num_truncated)
                  else
                    let g := filter_rows_from rest (S num_sent) num_truncated in
                    {| yields := r :: yields g; ending := ending g |}
              | _ => {| yields := []; ending := Raise TypeError |}
              end
        end
  end.

Definition _filter_valid_statement_rows (rows : list row) : generated row (nat * nat) :=
  filter_rows_from rows 0 0.

(** What the filter does after its loop: one count when rows were truncated. *)
Definition filter_epilogue (counters : nat * nat) : M unit :=
  match snd counters with
  | O => ret tt
  | S _ => count_error TruncatedSqlText
  end.

(** ** [_can_explain] and [_parse_execution_plan_cost] *)

Definition _can_explain (statement : string) : bool :=
  mem_string (lower (first_word (py_strip statement))) VALID_EXPLAIN_STATEMENTS.

Definition _parse_execution_plan_cost (execution_plan : string) : result pyfloat :=
  let? plan := json_loads execution_plan in
  let? query_block := json_get plan "query_block" (JObject []) in
  let? cost_info := json_get query_block "cost_info" (JObject []) in
  let? cost := json_get cost_info "query_cost" (JFloat zero) in
  py_float (if json_truthy cost then cost else JFloat zero).

(** ** [_explain_statement] *)

Definition float_in_non_retryable (f : pyfloat) : bool :=
  match f with
  | Finite q => existsb (fun n => Qeq_bool q (inject_Z n)) PYMYSQL_NON_RETRYABLE_ERRORS
  | _ => false
  end.

(** [e.args[0] in PYMYSQL_NON_RETRYABLE_ERRORS], for a two-element [args]. *)
Definition non_retryable (args : list pyval) : bool :=
  match args with
  | PInt n :: _ => existsb (Z.eqb n) PYMYSQL_NON_RETRYABLE_ERRORS
  | PFloat f :: _ => float_in_non_retryable f
  | _ => false
  end.

(** ['%s' % schema] for a schema that is a string or [None]. *)
Definition format_schema (schema : option string) : string :=
  match schema with
  | Some s => s
  | None => "None"
  end.

Definition strategy_cache_key (schema : option string) : string :=
  ("explain_strategy:" ++ format_schema schema)%string.

Definition plan_truthy (plan : option string) : bool :=
  match plan with
  | Some s => negb (s =? "")%string
  | None => false
  end.

(** The handler both [except pymysql.err.DatabaseError] clauses share, up
    to the tag they count: re-raise unless [args] has two elements; on a
    non-retryable code mark the schema; count the error. *)
Definition on_database_error (key : string) (tag : exn -> counted_error) (e : exn)
  : M unit :=
  match e with
  | DatabaseError args =>
      if negb (Nat.eqb (List.length args) 2) then raise e
      else
        (if non_retryable args then strategy_cache_set key ExplainError else ret tt) ;;
        count_error (tag e)
  | _ => raise e
  end.

(** The body of the [for strategy in strategies] loop: the plan when the
    strategy returns one, [None] to go on to the next strategy. *)
Definition try_strategy (key : string) (statement : string) (strategy : explain_strategy)
  : M (option string) :=
  try_except
    (plan <- _explain_strategies strategy statement ;;
     if plan_truthy plan then
       strategy_cache_set key (ExplainStrategy strategy) ;; ret plan
     else ret None)
    (fun e => on_database_error key (ExplainAttempt strategy) e ;; ret None).

(** The loop: the plan of the first strategy that returns one. *)
Fixpoint try_strategies (key : string) (statement : string)
  (strategies : list explain_strategy) : M (option string) :=
  match strategies with
  | [] => ret None
  | strategy :: rest =>
      found <- try_strategy key statement strategy ;;
      match found with
      | Some plan => ret (Some plan)
      | None => try_strategies key statement rest
      end
  end.

(** [strategies.remove(x)]: without the first [x], or [ValueError]. *)
Fixpoint list_remove (x : explain_strategy) (l : list explain_strategy)
  : result (list explain_strategy) :=
  match l with
  | [] => Raise ValueError
  | y :: rest =>
      if strategy_eqb y x then Return rest
      else let? rest' := list_remove x rest in Return (y :: rest')
  end.

(** The order the strategies are tried in, given the cache entry. *)
Definition ordered_strategies (preferred : list explain_strategy) (hit : option cached)
  : result (list explain_strategy) :=
  match hit with
  | None => Return preferred
  | Some (ExplainStrategy s) =>
      let? rest := list_remove s preferred in Return (s :: rest)
  | Some _ => Raise ValueError
  end.

Definition is_explain_error (hit : option cached) : bool :=
  match hit with
  | Some ExplainError => true
  | _ => false
  end.

(** [if schema: cursor.execute('USE `{}`'.format(schema))]. *)
Definition switch_to_schema (schema : option string) : M unit :=
  match schema with
  | Some s => if (s =? "")%string then ret tt else execute_use s
  | None => ret tt
  end.

Definition _explain_statement (statement : string) (schema : option string)
  : M (option string) :=
  agent_obfuscate_sql statement ;;
  let key := strategy_cache_key schema in
  if negb (_can_explain statement) then ret None
  else
    hit <- strategy_cache_get key ;;
    if is_explain_error hit then ret None
    else
      switched <- try_except
        (switch_to_schema schema ;; ret true)
        (fun e => on_database_error key ExplainUseSchema e ;; ret false) ;;
      if negb switched then ret None
      else
        preferred <- gets _preferred_explain_strategies ;;
        hit' <- strategy_cache_get key ;;
        strategies <- lift (ordered_strategies preferred hit') ;;
        try_strategies key statement strategies.

Definition _explain_statement_safe (sql_text : string) (schema : option string)
  : M (option string) :=
  _get_db_connection ;;
  try_except (_explain_statement sql_text schema)
    (fun e => count_error (ExplainFailed e) ;; ret None).

(** ** [_collect_plans_for_statements] *)

(** A text column of a row ([VARCHAR], never NULL here). *)
Definition as_text (v : pyval) : result string :=
  match v with
  | PStr s => Return s
  | _ => Raise TypeError
  end.

(** A nullable text column of a row. *)
Definition as_optional_text (v : pyval) : result (option string) :=
  match v with
  | PStr s => Return (Some s)
  | PNone => Return None
  | _ => Raise TypeError
  end.

Definition float_times (f : pyfloat) (n : Z) : pyfloat :=
  match f with
  | Finite q => Finite (Qred (q * inject_Z n))
  | other => other
  end.

(** [v * 1000]. *)
Definition times1000 (v : pyval) : result pyval :=
  match v with
  | PNone => Raise TypeError
  | PBool b => Return (PInt (if b then 1000 else 0))
  | PInt z => Return (PInt (z * 1000))
  | PFloat f => Return (PFloat (float_times f 1000))
  | PStr s => Return (PStr (repeat_string s 1000))
  end.

(** The dictionary the generator yields for a row. *)
Definition build_event (r : row) (query_signature apm_resource_hash : signature)
  (obfuscated_statement : string) (obfuscated_plan : option string)
  (plan_cost : option pyfloat) (plan_signature : signature) : result event :=
  let? end_time := getitem r "timer_end_time_s" in
  let? ts := times1000 end_time in
  let? wait := getitem r "timer_wait_ns" in
  let? schema_value := getitem r "current_schema" in
  let? schema := as_optional_text schema_value in
  Return {| timestamp := ts;
            duration := wait;
            network_client_ip := dict_get r "processlist_host" PNone;
            db_instance := schema;
            db_plan_definition := obfuscated_plan;
            db_plan_cost := plan_cost;
            db_plan_signature := plan_signature;
            db_query_signature := query_signature;
            db_resource_hash := apm_resource_hash;
            db_statement := obfuscated_statement;
            mysql := filter
                       (fun kv => negb (mem_string (fst kv)
                                          EVENTS_STATEMENTS_SAMPLE_EXCLUDE_KEYS)) r |}.

(** The plan's redacted definition, cost and signature, when there is a plan. *)
Definition describe_plan (plan : option string)
  : M (option string * signature * option pyfloat) :=
  match plan with
  | None => ret (None, None, None)
  | Some p =>
      w <- world ;;
      normalized_plan <- agent_obfuscate_sql_exec_plan p true ;;
      obfuscated_plan <- agent_obfuscate_sql_exec_plan p false ;;
      plan_signature <- lift (compute_exec_plan_signature w normalized_plan) ;;
      plan_cost <- lift (_parse_execution_plan_cost p) ;;
      ret (Some obfuscated_plan, plan_signature, Some plan_cost)
  end.

(** The end of the loop body, the plan known: describe the plan, and yield
    an event unless the pair of signatures has been seen. *)
Definition emit_sample (r : row) (query_signature apm_resource_hash : signature)
  (obfuscated_statement : string) (plan : option string) : M unit :=
  described <- describe_plan (if plan_truthy plan then plan else None) ;;
  let '(obfuscated_plan, plan_signature, plan_cost) := described in
  let statement_plan_sig := (query_signature, plan_signature) in
  seen <- seen_samples_contains statement_plan_sig ;;
  if seen then ret tt
  else
    seen_samples_set statement_plan_sig ;;
    ev <- lift (build_event r query_signature apm_resource_hash
                  obfuscated_statement obfuscated_plan plan_cost plan_signature) ;;
    yield ev.

(** The body of the loop over the filtered rows. *)
Definition collect_plan_for_row (r : row) : M unit :=
  w <- world ;;
  obfuscated <- try_except
    (sql_text <- lift (let? v := getitem r "sql_text" in as_text v) ;;
     o <- agent_obfuscate_sql sql_text ;;
     ret (Some o))
    (fun _ => count_error SqlObfuscate ;; ret None) ;;
  match obfuscated with
  | None => ret tt
  | Some obfuscated_statement =>
      digest_text <- lift (let? v := getitem r "digest_text" in as_text v) ;;
      obfuscated_digest <- agent_obfuscate_sql digest_text ;;
      let query_signature := compute_sql_signature w obfuscated_digest in
      let apm_resource_hash := compute_sql_signature w obfuscated_statement in
      explained <- explained_statements_contains query_signature ;;
      if explained then ret tt
      else
        explained_statements_set query_signature ;;
        sql_text <- lift (let? v := getitem r "sql_text" in as_text v) ;;
        schema <- lift (let? v := getitem r "current_schema" in as_optional_text v) ;;
        plan <- _explain_statement_safe sql_text schema ;;
        emit_sample r query_signature apm_resource_hash obfuscated_statement plan
  end.

Fixpoint for_each {A} (body : A -> M unit) (l : list A) : M unit :=
  match l with
  | [] => ret tt
  | a :: rest => body a ;; for_each body rest
  end.

(** The generator run to its end by the sink: the rows the filter yields
    are handled one by one, then the filter ends. *)
Definition _collect_plans_for_statements (rows : list row) : M unit :=
  let filtered := _filter_valid_statement_rows rows in
  for_each collect_plan_for_row (yields filtered) ;;
  counters <- lift (ending filtered) ;;
  filter_epilogue counters.

(** ** [_get_sample_collection_strategy] *)

Definition _get_enabled_performance_schema_consumers : M (list string) :=
  _get_db_connection ;;
  execute_select_consumers.

Definition _performance_schema_enable_consumer (name : string) : M bool :=
  _get_db_connection ;;
  try_except
    (execute_enable_consumer name ;; ret true)
    (fun e =>
       match e with
       | DatabaseError [] => raise (OtherError "IndexError")
       | DatabaseError (_ :: _) => ret false
       | _ => raise e
       end).

(** The loop over the preferred tables: the table it breaks at, if any. *)
Fixpoint choose_table (enabled_consumers : list string) (tables : list string)
  : M (option string) :=
  match tables with
  | [] => ret None
  | table :: rest =>
      usable <-
        (if mem_string table enabled_consumers then ret true
         else
           auto <- gets _auto_enable_events_statements_consumers ;;
           if negb auto then ret false
           else _performance_schema_enable_consumer table) ;;
      if negb usable then choose_table enabled_consumers rest
      else
        rows <- _get_new_events_statements table 1 ;;
        match rows with
        | [] => choose_table enabled_consumers rest
        | _ :: _ => ret (Some table)
        end
  end.

(** A cache entry that is not a [(table, rate_limit)] tuple fails where the
    caller unpacks it; [None] is the [None, None] of the source. *)
Definition _get_sample_collection_strategy : M (option (string * Q)) :=
  cached_strategy <- strategy_cache_get "plan_collection_strategy" ;;
  match cached_strategy with
  | Some (CollectionStrategy table rate_limit) => ret (Some (table, rate_limit))
  | Some _ => raise ValueError
  | None =>
      enabled_consumers <- _get_enabled_performance_schema_consumers ;;
      configured <- gets _collections_per_second ;;
      tables <- gets _preferred_events_statements_tables ;;
      chosen <- choose_table enabled_consumers tables ;;
      match chosen with
      | None => ret None
      | Some table =>
          rate_limit <-
            (if Qltb configured 0
             then lift (getitem DEFAULT_EVENTS_STATEMENTS_COLLECTIONS_PER_SECOND table)
             else ret configured) ;;
          if (table =? "")%string then ret None
          else
            strategy_cache_set "plan_collection_strategy"
              (CollectionStrategy table rate_limit) ;;
            ret (Some (table, rate_limit))
      end
  end.

(** ** [_collect_statement_samples]: one collection cycle

    The rate limiter's sleep and the timing metrics are left out. *)

Definition _collect_statement_samples : M unit :=
  strategy <- _get_sample_collection_strategy ;;
  match strategy with
  | None => ret tt
  | Some (events_statements_table, rate_limit) =>
      if (events_statements_table =? "")%string then ret tt
      else
        limiter <- gets _rate_limiter ;;
        (if negb (Qeq_bool limiter rate_limit)
         then modify (set_rate_limiter rate_limit) else ret tt) ;;
        row_limit <- gets _events_statements_row_limit ;;
        rows <- _get_new_events_statements events_statements_table row_limit ;;
        _collect_plans_for_statements rows
  end.

(** A run of cycles, each started whether or not the one before failed
    (as the synchronous mode does, one cycle per check run). *)
Fixpoint cycles (n : nat) (w : World) (self : MySQLStatementSamples)
  : MySQLStatementSamples :=
  match n with
  | O => self
  | S n' => cycles n' w (snd (_collect_statement_samples w self))
  end.

(** ** [__init__] *)

(** [self._config.statement_samples_config], each option with the default
    [__init__] gives it. *)
Record Config := {
  auto_enable_events_statements_consumers : bool;
  collections_per_second : Q;
  events_statements_row_limit : Z;
  events_statements_table : option string;
  collection_strategy_cache_maxsize : Z;
  collection_strategy_cache_ttl : Q;
  explained_statements_cache_maxsize : Z;
  explained_statements_per_hour_per_query : Q;
  seen_samples_cache_maxsize : Z;
  samples_per_hour_per_query : Q
}.

Definition default_config : Config :=
  {| auto_enable_events_statements_consumers := false;
     collections_per_second := -1;
     events_statements_row_limit := 5000;
     events_statements_table := None;
     collection_strategy_cache_maxsize := 1000;
     collection_strategy_cache_ttl := 300;
     explained_statements_cache_maxsize := 5000;
     explained_statements_per_hour_per_query := 60;
     seen_samples_cache_maxsize := 10000;
     samples_per_hour_per_query := 15 |}.

(** [60 * 60 / rate]. *)
Definition per_hour (rate : Q) : result Q :=
  if Qeq_bool rate 0 then Raise (OtherError "ZeroDivisionError")
  else Return (Qred (3600 / rate)).

(** The instance [__init__] builds, the two computed time-to-live values given. *)
Definition new_instance (config : Config) (explained_ttl seen_ttl : Q)
  : MySQLStatementSamples :=
  let tables :=
    match events_statements_table config with
    | Some t =>
        if (t =? "")%string then EVENTS_STATEMENTS_PREFERRED_TABLES
        else
          match lookup t DEFAULT_EVENTS_STATEMENTS_COLLECTIONS_PER_SECOND with
          | Some _ => [t]
          | None => EVENTS_STATEMENTS_PREFERRED_TABLES
          end
    | None => EVENTS_STATEMENTS_PREFERRED_TABLES
    end in
  {| _checkpoint := 0;
     _db := false;
     _rate_limiter := 1;
     _auto_enable_events_statements_consumers :=
       auto_enable_events_statements_consumers config;
     _collections_per_second := collections_per_second config;
     _events_statements_row_limit := events_statements_row_limit config;
     _preferred_events_statements_tables := tables;
     _collection_strategy_cache :=
       Cache.empty (collection_strategy_cache_maxsize config)
         (collection_strategy_cache_ttl config);
     _explained_statements_cache :=
       Cache.empty (explained_statements_cache_maxsize config) explained_ttl;
     _seen_samples_cache :=
       Cache.empty (seen_samples_cache_maxsize config) seen_ttl;
     _preferred_explain_strategies := [PROCEDURE; FQ_PROCEDURE; STATEMENT];
     answered := O;
     cursor_log := [];
     counted := [];
     submitted := [] |}.

Definition __init__ (config : Config) : result MySQLStatementSamples :=
  let? explained_ttl := per_hour (explained_statements_per_hour_per_query config) in
  let? seen_ttl := per_hour (samples_per_hour_per_query config) in
  Return (new_instance config explained_ttl seen_ttl).

(* ===================================================================== *)
(** * The sampler around the engine: [run_sampler] and [collection_loop] *)
(* ===================================================================== *)

(** [s.startswith(prefix)] and [s[len(prefix):]] in one: what follows
    [prefix] in [s]. *)
Fixpoint after_prefix (prefix s : string) : option string :=
  match prefix, s with
  | EmptyString, _ => Some s
  | String p prefix', String c s' =>
      if (p =? c)%char then after_prefix prefix' s' else None
  | String _ _, EmptyString => None
  end.

(** The loop over the tags: each [service:] tag names the service anew. *)
Fixpoint service_of_tags (service : string) (tags : list string) : string :=
  match tags with
  | [] => service
  | t :: rest =>
      service_of_tags
        (match after_prefix "service:" t with
         | Some name => name
         | None => service
         end) rest
  end.

(** The fields of [self] that [run_sampler] and [collection_loop] read and
    write, around the engine's. [_collection_loop_future] is whether a
    future is held; [min_collection_interval] is the one of [self._config]. *)
Record Sampler := {
  engine : MySQLStatementSamples;
  _enabled : bool;
  _run_sync : bool;
  min_collection_interval : Q;
  _tags : option (list string);
  _tags_str : option string;
  _service : string;
  _last_check_run : Q;
  _collection_loop_future : bool
}.

(** The sampler [__init__] builds around an engine. *)
Definition new_sampler (enabled run_sync : bool) (interval : Q)
  (e : MySQLStatementSamples) : Sampler :=
  {| engine := e;
     _enabled := enabled;
     _run_sync := run_sync;
     min_collection_interval := interval;
     _tags := None;
     _tags_str := None;
     _service := "mysql";
     _last_check_run := 0;
     _collection_loop_future := false |}.

(** What a call of [run_sampler] reads from outside: the wall clock, the
    environment variable [DBM_STATEMENT_SAMPLER_RUN_SYNC] as
    [is_affirmative] reads it, and [running()] of the future held. *)
Record CheckRun := {
  time_time : Q;
  run_sync_in_environment : bool;
  future_running : bool
}.

(** What a call of [run_sampler] started. *)
Inductive started :=
| Disabled
| Synchronous (cycle : result unit)
| LoopSubmitted
| LoopAlreadyRunning.

Definition run_sampler (tags : list string) (c : CheckRun) (w : World) (self : Sampler)
  : started * Sampler :=
  if negb (_enabled self) then (Disabled, self)
  else
    let tagged (e : MySQLStatementSamples) (future : bool) : Sampler :=
      {| engine := e;
         _enabled := _enabled self;
         _run_sync := _run_sync self;
         min_collection_interval := min_collection_interval self;
         _tags := Some tags;
         _tags_str := Some (String.concat "," tags);
         _service := service_of_tags (_service self) tags;
         _last_check_run := time_time c;
         _collection_loop_future := future |} in
    if _run_sync self || run_sync_in_environment c then
      let (cycle, e) := _collect_statement_samples w (engine self) in
      (Synchronous cycle, tagged e (_collection_loop_future self))
    else if negb (_collection_loop_future self) || negb (future_running c) then
      (LoopSubmitted, tagged (engine self) true)
    else (LoopAlreadyRunning, tagged (engine self) (_collection_loop_future self)).

(** Check runs one after the other, each with its tags and readings. *)
Fixpoint check_runs (runs : list (list string * CheckRun)) (w : World) (self : Sampler)
  : Sampler :=
  match runs with
  | [] => self
  | (tags, c) :: rest => check_runs rest w (snd (run_sampler tags c w self))
  end.

(** What an iteration of the loop reads: the wall clock, and
    [self._last_check_run] as the check's thread last wrote it. *)
Record Reading := {
  wall_clock : Q;
  last_check_run : Q
}.

(** [time.time() - self._last_check_run > self._config.min_collection_interval * 2]. *)
Definition inactive (interval : Q) (r : Reading) : bool :=
  Qltb (interval * 2) (wall_clock r - last_check_run r).

(** How the loop ended, with the count it made on its way out: the
    inactivity stop, or the failure of a cycle. *)
Inductive loop_end :=
| InactiveStop
| LoopFailure (e : exn).

(** [collection_loop], its [while True] run for at most [fuel] iterations
    from iteration [i]; [None] when it is still running after them. *)
Fixpoint collection_loop (fuel : nat) (interval : Q) (readings : nat -> Reading)
  (i : nat) (w : World) (self : MySQLStatementSamples)
  : option loop_end * MySQLStatementSamples :=
  match fuel with
  | O => (None, self)
  | S fuel' =>
      if inactive interval (readings i) then (Some InactiveStop, self)
      else
        match _collect_statement_samples w self with
        | (Return _, self') => collection_loop fuel' interval readings (S i) w self'
        | (Raise e, self') => (Some (LoopFailure e), self')
        end
  end.

(* ===================================================================== *)
(** * Properties of runs *)
(* ===================================================================== *)

(** A method obeys a relation when every run of it, whatever the world
    answers and whether it returns or raises, takes [self] to a related
    state. *)
Definition obeys (R : MySQLStatementSamples -> MySQLStatementSamples -> Prop)
  {A} (m : M A) : Prop :=
  forall w self, R self (snd (m w self)).

(** The row's [timer_start] is an integer in the interval (lo, hi]. *)
Definition started_within (lo hi : Z) (r : row) : Prop :=
  exists t, lookup "timer_start" r = Some (PInt t) /\ lo < t <= hi.

Definition started_after (lo : Z) (r : row) : Prop :=
  exists t, lookup "timer_start" r = Some (PInt t) /\ lo < t.

(** What one answer to a fetch sent with checkpoint [lo] does: rows, all
    started in (lo, mid], move the checkpoint to [mid]; an empty answer or
    an error leaves it. *)
Definition fetch_moves (lo : Z) (r : result (list row)) (mid : Z) : Prop :=
  match r with
  | Return (x :: rows) => Forall (started_within lo mid) (x :: rows)
  | _ => mid = lo
  end.

Definition is_fetch (call : db_call) : bool :=
  match call with
  | SelectEventsStatements _ _ _ => true
  | _ => false
  end.

(** [Fetches lo log hi]: replayed from checkpoint [lo], the statements of
    [log] leave the checkpoint at [hi]; every fetch in it was sent with the
    checkpoint of its moment, and the rows it returned started above that
    checkpoint and moved the checkpoint to cover them. *)
Inductive Fetches : Z -> list db_call -> Z -> Prop :=
| Fetches_nil lo : Fetches lo [] lo
| Fetches_fetch lo table p r mid log hi :
    checkpoint_param p = lo ->
    fetch_moves lo r mid ->
    Fetches mid log hi ->
    Fetches lo (SelectEventsStatements table p r :: log) hi
| Fetches_other lo call log hi :
    is_fetch call = false ->
    Fetches lo log hi ->
    Fetches lo (call :: log) hi.

(** [self'] is reached from [self] by sending statements that replay from
    the one checkpoint to the other. *)
Definition steps (self self' : MySQLStatementSamples) : Prop :=
  exists sent_since,
    cursor_log self' = cursor_log self ++ sent_since
    /\ Fetches (_checkpoint self) sent_since (_checkpoint self').

(** A decoded plan with no [query_block] / [cost_info] / [query_cost] path,
    each level that is present being an object. *)
Definition no_nested_cost (members : dict json) : bool :=
  match lookup "query_block" members with
  | None => true
  | Some (JObject query_block) =>
      match lookup "cost_info" query_block with
      | None => true
      | Some (JObject cost_info) =>
          match lookup "query_cost" cost_info with
          | None => true
          | Some _ => false
          end
      | Some _ => false
      end
  | Some _ => false
  end.

(** ** The explain attempts of a run *)

(** One attempt: the mechanism and what it answered. *)
Definition attempt : Type := explain_strategy * result (option string).

(** The explain attempts among the statements sent, oldest first. *)
Fixpoint explain_attempts (log : list db_call) : list attempt :=
  match log with
  | [] => []
  | Explain s _ r :: rest => (s, r) :: explain_attempts rest
  | _ :: rest => explain_attempts rest
  end.

(** The answer of a mechanism is a plan: a non-empty text. *)
Definition returned_plan (r : result (option string)) : bool :=
  match r with
  | Return p => plan_truthy p
  | Raise _ => false
  end.

(** The order of the mechanisms when [hit] is the working strategy cached
    for the schema: that one first, then the others in the fixed order
    (stored procedure, fully qualified stored procedure, direct EXPLAIN). *)
Definition strategies_in_order (hit : option explain_strategy) : list explain_strategy :=
  let fixed := [PROCEDURE; FQ_PROCEDURE; STATEMENT] in
  match hit with
  | None => fixed
  | Some c => c :: filter (fun s => negb (strategy_eqb s c)) fixed
  end.

(** [Tried order attempts outcome]: the attempts go down [order]; an
    attempt that gives no plan is followed by the next mechanism; the
    first plan ends the walk and is its outcome; with every mechanism
    tried and no plan the outcome is [None]; an exception that escapes ends
    the walk, and only after an attempt that gave no plan. *)
Inductive Tried : list explain_strategy -> list attempt -> result (option string) -> Prop :=
| Tried_all : Tried [] [] (Return None)
| Tried_plan s rest p :
    plan_truthy (Some p) = true ->
    Tried (s :: rest) [(s, Return (Some p))] (Return (Some p))
| Tried_next s rest a attempts outcome :
    returned_plan a = false ->
    Tried rest attempts outcome ->
    Tried (s :: rest) ((s, a) :: attempts) outcome
| Tried_raised s rest a e :
    returned_plan a = false ->
    Tried (s :: rest) [(s, a)] (Raise e).

(** ** The permanently-failing mark of a schema *)

(** The answer of a mechanism, or of the context switch, that marks the
    schema: a database error with a two-element [args] whose code is in
    the non-retryable set. *)
Definition non_retryable_error {A} (a : result A) : Prop :=
  exists args,
    a = Raise (DatabaseError args)
    /\ List.length args = 2%nat /\ non_retryable args = true.

(** The schema's cache entry is the sentinel, written at some reading of
    the clock and read as such until its time-to-live has passed. *)
Definition marked_failing (w : World) (key : string) (self : MySQLStatementSamples) : Prop :=
  exists n,
    forall t, (t <= monotonic (answers w n) + Cache.ttl (_collection_strategy_cache self))%Q ->
              Cache.get (_collection_strategy_cache self) key t = Some ExplainError.

(** ** The table a strategy selection settles on *)

Definition is_nil {A} (l : list A) : bool :=
  match l with
  | [] => true
  | _ :: _ => false
  end.

(** A table qualifies when it is enabled, or auto-enabling is on and the
    server accepts the update, and a one-row fetch above the checkpoint
    returns a row. *)
Definition table_qualifies (auto_enable : bool) (enabled : list string) (env : Env)
  (checkpoint : Z) (table : string) : bool :=
  (mem_string table enabled
   || (auto_enable
       && match update_setup_consumers env table with
          | Return _ => true
          | Raise _ => false
          end))
  && match performance_schema env table with
     | Return contents =>
         negb (is_nil (EVENTS_STATEMENTS_QUERY (fetch_params checkpoint 1) contents))
     | Raise _ => false
     end.

(** The server's answers raise nothing the selection does not handle. *)
Definition selection_answers (env : Env) (enabled : list string) : Prop :=
  connect env = Return tt
  /\ setup_consumers env = Return enabled
  /\ set_sql_notes env = Return tt
  /\ (forall t, exists contents, performance_schema env t = Return contents)
  /\ (forall t, update_setup_consumers env t = Return tt
                \/ exists a args, update_setup_consumers env t = Raise (DatabaseError (a :: args))).

(** ** Emission within one time-to-live window *)

(** A method obeys a relation that depends on the world of the run. *)
Definition obeys_in (R : World -> MySQLStatementSamples -> MySQLStatementSamples -> Prop)
  {A} (m : M A) : Prop :=
  forall w self, R w self (snd (m w self)).

(** The pair an event is de-duplicated under. *)
Definition sample_pair (ev : event) : signature * signature :=
  (db_query_signature ev, db_plan_signature ev).

(** The pairs the seen-samples cache holds, oldest first, and their number. *)
Definition seen_pairs (self : MySQLStatementSamples) : list (signature * signature) :=
  map Cache.entry_key (Cache.entries (_seen_samples_cache self)).

Definition seen_size (self : MySQLStatementSamples) : Z :=
  Z.of_nat (List.length (Cache.entries (_seen_samples_cache self))).

(** The run stays within one time-to-live window of the seen-samples
    cache: any two readings of the clock are less than a time-to-live apart
    and no entry of the cache expires at any of them; the cache holds each
    pair once and no more entries than its maximum size. *)
Definition one_window (w : World) (self : MySQLStatementSamples) : Prop :=
  (forall i j, (monotonic (answers w i)
                <= monotonic (answers w j) + Cache.ttl (_seen_samples_cache self))%Q)
  /\ (forall e, In e (Cache.entries (_seen_samples_cache self)) ->
                forall i, (monotonic (answers w i) <= Cache.expires e)%Q)
  /\ NoDup (seen_pairs self)
  /\ seen_size self <= Cache.maxsize (_seen_samples_cache self).

(** What a run within one window does to the cache and to the sink: the
    window goes on, the cache does not shrink, and, if the cache is still
    not full at the end, it has kept every pair, the events yielded carry
    distinct pairs, none of which the cache held at the start, and all of
    which it holds at the end. *)
Definition emits_once (w : World) (self self' : MySQLStatementSamples) : Prop :=
  one_window w self ->
  one_window w self'
  /\ Cache.maxsize (_seen_samples_cache self') = Cache.maxsize (_seen_samples_cache self)
  /\ seen_size self <= seen_size self'
  /\ exists new,
       submitted self' = submitted self ++ new
       /\ (seen_size self' < Cache.maxsize (_seen_samples_cache self') ->
           incl (seen_pairs self) (seen_pairs self')
           /\ NoDup (map sample_pair new)
           /\ forall ev, In ev new ->
                ~ In (sample_pair ev) (seen_pairs self)
                /\ In (sample_pair ev) (seen_pairs self')).
(* ===================================================================== *)
(** * What a run sends and yields *)
(* ===================================================================== *)

(** [self'] is reached from [self] by sending statements that all satisfy
    [P], in whatever number. *)
Definition sends_only (P : db_call -> Prop) (self self' : MySQLStatementSamples) : Prop :=
  exists new, cursor_log self' = cursor_log self ++ new /\ Forall P new.

Definition is_connect (call : db_call) : bool :=
  match call with
  | Connect _ => true
  | _ => false
  end.

Definition is_consumer_update (call : db_call) : bool :=
  match call with
  | EnableConsumer _ _ => true
  | _ => false
  end.

(** Once [self._db] holds a connection it keeps holding one, and nothing
    more is sent to [pymysql.connect]. *)
Definition stays_connected (self self' : MySQLStatementSamples) : Prop :=
  _db self = true ->
  _db self' = true /\ sends_only (fun call => is_connect call = false) self self'.

(** The auto-enable option is not written, and while it is off no
    [UPDATE performance_schema.setup_consumers] is sent. *)
Definition never_updates_consumers (self self' : MySQLStatementSamples) : Prop :=
  _auto_enable_events_statements_consumers self'
  = _auto_enable_events_statements_consumers self
  /\ (_auto_enable_events_statements_consumers self = false ->
      sends_only (fun call => is_consumer_update call = false) self self').

(** A statement sent behind its guard: an explain mechanism is run on a
    statement [_can_explain] accepts, and [USE] names a schema. *)
Definition guarded (call : db_call) : Prop :=
  match call with
  | Explain _ statement _ => _can_explain statement = true
  | UseSchema schema _ => schema <> ""
  | _ => True
  end.

(** [self'] is reached from [self] by yielding events that all satisfy [P]. *)
Definition yields_only (P : event -> Prop) (self self' : MySQLStatementSamples) : Prop :=
  exists new, submitted self' = submitted self ++ new /\ Forall P new.

(** The [mysql] section of an event holds none of the excluded columns. *)
Definition leaves_out_excluded (ev : event) : Prop :=
  forall key, In key EVENTS_STATEMENTS_SAMPLE_EXCLUDE_KEYS -> lookup key (mysql ev) = None.

(** The plan of an event is whole or absent: a definition comes with a
    cost, and without a definition there is no cost and no signature. *)
Definition plan_whole_or_absent (ev : event) : Prop :=
  match db_plan_definition ev with
  | Some _ => exists cost, db_plan_cost ev = Some cost
  | None => db_plan_cost ev = None /\ db_plan_signature ev = None
  end.

(** ** The filter, row by row *)

(** The text of a row's [sql_text] column when it is a non-empty string. *)
Definition statement_text (r : row) : option string :=
  match lookup "sql_text" r with
  | Some (PStr s) => if (s =? "")%string then None else Some s
  | _ => None
  end.

(** The row passes the first test of the filter: it has columns, none with
    an empty name. *)
Definition has_columns (r : row) : bool := negb (is_nil r) && all_keys r.

(** The row is cut: its text ends in the marker of a truncated statement. *)
Definition cut (r : row) : bool :=
  has_columns r
  && match statement_text r with
     | Some s => (last3 s =? "...")%string
     | None => false
     end.

(** The row is forwarded: it has a text, and the text is whole. *)
Definition forwarded (r : row) : bool :=
  has_columns r
  && match statement_text r with
     | Some s => negb (last3 s =? "...")%string
     | None => false
     end.

(** ** The order of the query's answer *)

(** Each element waited at least as long as those after it. *)
Fixpoint descending (l : list events_statement) : Prop :=
  match l with
  | [] => True
  | e :: rest => (forall e', In e' rest -> wait_geb e e' = true) /\ descending rest
  end.

(** ** The outcome of an explain *)

(** What [_explain_statement] returns is no plan: [None] or an exception. *)
Definition without_plan (r : result (option string)) : Prop :=
  r = Return None \/ exists e, r = Raise e.

(** A tag that does not name the service. *)
Definition names_no_service (tag : string) : Prop := after_prefix "service:" tag = None.

(** ** The fields a method leaves alone *)

Definition untouched {T} (field : MySQLStatementSamples -> T)
  (self self' : MySQLStatementSamples) : Prop :=
  field self' = field self.

(* ===================================================================== *)
(** * Sample worlds and rows *)
(* ===================================================================== *)

(** A statement event with the given schema, text, digest, start and wait. *)
Definition digested_event (schema : option string) (text : string)
  (digest : option string) (start wait : Z) : events_statement :=
  {| event_name := "statement/sql/select";
     current_schema := schema;
     sql_text := Some text;
     digest_text := digest;
     timer_start := Some start;
     timer_end_time_s := PFloat (Finite 100);
     timer_wait := Some wait;
     lock_time := Some 0;
     columns := [("rows_sent", PInt 1); ("processlist_host", PStr "10.0.0.7")] |}.

Definition statement_event (schema : option string) (text : string) (start wait : Z)
  : events_statement :=
  digested_event schema text None start wait.

(** A server at one instant: the clock, the enabled consumers, the tables,
    and how it answers [USE] and the explain mechanisms. Connecting,
    enabling a consumer and resetting the session flag succeed; the agent
    returns the text unchanged unless told otherwise. *)
Definition server (now : Q) (consumers : list string)
  (tables : string -> list events_statement)
  (use : string -> result unit)
  (mechanisms : explain_strategy -> string -> result (option string))
  (obfuscate : string -> result string) : Env :=
  {| monotonic := now;
     connect := Return tt;
     setup_consumers := Return consumers;
     update_setup_consumers := fun _ => Return tt;
     performance_schema := fun t => Return (tables t);
     set_sql_notes := Return tt;
     use_schema := use;
     explain := mechanisms;
     obfuscate_sql := obfuscate;
     obfuscate_sql_exec_plan := fun plan _ => Return plan |}.

(** A signature function for the samples: the text itself, [None] when empty. *)
Definition sample_signature (s : string) : signature :=
  if (s =? "")%string then None else Some s.

(** A world that always answers the same. *)
Definition steady (env : Env) : World :=
  {| compute_sql_signature := sample_signature;
     compute_exec_plan_signature := fun s => Return (sample_signature s);
     answers := fun _ => env |}.

(** The instance a default configuration builds. *)
Definition default_instance : MySQLStatementSamples :=
  new_instance default_config 60 240.

(** Only the direct EXPLAIN works: the procedures do not exist (error 1305). *)
Definition only_direct_explain (s : explain_strategy) (statement : string)
  : result (option string) :=
  match s with
  | STATEMENT => Return (Some "{}")
  | _ => Raise (DatabaseError [PInt 1305; PStr "PROCEDURE explain_statement does not exist"])
  end.

(** Three statements in the current-activity table, the long-history table
    enabled but empty. *)
Definition busy_tables (table : string) : list events_statement :=
  if (table =? "events_statements_current")%string then
    [statement_event None "select 1" 5 10;
     statement_event (Some "shop") "select 2" 7 30;
     statement_event (Some "shop") "show tables" 9 20]
  else [].

Definition busy_server : Env :=
  server 0 ["events_statements_history_long"; "events_statements_current"]
    busy_tables (fun _ => Return tt) only_direct_explain (fun s => Return s).

(** A statement run with no default schema, as the cursor returns it:
    [current_schema] is NULL. *)
Definition row_without_schema : row :=
  select_columns (statement_event None "select 1" 5 10).

(** An agent that cannot obfuscate a text with an unclosed back-quote. *)
Definition count_backquotes (s : string) : nat :=
  List.length (filter (fun c => (c =? "`")%char) (list_ascii_of_string s)).

Definition strict_obfuscator (s : string) : result string :=
  if Nat.even (count_backquotes s) then Return s
  else Raise (OtherError "obfuscate_sql").

(** A statement whose digest the server cut inside a quoted name. *)
Definition row_with_cut_digest : row :=
  select_columns
    (digested_event (Some "shop") "select a from t where `c` = 2"
       (Some "SELECT `a` FROM `t` WHERE `c") 11 40).

Definition row_after_cut_digest : row :=
  select_columns (statement_event (Some "shop") "select 3" 12 30).

Definition strict_server : Env :=
  server 0 ["events_statements_current"] busy_tables (fun _ => Return tt)
    only_direct_explain strict_obfuscator.

(** A server that denies access to every schema (error 1044). *)
Definition forbidden_server : Env :=
  server 0 ["events_statements_current"] busy_tables
    (fun _ => Raise (DatabaseError [PInt 1044; PStr "Access denied for user"]))
    only_direct_explain (fun s => Return s).

(** No mechanism gives a plan: the procedures do not exist (error 1305)
    and the direct EXPLAIN fails on a syntax error (error 1064). *)
Definition no_plan (s : explain_strategy) (statement : string) : result (option string) :=
  match s with
  | STATEMENT => Raise (DatabaseError [PInt 1064; PStr "You have an error in your SQL syntax"])
  | _ => Raise (DatabaseError [PInt 1305; PStr "PROCEDURE explain_statement does not exist"])
  end.

Definition no_plan_server : Env :=
  server 0 ["events_statements_current"] busy_tables (fun _ => Return tt)
    no_plan (fun s => Return s).

(** The default instance after a statement of schema [shop] met the
    forbidden server. *)
Definition instance_denied_shop : MySQLStatementSamples :=
  snd (_explain_statement "select 2" (Some "shop") (steady forbidden_server)
         default_instance).

(** Statements in the current-activity table and in the plain history
    table; the long-history consumer is disabled. *)
Definition two_tables (table : string) : list events_statement :=
  if (table =? "events_statements_current")%string then
    [statement_event (Some "shop") "select 2" 7 30]
  else if (table =? "events_statements_history")%string then
    [statement_event (Some "shop") "select 4" 8 50]
  else [].

Definition two_tables_server : Env :=
  server 0 ["events_statements_current"; "events_statements_history"]
    two_tables (fun _ => Return tt) only_direct_explain (fun s => Return s).

(** On the busy server: the row the probe returns (the longest wait), and
    the only row the full fetch of the same cycle returns. *)
Definition probed_row : row :=
  select_columns (statement_event (Some "shop") "select 2" 7 30).

Definition row_after_probe : row :=
  select_columns (statement_event (Some "shop") "show tables" 9 20).

(** A configuration with room for one query in the explained-statements
    cache and one pair in the seen-samples cache. *)
Definition tight_config : Config :=
  {| auto_enable_events_statements_consumers := false;
     collections_per_second := -1;
     events_statements_row_limit := 5000;
     events_statements_table := None;
     collection_strategy_cache_maxsize := 1000;
     collection_strategy_cache_ttl := 300;
     explained_statements_cache_maxsize := 1;
     explained_statements_per_hour_per_query := 60;
     seen_samples_cache_maxsize := 1;
     samples_per_hour_per_query := 15 |}.

Definition tight_instance : MySQLStatementSamples := new_instance tight_config 60 240.

(** One statement, another, and the first again. *)
Definition repeating_batch : list row :=
  [select_columns (statement_event None "select 1" 5 10);
   select_columns (statement_event None "select 2" 7 10);
   select_columns (statement_event None "select 1" 9 10)].

(** The same with statements that cannot be explained. *)
Definition repeating_plan_less_batch : list row :=
  [select_columns (statement_event None "show tables" 5 10);
   select_columns (statement_event None "show status" 7 10);
   select_columns (statement_event None "show tables" 9 10)].

(** The default instance with its connection made. *)
Definition connected_instance : MySQLStatementSamples :=
  snd (_get_db_connection (steady busy_server) default_instance).

(** A statement longer than the server keeps: its text ends in the marker. *)
Definition cut_row : row :=
  select_columns (statement_event (Some "shop") "select * from orders where id in (1, 2, ..." 5 10).

(** A server with no statement consumer enabled. *)
Definition idle_server : Env :=
  server 0 [] busy_tables (fun _ => Return tt) only_direct_explain (fun s => Return s).

(** A server that cannot be reached (error 2003). *)
Definition unreachable_server : Env :=
  {| monotonic := 0;
     connect := Raise (DatabaseError [PInt 2003; PStr "Can't connect to MySQL server"]);
     setup_consumers := Return [];
     update_setup_consumers := fun _ => Return tt;
     performance_schema := fun _ => Return [];
     set_sql_notes := Return tt;
     use_schema := fun _ => Return tt;
     explain := only_direct_explain;
     obfuscate_sql := fun s => Return s;
     obfuscate_sql_exec_plan := fun plan _ => Return plan |}.

(** A server whose long-history table holds a statement. *)
Definition archive_tables (table : string) : list events_statement :=
  if (table =? "events_statements_history_long")%string then
    [statement_event (Some "shop") "select 5" 3 40]
  else [].

Definition archive_server : Env :=
  server 0 ["events_statements_history_long"] archive_tables (fun _ => Return tt)
    only_direct_explain (fun s => Return s).

(** A sampler in synchronous mode around the default instance, and one
    that runs the loop, with a collection interval of 15 seconds. *)
Definition synchronous_sampler : Sampler := new_sampler true true 15 default_instance.

Definition background_sampler : Sampler := new_sampler true false 15 default_instance.

(** A check run at the given time, the environment not asking for the
    synchronous mode, the future, if any, still running. *)
Definition check_run_at (now : Q) : CheckRun :=
  {| time_time := now; run_sync_in_environment := false; future_running := true |}.

(** The check ran at time 0; the loop reads the clock at 10, then at 40. *)
Definition cooling_readings (i : nat) : Reading :=
  {| wall_clock := match i with O => 10 | S _ => 40 end; last_check_run := 0 |}.

(** A statement whose end time the server gives as NULL. *)
Definition running_row : row :=
  select_columns
    {| event_name := "statement/sql/select";
       current_schema := Some "shop";
       sql_text := Some "select sleep(9)";
       digest_text := None;
       timer_start := Some 11;
       timer_end_time_s := PNone;
       timer_wait := Some 4;
       lock_time := Some 0;
       columns := [] |}.

(** An agent that cannot obfuscate a statement that compares with a
    back-quoted name, on a server where only the direct EXPLAIN works. *)
Definition refusing_obfuscator (s : string) : result string :=
  if (s =? "select a from t where `c` = 2")%string then Raise (OtherError "obfuscate_sql")
  else Return s.

Definition refusing_server : Env :=
  server 0 ["events_statements_current"] busy_tables (fun _ => Return tt)
    only_direct_explain refusing_obfuscator.

(* ===================================================================== *)
(** * Reasoning about methods *)
(* ===================================================================== *)

Section Obeys.
Variable R : MySQLStatementSamples -> MySQLStatementSamples -> Prop.
Hypothesis R_refl : forall s, R s s.
Hypothesis R_trans : forall a b c, R a b -> R b c -> R a c.

Lemma obeys_ret {A} (a : A) : obeys R (ret a).
Proof. intros w s. apply R_refl. Qed.

Lemma obeys_raise {A} (e : exn) : obeys R (@raise A e).
Proof. intros w s. apply R_refl. Qed.

Lemma obeys_lift {A} (r : result A) : obeys R (lift r).
Proof. intros w s. apply R_refl. Qed.

Lemma obeys_gets {A} (f : MySQLStatementSamples -> A) : obeys R (gets f).
Proof. intros w s. apply R_refl. Qed.

Lemma obeys_world : obeys R world.
Proof. intros w s. apply R_refl. Qed.

Lemma obeys_bind {A B} (m : M A) (k : A -> M B) :
  obeys R m -> (forall a, obeys R (k a)) -> obeys R (bind m k).
Proof.
  intros Hm Hk w s. unfold bind.
  specialize (Hm w s). destruct (m w s) as [[a|e] s1]; simpl in *.
  - eapply R_trans; [exact Hm | apply Hk].
  - exact Hm.
Qed.

Lemma obeys_try_except {A} (body : M A) (handler : exn -> M A) :
  obeys R body -> (forall e, obeys R (handler e)) -> obeys R (try_except body handler).
Proof.
  intros Hb Hh w s. unfold try_except.
  specialize (Hb w s). destruct (body w s) as [[a|e] s1]; simpl in *.
  - exact Hb.
  - eapply R_trans; [exact Hb | apply Hh].
Qed.

Lemma obeys_modify (f : MySQLStatementSamples -> MySQLStatementSamples) :
  (forall s, R s (f s)) -> obeys R (modify f).
Proof. intros Hf w s. apply Hf. Qed.

Lemma obeys_for_each {A} (body : A -> M unit) (l : list A) :
  (forall a, obeys R (body a)) -> obeys R (for_each body l).
Proof.
  intros Hb. induction l as [|a l IH]; simpl.
  - apply obeys_ret.
  - apply obeys_bind; [apply Hb | intros _; exact IH].
Qed.
End Obeys.

(** Splitting a goal about a method along its binds, branches and
    handlers; what is left are the primitive steps. *)
Ltac obey_step :=
  first
    [ apply obeys_bind; [assumption | assumption | | intros ?]
    | apply obeys_try_except; [assumption | assumption | | intros ?]
    | apply obeys_ret; assumption
    | apply obeys_raise; assumption
    | apply obeys_lift; assumption
    | apply obeys_gets; assumption
    | apply obeys_world; assumption
    | match goal with
      | |- obeys _ (if ?b then _ else _) => destruct b
      | |- obeys _ (match ?x with _ => _ end) => destruct x
      | |- obeys _ (let '(_, _) := ?x in _) => destruct x
      end ].

(* ===================================================================== *)
(** * The rows a fetch returns lie above its checkpoint *)
(* ===================================================================== *)

Lemma insert_by_wait_In e x l : In x (insert_by_wait e l) <-> x = e \/ In x l.
Proof.
  induction l as [|y l IH]; simpl.
  - intuition.
  - destruct (wait_geb e y); simpl; [intuition | rewrite IH; intuition].
Qed.

Lemma order_by_In x l : In x (order_by_timer_wait_desc l) <-> In x l.
Proof.
  unfold order_by_timer_wait_desc.
  induction l as [|y l IH]; simpl; [tauto|].
  rewrite insert_by_wait_In, IH. intuition.
Qed.

Lemma In_firstn {A} (x : A) n l : In x (firstn n l) -> In x l.
Proof.
  revert l; induction n as [|n IH]; intros [|y l]; simpl; try tauto.
  intros [->|H]; auto.
Qed.

Lemma where_clause_timer_start p e :
  where_clause p e = true ->
  exists t, timer_start e = Some t /\ checkpoint_param p < t.
Proof.
  unfold where_clause. rewrite !andb_true_iff. intros [_ H].
  destruct (timer_start e) as [t|]; [|discriminate].
  exists t. split; [reflexivity | lia].
Qed.

Lemma select_columns_timer_start e :
  lookup "timer_start" (select_columns e)
  = Some (match timer_start e with Some t => PInt t | None => PNone end).
Proof. reflexivity. Qed.

(** Every row of the query's answer passed the WHERE clause. *)
Lemma query_row_origin p table r :
  In r (EVENTS_STATEMENTS_QUERY p table) ->
  exists e, r = select_columns e /\ In e table /\ where_clause p e = true.
Proof.
  unfold EVENTS_STATEMENTS_QUERY. rewrite in_map_iff.
  intros (e & <- & He). exists e. split; [reflexivity|].
  apply In_firstn, order_by_In, filter_In in He. exact He.
Qed.

Lemma query_rows_after p table :
  Forall (started_after (checkpoint_param p)) (EVENTS_STATEMENTS_QUERY p table).
Proof.
  apply Forall_forall. intros r Hr.
  destruct (query_row_origin _ _ _ Hr) as (e & -> & _ & Hw).
  destruct (where_clause_timer_start _ _ Hw) as (t & Ht & Hlt).
  exists t. rewrite select_columns_timer_start, Ht. auto.
Qed.

(** On rows above a checkpoint, [max] succeeds, is above it too, bounds
    every row and is the [timer_start] of one of them. *)
Lemma max_timer_start_after lo rows :
  rows <> [] -> Forall (started_after lo) rows ->
  exists m, max_timer_start rows = Return m /\ lo < m
            /\ Forall (started_within lo m) rows
            /\ exists r, In r rows /\ lookup "timer_start" r = Some (PInt m).
Proof.
  induction rows as [|r rows IH]; [congruence|]. intros _ H.
  inversion H as [|? ? (t & Ht & Hlt) Hrest]; subst.
  destruct rows as [|r' rows].
  - exists t. simpl. unfold getitem. rewrite Ht. simpl.
    repeat split; auto.
    + constructor; [|constructor]. exists t. split; [assumption|lia].
    + exists r. simpl; auto.
  - destruct IH as (m & Hm & Hlo & Hall & (r0 & Hin & Hr0)); [congruence | assumption |].
    exists (Z.max t m).
    change (max_timer_start (r :: r' :: rows))
      with (let? v := getitem r "timer_start" in
            let? t := as_int v in
            let? m := max_timer_start (r' :: rows) in Return (Z.max t m)).
    unfold getitem at 1. rewrite Ht. cbn [result_bind as_int]. rewrite Hm.
    cbn [result_bind].
    repeat split; try lia.
    + constructor.
      * exists t. split; [assumption|lia].
      * eapply Forall_impl; [|exact Hall].
        intros x (tx & Hx & Hb). exists tx. split; [assumption|lia].
    + destruct (Z.max_spec t m) as [[_ ->]|[_ ->]].
      * exists r0. split; [right; assumption | assumption].
      * exists r. split; [left; reflexivity | assumption].
Qed.

(* ===================================================================== *)
(** * Every method moves the checkpoint forward *)
(* ===================================================================== *)

Lemma fetch_moves_le lo r mid : fetch_moves lo r mid -> lo <= mid.
Proof.
  destruct r as [[|x rows]|e]; simpl; try lia.
  intros H. inversion H as [|? ? (t & _ & Hb) _]. lia.
Qed.

Lemma Fetches_le lo log hi : Fetches lo log hi -> lo <= hi.
Proof.
  induction 1 as [| lo table p r mid log hi _ Hm _ IH |]; try lia.
  apply fetch_moves_le in Hm. lia.
Qed.

Lemma Fetches_app lo l1 mid l2 hi :
  Fetches lo l1 mid -> Fetches mid l2 hi -> Fetches lo (l1 ++ l2) hi.
Proof.
  induction 1; intros Hrest; simpl; auto.
  - eapply Fetches_fetch; eauto.
  - apply Fetches_other; auto.
Qed.

Lemma Fetches_split lo l1 l2 hi :
  Fetches lo (l1 ++ l2) hi -> exists mid, Fetches lo l1 mid /\ Fetches mid l2 hi.
Proof.
  revert lo; induction l1 as [|c l1 IH]; simpl; intros lo H.
  - exists lo. split; [constructor | assumption].
  - inversion H as [| ? ? ? ? mid0 ? ? Hp Hm Hf | ? ? ? ? Hc Hf]; subst.
    + destruct (IH _ Hf) as (m & Hl & Hr). exists m. split; [|assumption].
      eapply Fetches_fetch; eauto.
    + destruct (IH _ Hf) as (m & Hl & Hr). exists m. split; [|assumption].
      apply Fetches_other; auto.
Qed.

(** Whatever a later fetch returns started after the checkpoint the replay
    began at. *)
Lemma Fetches_later lo log hi table p rows :
  Fetches lo log hi ->
  In (SelectEventsStatements table p (Return rows)) log ->
  lo <= checkpoint_param p /\ Forall (started_after lo) rows.
Proof.
  induction 1 as [| lo t0 p0 r0 mid log hi Hp Hm Hf IH
                  | lo call log hi Hc Hf IH]; simpl; intros Hin.
  - contradiction.
  - pose proof (fetch_moves_le _ _ _ Hm) as Hle.
    destruct Hin as [Heq|Hin].
    + injection Heq as -> -> ->. split; [lia|].
      destruct rows as [|x rows]; [constructor|].
      simpl in Hm. eapply Forall_impl; [|exact Hm].
      intros r (t & Ht & Hb). exists t. split; [assumption|lia].
    + destruct (IH Hin) as [Hle' Hrows]. split; [lia|].
      eapply Forall_impl; [|exact Hrows].
      intros r (t & Ht & Hb). exists t. split; [assumption|lia].
  - destruct Hin as [Heq|Hin]; [|auto].
    subst call. discriminate.
Qed.

(** A fetch that returned rows bounds them by the checkpoint it left. *)
Lemma Fetches_earlier lo l1 table p rows l2 hi :
  Fetches lo (l1 ++ SelectEventsStatements table p (Return rows) :: l2) hi ->
  exists mid, Forall (started_within (checkpoint_param p) mid) rows
              /\ lo <= checkpoint_param p /\ Fetches mid l2 hi.
Proof.
  intros H. apply Fetches_split in H. destruct H as (m & Hl & Hr).
  apply Fetches_le in Hl.
  inversion Hr as [| ? ? ? ? mid ? ? Hp Hm Hf | ? ? ? ? Hc Hf]; subst; [|discriminate].
  exists mid. split; [|split; [lia | assumption]].
  destruct rows as [|x rows]; [constructor | exact Hm].
Qed.

Lemma steps_refl s : steps s s.
Proof. exists []. rewrite app_nil_r. split; [reflexivity | constructor]. Qed.

Lemma steps_trans a b c : steps a b -> steps b c -> steps a c.
Proof.
  intros (l1 & E1 & F1) (l2 & E2 & F2). exists (l1 ++ l2). split.
  - rewrite E2, E1, app_assoc. reflexivity.
  - eapply Fetches_app; eauto.
Qed.

Lemma steps_checkpoint a b : steps a b -> _checkpoint a <= _checkpoint b.
Proof. intros (l & _ & F). eapply Fetches_le; eauto. Qed.

(** A change of [self] that leaves the checkpoint and the cursor alone. *)
Lemma steps_frame s s' :
  _checkpoint s' = _checkpoint s -> cursor_log s' = cursor_log s -> steps s s'.
Proof.
  intros Hc Hl. exists []. rewrite app_nil_r, Hc. split; [assumption | constructor].
Qed.

Lemma steps_sent s call :
  is_fetch call = false -> steps s (set_cursor_log (cursor_log s ++ [call]) s).
Proof.
  intros Hc. exists [call]. split; [reflexivity|].
  apply Fetches_other; [assumption | constructor].
Qed.

Lemma obeys_ask : obeys steps ask.
Proof. intros w s. apply steps_frame; reflexivity. Qed.

Lemma obeys_sent call : is_fetch call = false -> obeys steps (sent call).
Proof. intros H w s. apply steps_sent, H. Qed.

Lemma obeys_frame (f : MySQLStatementSamples -> MySQLStatementSamples) :
  (forall s, _checkpoint (f s) = _checkpoint s) ->
  (forall s, cursor_log (f s) = cursor_log s) ->
  obeys steps (modify f).
Proof. intros Hc Hl w s. simpl. apply steps_frame; auto. Qed.

Lemma steps_bind {A B} (m : M A) (k : A -> M B) :
  obeys steps m -> (forall a, obeys steps (k a)) -> obeys steps (bind m k).
Proof. apply obeys_bind. exact steps_trans. Qed.

Lemma steps_try_except {A} (body : M A) (handler : exn -> M A) :
  obeys steps body -> (forall e, obeys steps (handler e)) ->
  obeys steps (try_except body handler).
Proof. apply obeys_try_except. exact steps_trans. Qed.

Lemma steps_for_each {A} (body : A -> M unit) (l : list A) :
  (forall a, obeys steps (body a)) -> obeys steps (for_each body l).
Proof. apply obeys_for_each; [exact steps_refl | exact steps_trans]. Qed.

Lemma steps_pure {A} (m : M A) :
  (forall w s, snd (m w s) = s) -> obeys steps m.
Proof. intros H w s. rewrite H. apply steps_refl. Qed.

Create HintDb steps.

(** Splitting a goal [obeys steps m] down to the methods already shown. *)
Ltac steps_tac :=
  repeat first
    [ solve [auto 1 with steps nocore]
    | apply obeys_ask
    | apply obeys_sent; reflexivity
    | apply obeys_frame; reflexivity
    | apply steps_bind; [ | intros ?]
    | apply steps_try_except; [ | intros ?]
    | apply steps_for_each; intros ?
    | apply steps_pure; reflexivity
    | match goal with
      | |- obeys _ (if ?b then _ else _) => destruct b
      | |- obeys _ (match ?x with _ => _ end) => destruct x
      end ].

Lemma obeys_time_monotonic : obeys steps time_monotonic.
Proof. unfold time_monotonic. steps_tac. Qed.

Lemma obeys_strategy_cache_get key : obeys steps (strategy_cache_get key).
Proof. unfold strategy_cache_get, time_monotonic. steps_tac. Qed.

Lemma obeys_strategy_cache_set key v : obeys steps (strategy_cache_set key v).
Proof. unfold strategy_cache_set, time_monotonic. steps_tac. Qed.

Lemma obeys_explained_statements_contains key :
  obeys steps (explained_statements_contains key).
Proof. unfold explained_statements_contains, time_monotonic. steps_tac. Qed.

Lemma obeys_explained_statements_set key : obeys steps (explained_statements_set key).
Proof. unfold explained_statements_set, time_monotonic. steps_tac. Qed.

Lemma obeys_seen_samples_contains key : obeys steps (seen_samples_contains key).
Proof. unfold seen_samples_contains, time_monotonic. steps_tac. Qed.

Lemma obeys_seen_samples_set key : obeys steps (seen_samples_set key).
Proof. unfold seen_samples_set, time_monotonic. steps_tac. Qed.

Lemma obeys_get_db_connection : obeys steps _get_db_connection.
Proof. unfold _get_db_connection. steps_tac. Qed.

#[local] Hint Resolve obeys_time_monotonic obeys_strategy_cache_get obeys_strategy_cache_set
  obeys_explained_statements_contains obeys_explained_statements_set
  obeys_seen_samples_contains obeys_seen_samples_set obeys_get_db_connection : steps.

(** Unfolding the plumbing of a method, and nothing else. *)
Ltac run :=
  cbv beta iota zeta delta
    [bind ret raise lift gets modify try_except ask world sent count_error yield
     time_monotonic].

(** The state after a fetch was sent and answered with [r]. *)
Definition after_fetch (table : string) (p : query_params) (r : result (list row))
  (self : MySQLStatementSamples) : MySQLStatementSamples :=
  set_cursor_log (cursor_log self ++ [SelectEventsStatements table p r])
    (set_answered (S (answered self)) self).

(** The state after the checkpoint moved to [newest] and the session flag
    was reset. *)
Definition after_advance (newest : Z) (notes : result unit)
  (self : MySQLStatementSamples) : MySQLStatementSamples :=
  set_cursor_log (cursor_log self ++ [SetSqlNotes notes])
    (set_answered (S (answered self)) (set_checkpoint newest self)).

(** A fetch, as a function of the two answers it consumes. *)
Lemma fetch_with_cursor_run table row_limit w self :
  fetch_with_cursor table row_limit w self =
  let p := fetch_params (_checkpoint self) row_limit in
  let r := result_map (EVENTS_STATEMENTS_QUERY p)
             (performance_schema (answers w (answered self)) table) in
  let self1 := after_fetch table p r self in
  match r with
  | Raise e => (Raise e, self1)
  | Return [] => (Return [], self1)
  | Return (x :: rows) =>
      match max_timer_start (x :: rows) with
      | Raise e => (Raise e, self1)
      | Return newest =>
          let notes := set_sql_notes (answers w (S (answered self))) in
          (result_map (fun _ => x :: rows) notes, after_advance newest notes self1)
      end
  end.
Proof.
  unfold fetch_with_cursor, execute_events_statements_query, execute_set_sql_notes.
  run. cbv zeta.
  destruct (result_map _ (performance_schema _ table)) as [[|x rows]|e]; try reflexivity.
  destruct (max_timer_start (x :: rows)) as [newest|e]; [|reflexivity].
  unfold after_advance, after_fetch. cbn [answered set_checkpoint set_cursor_log set_answered].
  destruct (set_sql_notes _) as [[]|e]; reflexivity.
Qed.

Lemma query_result_after p (answer : result (list events_statement)) rows :
  result_map (EVENTS_STATEMENTS_QUERY p) answer = Return rows ->
  Forall (started_after (checkpoint_param p)) rows.
Proof.
  destruct answer as [contents|e]; simpl; [|discriminate].
  intros [= <-]. apply query_rows_after.
Qed.

Lemma steps_fetch_with_cursor table row_limit : obeys steps (fetch_with_cursor table row_limit).
Proof.
  intros w self. rewrite fetch_with_cursor_run. cbv zeta.
  set (p := fetch_params (_checkpoint self) row_limit).
  destruct (result_map _ _) as [[|x rows]|e] eqn:Er.
  - exists [SelectEventsStatements table p (Return [])]. split; [reflexivity|].
    eapply Fetches_fetch; [reflexivity | reflexivity | constructor].
  - apply query_result_after in Er.
    destruct (max_timer_start_after (_checkpoint self) (x :: rows))
      as (m & Hm & Hlt & Hall & _); [congruence | exact Er |].
    rewrite Hm.
    exists [SelectEventsStatements table p (Return (x :: rows));
            SetSqlNotes (set_sql_notes (answers w (S (answered self))))].
    split.
    + simpl. rewrite <- app_assoc. reflexivity.
    + eapply Fetches_fetch; [reflexivity | exact Hall |].
      apply Fetches_other; [reflexivity | constructor].
  - exists [SelectEventsStatements table p (Raise e)]. split; [reflexivity|].
    eapply Fetches_fetch; [reflexivity | reflexivity | constructor].
Qed.

Lemma steps_get_new_events_statements table row_limit :
  obeys steps (_get_new_events_statements table row_limit).
Proof.
  unfold _get_new_events_statements.
  apply steps_bind; [apply obeys_get_db_connection | intros _].
  apply steps_fetch_with_cursor.
Qed.

#[local] Hint Resolve steps_fetch_with_cursor steps_get_new_events_statements : steps.

Lemma steps_explain_strategies strategy statement :
  obeys steps (_explain_strategies strategy statement).
Proof. unfold _explain_strategies. steps_tac. Qed.

Lemma steps_agent_obfuscate_sql text : obeys steps (agent_obfuscate_sql text).
Proof. unfold agent_obfuscate_sql. steps_tac. Qed.

Lemma steps_agent_obfuscate_sql_exec_plan plan normalize :
  obeys steps (agent_obfuscate_sql_exec_plan plan normalize).
Proof. unfold agent_obfuscate_sql_exec_plan. steps_tac. Qed.

Lemma steps_execute_use schema : obeys steps (execute_use schema).
Proof. unfold execute_use. steps_tac. Qed.

Lemma steps_on_database_error key tag e : obeys steps (on_database_error key tag e).
Proof. unfold on_database_error. steps_tac. Qed.

#[local] Hint Resolve steps_explain_strategies steps_agent_obfuscate_sql
  steps_agent_obfuscate_sql_exec_plan steps_execute_use steps_on_database_error : steps.

Lemma steps_try_strategy key statement strategy :
  obeys steps (try_strategy key statement strategy).
Proof. unfold try_strategy. steps_tac. Qed.

#[local] Hint Resolve steps_try_strategy : steps.

Lemma steps_try_strategies key statement strategies :
  obeys steps (try_strategies key statement strategies).
Proof. induction strategies as [|s rest IH]; simpl; steps_tac. Qed.

#[local] Hint Resolve steps_try_strategies : steps.

Lemma steps_explain_statement statement schema :
  obeys steps (_explain_statement statement schema).
Proof. unfold _explain_statement, switch_to_schema. steps_tac. Qed.

#[local] Hint Resolve steps_explain_statement : steps.

Lemma steps_explain_statement_safe statement schema :
  obeys steps (_explain_statement_safe statement schema).
Proof. unfold _explain_statement_safe. steps_tac. Qed.

Lemma steps_describe_plan plan : obeys steps (describe_plan plan).
Proof. unfold describe_plan. steps_tac. Qed.

#[local] Hint Resolve steps_explain_statement_safe steps_describe_plan : steps.

Lemma steps_emit_sample r qs hash statement plan :
  obeys steps (emit_sample r qs hash statement plan).
Proof. unfold emit_sample. steps_tac. Qed.

#[local] Hint Resolve steps_emit_sample : steps.

Lemma steps_collect_plan_for_row r : obeys steps (collect_plan_for_row r).
Proof. unfold collect_plan_for_row. steps_tac. Qed.

#[local] Hint Resolve steps_collect_plan_for_row : steps.

Lemma steps_collect_plans_for_statements rows :
  obeys steps (_collect_plans_for_statements rows).
Proof. unfold _collect_plans_for_statements, filter_epilogue. steps_tac. Qed.

Lemma steps_performance_schema_enable_consumer name :
  obeys steps (_performance_schema_enable_consumer name).
Proof.
  unfold _performance_schema_enable_consumer, execute_enable_consumer. steps_tac.
Qed.

#[local] Hint Resolve steps_collect_plans_for_statements
  steps_performance_schema_enable_consumer : steps.

Lemma steps_choose_table enabled tables : obeys steps (choose_table enabled tables).
Proof. induction tables as [|t rest IH]; simpl; steps_tac. Qed.

#[local] Hint Resolve steps_choose_table : steps.

Lemma steps_get_sample_collection_strategy : obeys steps _get_sample_collection_strategy.
Proof.
  unfold _get_sample_collection_strategy, _get_enabled_performance_schema_consumers,
    execute_select_consumers.
  steps_tac.
Qed.

#[local] Hint Resolve steps_get_sample_collection_strategy : steps.

Lemma steps_collect_statement_samples : obeys steps _collect_statement_samples.
Proof. unfold _collect_statement_samples. steps_tac. Qed.

Lemma steps_cycles n w self : steps self (cycles n w self).
Proof.
  revert self; induction n as [|n IH]; intros self; simpl.
  - apply steps_refl.
  - eapply steps_trans; [apply steps_collect_statement_samples | apply IH].
Qed.

(* ===================================================================== *)
(** * The expiring cache *)
(* ===================================================================== *)

Lemma Qltb_false a b : Qltb a b = false <-> (b <= a)%Q.
Proof. unfold Qltb. rewrite negb_false_iff. apply Qle_bool_iff. Qed.

Lemma fresh_iff {K V} (now : Q) (e : K * V * Q) :
  Cache.fresh now e = true <-> (now <= Cache.expires e)%Q.
Proof. unfold Cache.fresh. rewrite negb_true_iff. apply Qltb_false. Qed.

Lemma find_none_app {A} (f : A -> bool) l1 l2 :
  (forall x, In x l1 -> f x = false) -> find f (l1 ++ l2) = find f l2.
Proof.
  induction l1 as [|x l1 IH]; simpl; intros H; [reflexivity|].
  rewrite (H x) by auto. apply IH. auto.
Qed.

Lemma In_skipn {A} (x : A) n l : In x (skipn n l) -> In x l.
Proof.
  revert l; induction n as [|n IH]; intros [|y l]; simpl; auto.
Qed.

(** After a write, the key reads as the value written until the new
    entry's time-to-live has passed. *)
Lemma cache_get_after_set {K V} `{EqKey K} (c c' : Cache.t K V) key v now t :
  Cache.set c key v now = Return c' ->
  (t <= now + Cache.ttl c)%Q ->
  Cache.get c' key t = Some v.
Proof.
  unfold Cache.set. destruct (Cache.maxsize c <? 1); [discriminate|].
  intros [= <-] Ht. unfold Cache.get, Cache.expire. cbn [Cache.entries].
  rewrite filter_app. rewrite find_none_app.
  - simpl. replace (Cache.fresh t (key, v, (now + Cache.ttl c)%Q)) with true.
    + simpl. unfold Cache.is_key, Cache.entry_key. simpl.
      replace (key_eqb key key) with true; [reflexivity|].
      symmetry. apply key_eqb_eq. reflexivity.
    + symmetry. apply fresh_iff. exact Ht.
  - intros x Hx. apply filter_In in Hx. destruct Hx as [Hx _].
    destruct (existsb _ _) eqn:Ex.
    + unfold Cache.remove in Hx. apply filter_In in Hx. destruct Hx as [_ Hx].
      apply negb_true_iff in Hx. exact Hx.
    + unfold Cache.evict in Hx. apply In_skipn in Hx.
      destruct (Cache.is_key key x) eqn:Ek; [|reflexivity].
      assert (existsb (Cache.is_key key) (Cache.expire now (Cache.entries c)) = true).
      { apply existsb_exists. exists x. auto. }
      unfold Cache.expire in *. congruence.
Qed.

Lemma expire_all_fresh {K V} now (es : list (K * V * Q)) :
  (forall e, In e es -> (now <= Cache.expires e)%Q) -> Cache.expire now es = es.
Proof.
  intros H. unfold Cache.expire. induction es as [|e es IH]; simpl; [reflexivity|].
  replace (Cache.fresh now e) with true.
  - rewrite IH; [reflexivity|]. intros x Hx. apply H. right. exact Hx.
  - symmetry. apply fresh_iff. apply H. left. reflexivity.
Qed.

Lemma existsb_is_key_false {K V} `{EqKey K} (key : K) (es : list (K * V * Q)) :
  existsb (Cache.is_key key) es = false <-> ~ In key (map Cache.entry_key es).
Proof.
  induction es as [|e es IH]; simpl; [intuition|].
  rewrite orb_false_iff, IH. unfold Cache.is_key.
  split.
  - intros [Hne Hrest] [Heq|Hin]; [|contradiction].
    rewrite Heq in Hne. assert (key_eqb key key = true) by (apply key_eqb_eq; reflexivity).
    congruence.
  - intros Hnot. split; [|tauto].
    destruct (key_eqb (Cache.entry_key e) key) eqn:E; [|reflexivity].
    apply key_eqb_eq in E. tauto.
Qed.

Lemma NoDup_skipn {A} n (l : list A) : NoDup l -> NoDup (skipn n l).
Proof.
  revert l; induction n as [|n IH]; intros [|x l] Hnd; simpl; auto.
  inversion Hnd; auto.
Qed.


Lemma existsb_app_r {A} (f : A -> bool) l x : f x = true -> existsb f (l ++ [x]) = true.
Proof. intros H. rewrite existsb_app. simpl. rewrite H. apply orb_true_iff. right. reflexivity. Qed.

(** After a write, the key is in the cache until the new entry's
    time-to-live has passed. *)
Lemma cache_contains_after_set {K V} `{EqKey K} (c c' : Cache.t K V) key v now t :
  Cache.set c key v now = Return c' ->
  (t <= now + Cache.ttl c)%Q ->
  Cache.contains c' key t = true.
Proof.
  unfold Cache.set. destruct (Cache.maxsize c <? 1); [discriminate|].
  intros [= <-] Ht. unfold Cache.contains, Cache.expire. cbn [Cache.entries].
  rewrite filter_app. simpl.
  replace (Cache.fresh t (key, v, (now + Cache.ttl c)%Q)) with true
    by (symmetry; apply fresh_iff; exact Ht).
  apply existsb_app_r. unfold Cache.is_key, Cache.entry_key. simpl.
  apply key_eqb_eq. reflexivity.
Qed.


(* ===================================================================== *)
(** * The checkpoint *)
(* ===================================================================== *)

Lemma get_db_connection_run w self :
  _get_db_connection w self =
  if _db self then (Return tt, self)
  else
    let c := connect (answers w (answered self)) in
    let self1 := set_cursor_log (cursor_log self ++ [Connect c])
                   (set_answered (S (answered self)) self) in
    match c with
    | Return _ => (Return tt, set_db true self1)
    | Raise e => (Raise e, self1)
    end.
Proof.
  unfold _get_db_connection. run. destruct (_db self); [reflexivity|].
  cbv zeta. destruct (connect _) as [[]|e]; reflexivity.
Qed.

Lemma get_db_connection_checkpoint w self :
  _checkpoint (snd (_get_db_connection w self)) = _checkpoint self.
Proof.
  rewrite get_db_connection_run. destruct (_db self); [reflexivity|].
  cbv zeta. destruct (connect _); reflexivity.
Qed.

(** A fetch that returns rows leaves the checkpoint at the largest
    [timer_start] among them, above where it was. *)
Lemma fetch_advances table row_limit w self rows self' :
  _get_new_events_statements table row_limit w self = (Return rows, self') ->
  rows <> [] ->
  max_timer_start rows = Return (_checkpoint self')
  /\ _checkpoint self < _checkpoint self'
  /\ Forall (started_within (_checkpoint self) (_checkpoint self')) rows
  /\ (exists r, In r rows /\ lookup "timer_start" r = Some (PInt (_checkpoint self'))).
Proof.
  unfold _get_new_events_statements. unfold bind at 1.
  pose proof (get_db_connection_checkpoint w self) as Hc.
  destruct (_get_db_connection w self) as [[[]|e] self1]; [|discriminate].
  simpl in Hc. rewrite fetch_with_cursor_run. cbv zeta. rewrite Hc.
  destruct (result_map _ _) as [[|x xs]|e] eqn:Er; try discriminate.
  - intros [= <- <-]. congruence.
  - apply query_result_after in Er. simpl in Er.
    destruct (max_timer_start_after (_checkpoint self) (x :: xs))
      as (m & Hm & Hlt & Hall & Hex); [congruence | exact Er|].
    rewrite Hm. destruct (set_sql_notes _) as [[]|e]; [|discriminate].
    simpl. intros [= <- <-] _. simpl. auto.
Qed.

(** C5. The checkpoint starts at zero; no collection cycle, whether it
    fetched rows, fetched none or failed, and hence no run of cycles, moves
    it back; and a fetch that returns rows leaves it at the largest
    [timer_start] among them. *)
Theorem checkpoint_never_decreases :
  (forall config self, __init__ config = Return self -> _checkpoint self = 0)
  /\ (forall w self,
        _checkpoint self <= _checkpoint (snd (_collect_statement_samples w self)))
  /\ (forall n w self, _checkpoint self <= _checkpoint (cycles n w self))
  /\ (forall table row_limit w self rows self',
        _get_new_events_statements table row_limit w self = (Return rows, self') ->
        rows <> [] ->
        max_timer_start rows = Return (_checkpoint self')
        /\ Forall (started_within (_checkpoint self) (_checkpoint self')) rows
        /\ exists r, In r rows /\ lookup "timer_start" r = Some (PInt (_checkpoint self'))).
Proof.
  repeat split.
  - intros config self. unfold __init__.
    destruct (per_hour _); [|discriminate]. destruct (per_hour _); [|discriminate].
    intros [= <-]. reflexivity.
  - intros w self. apply steps_checkpoint, steps_collect_statement_samples.
  - intros n w self. apply steps_checkpoint, steps_cycles.
  - eapply fetch_advances; eauto.
  - eapply fetch_advances; eauto.
  - eapply fetch_advances; eauto.
Qed.

(** On the busy server: the instance starts at zero, three cycles leave the
    checkpoint at or above it, and the first probe moves it to 7. *)
Lemma checkpoint_never_decreases_witness :
  _checkpoint default_instance = 0
  /\ _checkpoint default_instance
     <= _checkpoint (cycles 3 (steady busy_server) default_instance)
  /\ max_timer_start
       (EVENTS_STATEMENTS_QUERY (fetch_params 0 1) (busy_tables "events_statements_current"))
     = Return 7.
Proof.
  destruct checkpoint_never_decreases as (Hinit & _ & Hrun & Hfetch).
  split; [apply (Hinit default_config); reflexivity|].
  split; [apply Hrun|].
  edestruct (Hfetch "events_statements_current" 1 (steady busy_server) default_instance)
    as (Hmax & _); [vm_compute; reflexivity | discriminate |].
  exact Hmax.
Defined.

(* ===================================================================== *)
(** * The sample filter *)
(* ===================================================================== *)

(** What the filter does guarantee of a row it yields: it is a row of the
    batch, with a non-empty SQL text that does not end in the marker. *)
Lemma filter_yields_complete_text rows num_sent num_truncated r :
  In r (yields (filter_rows_from rows num_sent num_truncated)) ->
  In r rows
  /\ exists s, lookup "sql_text" r = Some (PStr s) /\ s <> "" /\ last3 s <> "...".
Proof.
  revert num_sent num_truncated.
  induction rows as [|x rows IH]; intros num_sent num_truncated; simpl; [tauto|].
  destruct (_ || _).
  { intros H. apply IH in H. intuition. }
  unfold getitem. destruct (lookup "sql_text" x) as [v|] eqn:Ev; [|simpl; tauto].
  destruct (truthy v) eqn:Et; simpl.
  2:{ intros H. apply IH in H. intuition. }
  destruct v as [| | | |s]; simpl; try tauto.
  destruct (last3 s =? "...")%string eqn:El.
  { intros H. apply IH in H. intuition. }
  simpl. intros [<-|H].
  - split; [left; reflexivity|]. exists s. repeat split; [exact Ev | |].
    + intros ->. discriminate.
    + apply String.eqb_neq. exact El.
  - apply IH in H. intuition.
Qed.

(** A row whose [current_schema] is NULL, a statement run with no default
    schema, is forwarded too; the engine provides for it ([if schema:]),
    and an event with no instance is emitted. *)
Lemma row_without_schema_is_forwarded :
  lookup "current_schema" row_without_schema = Some PNone
  /\ yields (_filter_valid_statement_rows [row_without_schema]) = [row_without_schema]
  /\ map db_instance
       (submitted (snd (_collect_plans_for_statements [row_without_schema]
                          (steady busy_server) default_instance)))
     = [None].
Proof. vm_compute. repeat split. Qed.

(** C1. The filter forwards a row that holds a NULL in a field the event
    is built from: the test [all(row)] ranges over the column names, not
    the values. A row whose [timer_end_time_s] is NULL passes the filter
    and reaches plan collection, where it is explained and building its
    event raises [TypeError]: no event is yielded for it, and the row after
    it in the batch, which alone yields an event, is never handled. *)
Theorem filter_forwards_row_with_null_field :
  lookup "timer_end_time_s" running_row = Some PNone
  /\ yields (_filter_valid_statement_rows [running_row; row_after_probe])
     = [running_row; row_after_probe]
  /\ explain_attempts
       (cursor_log (snd (_collect_plans_for_statements [running_row; row_after_probe]
                           (steady busy_server) default_instance)))
     = [(PROCEDURE,
         Raise (DatabaseError [PInt 1305; PStr "PROCEDURE explain_statement does not exist"]));
        (FQ_PROCEDURE,
         Raise (DatabaseError [PInt 1305; PStr "PROCEDURE explain_statement does not exist"]));
        (STATEMENT, Return (Some "{}"))]
  /\ _collect_plans_for_statements [running_row; row_after_probe]
       (steady busy_server) default_instance
     = (Raise TypeError,
        snd (_collect_plans_for_statements [running_row] (steady busy_server)
               default_instance))
  /\ submitted (snd (_collect_plans_for_statements [running_row; row_after_probe]
                       (steady busy_server) default_instance)) = []
  /\ map db_statement
       (submitted (snd (_collect_plans_for_statements [row_after_probe]
                          (steady busy_server) default_instance)))
     = ["show tables"].
Proof. vm_compute. repeat split. Qed.

(* ===================================================================== *)
(** * The cost of a plan *)
(* ===================================================================== *)

Lemma json_loads_raises s e : json_loads s = Raise e -> e = JSONDecodeError.
Proof.
  unfold json_loads. destruct (value _ _) as [[v rest]|]; [|congruence].
  destruct (skip_ws rest); congruence.
Qed.

(** C4, as stated, fails: a payload that is not JSON, and a payload that is
    JSON but not an object, make the parse raise. *)
Lemma cost_of_malformed_plan_raises :
  _parse_execution_plan_cost "{" = Raise JSONDecodeError
  /\ _parse_execution_plan_cost "[]" = Raise AttributeError.
Proof. split; reflexivity. Qed.

(** C4, amended. The cost is [0.0] when the payload decodes to an object
    with no [query_block] / [cost_info] / [query_cost] path, each level that
    is present being an object; malformed JSON makes the parse raise the
    decoder's error. *)
Theorem cost_defaults_to_zero execution_plan :
  (forall members,
      json_loads execution_plan = Return (JObject members) ->
      no_nested_cost members = true ->
      _parse_execution_plan_cost execution_plan = Return zero)
  /\ (forall e,
        json_loads execution_plan = Raise e ->
        _parse_execution_plan_cost execution_plan = Raise JSONDecodeError).
Proof.
  split.
  - intros members Hload Hno. unfold _parse_execution_plan_cost.
    rewrite Hload. simpl. unfold no_nested_cost in Hno. unfold dict_get.
    destruct (lookup "query_block" members) as [[| | | | | |query_block]|];
      try discriminate; simpl; [|reflexivity].
    unfold dict_get.
    destruct (lookup "cost_info" query_block) as [[| | | | | |cost_info]|];
      try discriminate; simpl; [|reflexivity].
    unfold dict_get.
    destruct (lookup "query_cost" cost_info); [discriminate | reflexivity].
  - intros e Hload. unfold _parse_execution_plan_cost.
    rewrite Hload. rewrite (json_loads_raises _ _ Hload). reflexivity.
Qed.

Lemma cost_defaults_to_zero_witness :
  _parse_execution_plan_cost "{}" = Return zero
  /\ _parse_execution_plan_cost "{" = Raise JSONDecodeError.
Proof.
  split.
  - apply (proj1 (cost_defaults_to_zero "{}") []); reflexivity.
  - apply (proj2 (cost_defaults_to_zero "{") JSONDecodeError). reflexivity.
Defined.

(* ===================================================================== *)
(** * Failures of the obfuscator *)
(* ===================================================================== *)

(** A failure on the raw SQL text is caught: the row is skipped, the error
    counted, nothing sent or yielded, and the loop goes on. *)
Lemma raw_text_failure_skips_row r s e w self :
  lookup "sql_text" r = Some (PStr s) ->
  obfuscate_sql (answers w (answered self)) s = Raise e ->
  collect_plan_for_row r w self
  = (Return tt,
     set_counted (counted self ++ [SqlObfuscate]) (set_answered (S (answered self)) self)).
Proof.
  intros Hs He. unfold collect_plan_for_row, agent_obfuscate_sql, getitem.
  rewrite Hs. run. simpl. rewrite He. reflexivity.
Qed.

(** C6. A failure of the obfuscator on the digest text is outside the
    [try]: it ends the whole generator. Of a batch of two rows, the first
    with a digest the agent rejects, nothing is counted, the second row is
    never handled and no event is yielded, though the second row alone
    yields one. *)
Theorem digest_failure_ends_the_batch :
  let batch := [row_with_cut_digest; row_after_cut_digest] in
  let run := _collect_plans_for_statements batch (steady strict_server) default_instance in
  fst run = Raise (OtherError "obfuscate_sql")
  /\ counted (snd run) = []
  /\ submitted (snd run) = []
  /\ List.length
       (submitted (snd (_collect_plans_for_statements [row_after_cut_digest]
                          (steady strict_server) default_instance))) = 1%nat.
Proof. vm_compute. repeat split. Qed.

(* ===================================================================== *)
(** * The explain engine *)
(* ===================================================================== *)

(** ** The primitive steps, as functions of the answer they consume *)

Lemma strategy_cache_get_run key w self :
  strategy_cache_get key w self
  = (Return (Cache.get (_collection_strategy_cache self) key
               (monotonic (answers w (answered self)))),
     set_answered (S (answered self)) self).
Proof. reflexivity. Qed.

Lemma strategy_cache_set_run key v w self :
  strategy_cache_set key v w self
  = match Cache.set (_collection_strategy_cache self) key v
            (monotonic (answers w (answered self))) with
    | Return c' =>
        (Return tt, set_collection_strategy_cache c' (set_answered (S (answered self)) self))
    | Raise e => (Raise e, set_answered (S (answered self)) self)
    end.
Proof.
  unfold strategy_cache_set. run. simpl. destruct (Cache.set _ _ _ _); reflexivity.
Qed.

Lemma agent_obfuscate_sql_run text w self :
  agent_obfuscate_sql text w self
  = (obfuscate_sql (answers w (answered self)) text, set_answered (S (answered self)) self).
Proof. reflexivity. Qed.

Lemma execute_use_run schema w self :
  execute_use schema w self
  = (use_schema (answers w (answered self)) schema,
     set_cursor_log
       (cursor_log self ++ [UseSchema schema (use_schema (answers w (answered self)) schema)])
       (set_answered (S (answered self)) self)).
Proof. reflexivity. Qed.

Lemma explain_strategies_run strategy statement w self :
  _explain_strategies strategy statement w self
  = (explain (answers w (answered self)) strategy statement,
     set_cursor_log
       (cursor_log self
        ++ [Explain strategy statement
              (explain (answers w (answered self)) strategy statement)])
       (set_answered (S (answered self)) self)).
Proof. reflexivity. Qed.

Lemma count_error_run t w self :
  count_error t w self = (Return tt, set_counted (counted self ++ [t]) self).
Proof. reflexivity. Qed.

(** ** The cache keeps its bounds, and a cache with room accepts a write *)

Lemma cache_set_room {K V} `{EqKey K} (c : Cache.t K V) key v now :
  1 <= Cache.maxsize c ->
  exists c', Cache.set c key v now = Return c'
             /\ Cache.maxsize c' = Cache.maxsize c /\ Cache.ttl c' = Cache.ttl c.
Proof.
  intros Hroom. unfold Cache.set.
  destruct (Cache.maxsize c <? 1) eqn:E; [apply Z.ltb_lt in E; lia|].
  eexists. split; [reflexivity|]. split; reflexivity.
Qed.

Lemma explain_attempts_app l1 l2 :
  explain_attempts (l1 ++ l2) = explain_attempts l1 ++ explain_attempts l2.
Proof.
  induction l1 as [|c l1 IH]; simpl; [reflexivity|].
  destruct c; simpl; rewrite ?IH; reflexivity.
Qed.

Lemma cache_set_bounds {K V} `{EqKey K} (c c' : Cache.t K V) key v now :
  Cache.set c key v now = Return c' ->
  Cache.maxsize c' = Cache.maxsize c /\ Cache.ttl c' = Cache.ttl c.
Proof.
  unfold Cache.set. destruct (Cache.maxsize c <? 1); [discriminate|].
  intros [= <-]. split; reflexivity.
Qed.

(** The handler of a database error sends nothing and keeps the cache's
    bounds. *)
Lemma on_database_error_frame key tag e w self :
  cursor_log (snd (on_database_error key tag e w self)) = cursor_log self
  /\ Cache.maxsize (_collection_strategy_cache (snd (on_database_error key tag e w self)))
     = Cache.maxsize (_collection_strategy_cache self).
Proof.
  unfold on_database_error.
  destruct e as [args| | | | | |]; try (split; reflexivity).
  destruct (negb _); [split; reflexivity|].
  unfold bind. destruct (non_retryable args).
  - rewrite strategy_cache_set_run.
    destruct (Cache.set _ _ _ _) as [c'|e'] eqn:Es; [|split; reflexivity].
    apply cache_set_bounds in Es. destruct Es as [Hm _].
    rewrite count_error_run. simpl. split; [reflexivity | exact Hm].
  - unfold ret. rewrite count_error_run. split; reflexivity.
Qed.

(** ** One attempt, then the loop *)

(** An attempt adds itself to the log; with a plan for answer it returns
    the plan, and otherwise it returns [None] or lets an exception escape. *)
Lemma try_strategy_cases key statement s w self r self' :
  1 <= Cache.maxsize (_collection_strategy_cache self) ->
  try_strategy key statement s w self = (r, self') ->
  let a := explain (answers w (answered self)) s statement in
  explain_attempts (cursor_log self') = explain_attempts (cursor_log self) ++ [(s, a)]
  /\ Cache.maxsize (_collection_strategy_cache self')
     = Cache.maxsize (_collection_strategy_cache self)
  /\ (if returned_plan a then exists p, a = Return (Some p) /\ r = Return (Some p)
      else r = Return None \/ exists e, r = Raise e).
Proof.
  intros Hroom. unfold try_strategy, try_except, bind.
  rewrite explain_strategies_run.
  set (a := explain (answers w (answered self)) s statement).
  set (self1 := set_cursor_log _ _).
  assert (Hlog : explain_attempts (cursor_log self1)
                 = explain_attempts (cursor_log self) ++ [(s, a)]).
  { unfold self1. simpl. rewrite explain_attempts_app. reflexivity. }
  assert (Hmax : Cache.maxsize (_collection_strategy_cache self1)
                 = Cache.maxsize (_collection_strategy_cache self)) by reflexivity.
  clearbody self1.
  destruct a as [p|e] eqn:Ea; simpl returned_plan.
  - destruct (plan_truthy p) eqn:Ep.
    + rewrite strategy_cache_set_run.
      destruct (cache_set_room (_collection_strategy_cache self1) key (ExplainStrategy s)
                  (monotonic (answers w (answered self1)))) as (c' & -> & Hm & _); [lia|].
      unfold ret. intros [= <- <-]. simpl. rewrite Hlog. repeat split; try assumption.
      * rewrite Hm. exact Hmax.
      * destruct p as [p|]; [|discriminate]. exists p. auto.
    + unfold ret. intros [= <- <-]. auto.
  - pose proof (on_database_error_frame key (ExplainAttempt s) e w self1) as [Hl Hm].
    destruct (on_database_error key (ExplainAttempt s) e w self1) as [[[]|e'] self2];
      simpl in Hl, Hm; unfold ret; intros [= <- <-];
      rewrite Hl, Hm; repeat split; eauto.
Qed.

Lemma try_strategies_tried key statement strategies w self r self' :
  1 <= Cache.maxsize (_collection_strategy_cache self) ->
  try_strategies key statement strategies w self = (r, self') ->
  exists attempts,
    explain_attempts (cursor_log self') = explain_attempts (cursor_log self) ++ attempts
    /\ Tried strategies attempts r.
Proof.
  revert self. induction strategies as [|s rest IH]; intros self Hroom.
  - simpl. unfold ret. intros [= <- <-]. exists []. rewrite app_nil_r.
    split; [reflexivity | constructor].
  - cbn [try_strategies]. unfold bind.
    destruct (try_strategy key statement s w self) as [found self1] eqn:Estep.
    apply try_strategy_cases in Estep; [|assumption].
    destruct Estep as (Hlog & Hmax & Hcase).
    set (a := explain (answers w (answered self)) s statement) in *.
    destruct (returned_plan a) eqn:Ea.
    + destruct Hcase as (p & Hp & ->). unfold ret. intros [= <- <-].
      exists [(s, a)]. split; [exact Hlog|].
      rewrite Hp. apply Tried_plan. rewrite Hp in Ea. exact Ea.
    + destruct Hcase as [-> | (e & ->)].
      * intros Hrest. apply IH in Hrest; [|lia].
        destruct Hrest as (attempts & Hlog' & Htried).
        exists ((s, a) :: attempts). split.
        -- rewrite Hlog', Hlog, <- app_assoc. reflexivity.
        -- apply Tried_next; assumption.
      * intros [= <- <-]. exists [(s, a)]. split; [exact Hlog|].
        apply Tried_raised. exact Ea.
Qed.

(** ** The order of the attempts *)

Lemma ordered_strategies_in_order hit :
  ordered_strategies [PROCEDURE; FQ_PROCEDURE; STATEMENT] (option_map ExplainStrategy hit)
  = Return (strategies_in_order hit).
Proof. destruct hit as [[]|]; reflexivity. Qed.

(** A context switch the server accepts: only the log and the count of
    answers change, and no explain attempt is added. *)
Lemma switch_to_schema_accepted schema w self :
  (forall n s, use_schema (answers w n) s = Return tt) ->
  exists self1,
    switch_to_schema schema w self = (Return tt, self1)
    /\ explain_attempts (cursor_log self1) = explain_attempts (cursor_log self)
    /\ _collection_strategy_cache self1 = _collection_strategy_cache self
    /\ _preferred_explain_strategies self1 = _preferred_explain_strategies self.
Proof.
  intros Huse. unfold switch_to_schema.
  destruct schema as [s|]; [destruct (s =? "")%string|];
    try (exists self; repeat split; reflexivity).
  rewrite execute_use_run, Huse. eexists. split; [reflexivity|].
  simpl. rewrite explain_attempts_app. simpl. rewrite app_nil_r. repeat split.
Qed.

(** C2, as stated, fails: with every mechanism able to return a plan and
    nothing cached, the first and only attempt is the stored procedure, not
    the direct EXPLAIN. *)
Lemma stored_procedure_is_tried_first :
  let every_mechanism (s : explain_strategy) (_ : string) :=
    Return (Some match s with
                 | PROCEDURE => "{procedure}"
                 | FQ_PROCEDURE => "{fq_procedure}"
                 | STATEMENT => "{statement}"
                 end) in
  let w := steady (server 0 [] busy_tables (fun _ => Return tt) every_mechanism
                     (fun s => Return s)) in
  let run := _explain_statement "select 1" None w default_instance in
  fst run = Return (Some "{procedure}")
  /\ explain_attempts (cursor_log (snd run)) = [(PROCEDURE, Return (Some "{procedure}"))].
Proof. vm_compute. split; reflexivity. Qed.

(** C2, amended. For a statement that can be explained, on a schema the
    server switches to, the mechanisms are attempted in the order: the
    cached working strategy if there is one, then the stored procedure, the
    fully qualified stored procedure and the direct EXPLAIN (less the cached
    one); an attempt without a plan is followed by the next mechanism, and
    the first plan ends the attempts and is returned. *)
Theorem explain_in_preference_order w self statement schema hit r self' :
  _can_explain statement = true ->
  _preferred_explain_strategies self = [PROCEDURE; FQ_PROCEDURE; STATEMENT] ->
  1 <= Cache.maxsize (_collection_strategy_cache self) ->
  (forall n, Cache.get (_collection_strategy_cache self) (strategy_cache_key schema)
               (monotonic (answers w n)) = option_map ExplainStrategy hit) ->
  (forall n, exists o, obfuscate_sql (answers w n) statement = Return o) ->
  (forall n s, use_schema (answers w n) s = Return tt) ->
  _explain_statement statement schema w self = (r, self') ->
  exists attempts,
    explain_attempts (cursor_log self') = explain_attempts (cursor_log self) ++ attempts
    /\ Tried (strategies_in_order hit) attempts r.
Proof.
  intros Hcan Hpref Hroom Hhit Hobf Huse.
  unfold _explain_statement. unfold bind at 1. rewrite agent_obfuscate_sql_run.
  destruct (Hobf (answered self)) as (o & ->).
  rewrite Hcan. cbn [negb].
  unfold bind at 1. rewrite strategy_cache_get_run.
  cbn [_collection_strategy_cache set_answered answered].
  rewrite Hhit.
  replace (is_explain_error (option_map ExplainStrategy hit)) with false
    by (destruct hit; reflexivity).
  set (self0 := set_answered _ _).
  unfold bind at 1. unfold try_except. unfold bind at 1.
  destruct (switch_to_schema_accepted schema w self0 Huse) as (self1 & -> & Hlog & Hcache & Hp).
  unfold ret at 1. cbn [negb].
  unfold bind at 1. unfold gets at 1.
  unfold bind at 1. rewrite strategy_cache_get_run. rewrite Hcache.
  cbn [_collection_strategy_cache set_answered answered]. rewrite Hhit.
  unfold bind at 1. unfold lift at 1. rewrite Hp. unfold self0 at 1.
  cbn [_preferred_explain_strategies set_answered].
  rewrite Hpref, ordered_strategies_in_order.
  intros Hrun. apply try_strategies_tried in Hrun.
  - destruct Hrun as (attempts & Hlog' & Htried). exists attempts. split; [|exact Htried].
    rewrite Hlog'. simpl. rewrite Hlog. reflexivity.
  - simpl. rewrite Hcache. exact Hroom.
Qed.

Lemma room_in_default_cache :
  1 <= Cache.maxsize (_collection_strategy_cache default_instance).
Proof. discriminate. Qed.

(** On the busy server, with nothing cached: the two stored procedures are
    tried and fail, then the direct EXPLAIN returns the plan. *)
Lemma explain_in_preference_order_witness :
  let run := _explain_statement "select 2" (Some "shop") (steady busy_server)
               default_instance in
  exists attempts,
    explain_attempts (cursor_log (snd run))
    = explain_attempts (cursor_log default_instance) ++ attempts
    /\ Tried (strategies_in_order None) attempts (fst run).
Proof.
  cbv zeta.
  apply (explain_in_preference_order (steady busy_server) default_instance
           "select 2" (Some "shop") None).
  - reflexivity.
  - reflexivity.
  - exact room_in_default_cache.
  - intros n. reflexivity.
  - intros n. eexists. reflexivity.
  - intros n s. reflexivity.
  - apply surjective_pairing.
Defined.

(* ===================================================================== *)
(** * The permanently-failing mark *)
(* ===================================================================== *)

(** While the sentinel is what the cache returns for the schema, a call
    sends nothing: no context switch and no mechanism. *)
Lemma sentinel_blocks statement schema w self r self' :
  (forall n, Cache.get (_collection_strategy_cache self) (strategy_cache_key schema)
               (monotonic (answers w n)) = Some ExplainError) ->
  _explain_statement statement schema w self = (r, self') ->
  cursor_log self' = cursor_log self /\ (r = Return None \/ exists e, r = Raise e).
Proof.
  intros Hhit. unfold _explain_statement. unfold bind at 1.
  rewrite agent_obfuscate_sql_run.
  destruct (obfuscate_sql _ statement) as [o|e]; [|intros [= <- <-]; simpl; eauto].
  destruct (negb (_can_explain statement)); [intros [= <- <-]; simpl; auto|].
  unfold bind at 1. rewrite strategy_cache_get_run.
  cbn [_collection_strategy_cache set_answered answered]. rewrite Hhit.
  intros [= <- <-]. simpl. auto.
Qed.

(** The handler on a non-retryable error: the sentinel is written at the
    clock's reading, the error counted, nothing sent. *)
Lemma on_non_retryable_error key tag args w self :
  List.length args = 2%nat -> non_retryable args = true ->
  1 <= Cache.maxsize (_collection_strategy_cache self) ->
  exists c',
    Cache.set (_collection_strategy_cache self) key ExplainError
      (monotonic (answers w (answered self))) = Return c'
    /\ on_database_error key tag (DatabaseError args) w self
       = (Return tt,
          set_counted (counted self ++ [tag (DatabaseError args)])
            (set_collection_strategy_cache c' (set_answered (S (answered self)) self))).
Proof.
  intros Hlen Hnon Hroom. unfold on_database_error. rewrite Hlen, Hnon. cbn [Nat.eqb negb].
  unfold bind. rewrite strategy_cache_set_run.
  destruct (cache_set_room (_collection_strategy_cache self) key ExplainError
              (monotonic (answers w (answered self))) Hroom) as (c' & Hset & _).
  rewrite Hset. exists c'. split; reflexivity.
Qed.

Lemma marked_after_set w key (self self' : MySQLStatementSamples) n c' :
  Cache.set (_collection_strategy_cache self) key ExplainError
    (monotonic (answers w n)) = Return c' ->
  _collection_strategy_cache self' = c' ->
  marked_failing w key self'.
Proof.
  intros Hset Hc. exists n. intros t Ht. rewrite Hc.
  destruct (cache_set_bounds _ _ _ _ _ Hset) as [_ Httl].
  eapply cache_get_after_set; [exact Hset|]. rewrite <- Httl, <- Hc. exact Ht.
Qed.

(** A non-retryable error at the context switch: the call returns [None]
    with the sentinel written and no mechanism attempted. *)
Lemma switch_failure_marks statement s w self r self' :
  _can_explain statement = true ->
  s <> "" ->
  1 <= Cache.maxsize (_collection_strategy_cache self) ->
  (forall n, is_explain_error
               (Cache.get (_collection_strategy_cache self) (strategy_cache_key (Some s))
                  (monotonic (answers w n))) = false) ->
  (forall n, exists o, obfuscate_sql (answers w n) statement = Return o) ->
  (forall n, non_retryable_error (use_schema (answers w n) s)) ->
  _explain_statement statement (Some s) w self = (r, self') ->
  r = Return None
  /\ explain_attempts (cursor_log self') = explain_attempts (cursor_log self)
  /\ marked_failing w (strategy_cache_key (Some s)) self'.
Proof.
  intros Hcan Hs Hroom Hhit Hobf Huse.
  unfold _explain_statement. unfold bind at 1. rewrite agent_obfuscate_sql_run.
  destruct (Hobf (answered self)) as (o & ->).
  rewrite Hcan. cbn [negb].
  unfold bind at 1. rewrite strategy_cache_get_run.
  cbn [_collection_strategy_cache set_answered answered]. rewrite Hhit.
  set (self0 := set_answered _ _).
  unfold bind at 1. unfold try_except. unfold bind at 1.
  unfold switch_to_schema. apply String.eqb_neq in Hs. rewrite Hs.
  rewrite execute_use_run.
  destruct (Huse (answered self0)) as (args & -> & Hlen & Hnon).
  set (self1 := set_cursor_log _ _).
  unfold bind at 1.
  destruct (on_non_retryable_error (strategy_cache_key (Some s)) ExplainUseSchema args w self1
              Hlen Hnon) as (c' & Hset & ->); [exact Hroom|].
  unfold ret. cbn [negb]. intros [= <- <-]. split; [reflexivity|]. split.
  - simpl. rewrite explain_attempts_app. simpl. rewrite app_nil_r. reflexivity.
  - eapply marked_after_set; [exact Hset | reflexivity].
Qed.

Lemma marked_same_cache w key (self self' : MySQLStatementSamples) :
  _collection_strategy_cache self' = _collection_strategy_cache self ->
  marked_failing w key self -> marked_failing w key self'.
Proof. intros Hc (n & Hn). exists n. rewrite Hc. exact Hn. Qed.

(** An attempt that gives no plan and lets nothing escape keeps the mark,
    and sets it when its answer is a non-retryable error. *)
Lemma try_strategy_marks key statement s w self self' :
  1 <= Cache.maxsize (_collection_strategy_cache self) ->
  try_strategy key statement s w self = (Return None, self') ->
  (marked_failing w key self -> marked_failing w key self')
  /\ (non_retryable_error (explain (answers w (answered self)) s statement) ->
      marked_failing w key self').
Proof.
  intros Hroom. unfold try_strategy, try_except, bind.
  rewrite explain_strategies_run.
  set (a := explain (answers w (answered self)) s statement).
  set (self1 := set_cursor_log _ _).
  assert (Hc1 : _collection_strategy_cache self1 = _collection_strategy_cache self)
    by reflexivity.
  clearbody self1.
  destruct a as [p|e].
  - destruct (plan_truthy p) eqn:Ep.
    + rewrite strategy_cache_set_run.
      destruct (cache_set_room (_collection_strategy_cache self1) key (ExplainStrategy s)
                  (monotonic (answers w (answered self1)))) as (c' & -> & _);
        [rewrite Hc1; exact Hroom|].
      cbn beta iota. unfold ret. intros Habs.
      destruct p; [discriminate Habs | simpl in Ep; discriminate Ep].
    + unfold ret. intros [= <-]. split.
      * apply marked_same_cache. exact Hc1.
      * intros (args & Habs & _). discriminate.
  - unfold on_database_error.
    destruct e as [args| | | | | |]; try discriminate.
    destruct (Nat.eqb (List.length args) 2) eqn:Elen; cbn [negb]; [|discriminate].
    apply Nat.eqb_eq in Elen.
    destruct (non_retryable args) eqn:Enon.
    + unfold bind.
      destruct (on_non_retryable_error key (ExplainAttempt s) args w self1 Elen Enon)
        as (c' & Hset & Hrun); [rewrite Hc1; exact Hroom|].
      unfold on_database_error in Hrun. rewrite Elen, Enon in Hrun.
      cbn [Nat.eqb negb] in Hrun. unfold bind in Hrun.
      destruct (strategy_cache_set key ExplainError w self1) as [[[]|e] self2];
        [|discriminate].
      rewrite Hrun. unfold ret. intros [= <-].
      assert (marked_failing w key
                (set_counted (counted self1 ++ [ExplainAttempt s (DatabaseError args)])
                   (set_collection_strategy_cache c'
                      (set_answered (S (answered self1)) self1)))).
      { eapply marked_after_set; [exact Hset | reflexivity]. }
      split; auto.
    + unfold bind, ret. rewrite count_error_run. intros [= <-]. split.
      * apply marked_same_cache. exact Hc1.
      * intros (args' & [= <-] & _ & Habs). congruence.
Qed.

Lemma try_strategies_marks key statement strategies w self self' :
  1 <= Cache.maxsize (_collection_strategy_cache self) ->
  try_strategies key statement strategies w self = (Return None, self') ->
  exists attempts,
    explain_attempts (cursor_log self') = explain_attempts (cursor_log self) ++ attempts
    /\ (marked_failing w key self
        \/ Exists (fun a : attempt => non_retryable_error (snd a)) attempts ->
        marked_failing w key self').
Proof.
  revert self. induction strategies as [|s rest IH]; intros self Hroom.
  - simpl. unfold ret. intros [= <-]. exists []. rewrite app_nil_r.
    split; [reflexivity|]. intros [H|H]; [exact H | inversion H].
  - cbn [try_strategies]. unfold bind.
    destruct (try_strategy key statement s w self) as [found self1] eqn:Estep.
    pose proof (try_strategy_cases _ _ _ _ _ _ _ Hroom Estep) as (Hlog & Hmax & _).
    destruct found as [[plan|]|e]; unfold ret; try discriminate.
    intros Hrest. apply IH in Hrest; [|lia].
    destruct Hrest as (attempts & Hlog' & Hmark).
    destruct (try_strategy_marks _ _ _ _ _ _ Hroom Estep) as [Hkeep Hset].
    exists ((s, explain (answers w (answered self)) s statement) :: attempts). split.
    + rewrite Hlog', Hlog, <- app_assoc. reflexivity.
    + intros [H|H]; apply Hmark.
      * left. auto.
      * inversion H; subst; [left; apply Hset; assumption | right; assumption].
Qed.

Lemma skipn_app_exact {A} (l1 l2 : list A) : skipn (List.length l1) (l1 ++ l2) = l2.
Proof. induction l1; simpl; auto. Qed.

(** When every mechanism is tried without a plan, a non-retryable error
    among the attempts leaves the schema marked. *)
Lemma mechanism_failure_marks w self statement schema hit self' :
  _can_explain statement = true ->
  _preferred_explain_strategies self = [PROCEDURE; FQ_PROCEDURE; STATEMENT] ->
  1 <= Cache.maxsize (_collection_strategy_cache self) ->
  (forall n, Cache.get (_collection_strategy_cache self) (strategy_cache_key schema)
               (monotonic (answers w n)) = option_map ExplainStrategy hit) ->
  (forall n, exists o, obfuscate_sql (answers w n) statement = Return o) ->
  (forall n s, use_schema (answers w n) s = Return tt) ->
  _explain_statement statement schema w self = (Return None, self') ->
  Exists (fun a : attempt => non_retryable_error (snd a))
    (skipn (List.length (explain_attempts (cursor_log self)))
       (explain_attempts (cursor_log self'))) ->
  marked_failing w (strategy_cache_key schema) self'.
Proof.
  intros Hcan Hpref Hroom Hhit Hobf Huse.
  unfold _explain_statement. unfold bind at 1. rewrite agent_obfuscate_sql_run.
  destruct (Hobf (answered self)) as (o & ->).
  rewrite Hcan. cbn [negb].
  unfold bind at 1. rewrite strategy_cache_get_run.
  cbn [_collection_strategy_cache set_answered answered].
  rewrite Hhit.
  replace (is_explain_error (option_map ExplainStrategy hit)) with false
    by (destruct hit; reflexivity).
  set (self0 := set_answered _ _).
  unfold bind at 1. unfold try_except. unfold bind at 1.
  destruct (switch_to_schema_accepted schema w self0 Huse) as (self1 & -> & Hlog & Hcache & Hp).
  unfold ret at 1. cbn [negb].
  unfold bind at 1. unfold gets at 1.
  unfold bind at 1. rewrite strategy_cache_get_run. rewrite Hcache.
  cbn [_collection_strategy_cache set_answered answered]. rewrite Hhit.
  unfold bind at 1. unfold lift at 1. rewrite Hp. unfold self0 at 1.
  cbn [_preferred_explain_strategies set_answered].
  rewrite Hpref, ordered_strategies_in_order.
  intros Hrun. apply try_strategies_marks in Hrun.
  - destruct Hrun as (attempts & Hlog' & Hmark).
    rewrite Hlog'. simpl cursor_log. rewrite Hlog. unfold self0. simpl cursor_log.
    rewrite skipn_app_exact. intros Hex. apply Hmark. right. exact Hex.
  - simpl. rewrite Hcache. exact Hroom.
Qed.

(** C3, as stated, fails: the stored procedure answers with the
    non-retryable error 1305, and the same call still attempts the two
    other mechanisms; the direct EXPLAIN returns a plan, its name replaces
    the sentinel, and the next statement of the schema is explained too. *)
Lemma mechanisms_tried_after_non_retryable_error :
  let w := steady busy_server in
  let missing :=
    Raise (DatabaseError [PInt 1305; PStr "PROCEDURE explain_statement does not exist"]) in
  let first := _explain_statement "select 2" (Some "shop") w default_instance in
  let second := _explain_statement "select 3" (Some "shop") w (snd first) in
  explain_attempts (cursor_log (snd first))
  = [(PROCEDURE, missing); (FQ_PROCEDURE, missing); (STATEMENT, Return (Some "{}"))]
  /\ explain_attempts (cursor_log (snd second))
     = [(PROCEDURE, missing); (FQ_PROCEDURE, missing); (STATEMENT, Return (Some "{}"));
        (STATEMENT, Return (Some "{}"))].
Proof. vm_compute. split; reflexivity. Qed.

(** C3, amended. For a fixed schema: while the sentinel is the schema's
    live cache entry, a call sends nothing to the database, neither the
    context switch nor a mechanism; a non-retryable error at the context
    switch writes the sentinel and ends the call with no mechanism
    attempted; a non-retryable error of a mechanism leaves the sentinel
    written when the call ends with every mechanism tried and no plan (the
    other mechanisms of that call are still attempted). *)
Theorem non_retryable_error_marks_schema :
  (forall statement schema w self r self',
      (forall n, Cache.get (_collection_strategy_cache self) (strategy_cache_key schema)
                   (monotonic (answers w n)) = Some ExplainError) ->
      _explain_statement statement schema w self = (r, self') ->
      cursor_log self' = cursor_log self /\ (r = Return None \/ exists e, r = Raise e))
  /\ (forall statement s w self r self',
        _can_explain statement = true ->
        s <> "" ->
        1 <= Cache.maxsize (_collection_strategy_cache self) ->
        (forall n, is_explain_error
                     (Cache.get (_collection_strategy_cache self)
                        (strategy_cache_key (Some s))
                        (monotonic (answers w n))) = false) ->
        (forall n, exists o, obfuscate_sql (answers w n) statement = Return o) ->
        (forall n, non_retryable_error (use_schema (answers w n) s)) ->
        _explain_statement statement (Some s) w self = (r, self') ->
        r = Return None
        /\ explain_attempts (cursor_log self') = explain_attempts (cursor_log self)
        /\ marked_failing w (strategy_cache_key (Some s)) self')
  /\ (forall w self statement schema hit self',
        _can_explain statement = true ->
        _preferred_explain_strategies self = [PROCEDURE; FQ_PROCEDURE; STATEMENT] ->
        1 <= Cache.maxsize (_collection_strategy_cache self) ->
        (forall n, Cache.get (_collection_strategy_cache self) (strategy_cache_key schema)
                     (monotonic (answers w n)) = option_map ExplainStrategy hit) ->
        (forall n, exists o, obfuscate_sql (answers w n) statement = Return o) ->
        (forall n s, use_schema (answers w n) s = Return tt) ->
        _explain_statement statement schema w self = (Return None, self') ->
        Exists (fun a : attempt => non_retryable_error (snd a))
          (skipn (List.length (explain_attempts (cursor_log self)))
             (explain_attempts (cursor_log self'))) ->
        marked_failing w (strategy_cache_key schema) self').
Proof.
  split; [|split].
  - intros. eapply sentinel_blocks; eauto.
  - intros. eapply switch_failure_marks; eauto.
  - intros. eapply mechanism_failure_marks; eauto.
Qed.

(** On the forbidden server a statement of schema [shop] marks the schema,
    and the next one sends nothing; on the server with no plan, the call
    that tried every mechanism leaves the schema marked. *)
Lemma non_retryable_error_marks_schema_witness :
  (let second := _explain_statement "select 3" (Some "shop") (steady forbidden_server)
                   instance_denied_shop in
   cursor_log (snd second) = cursor_log instance_denied_shop
   /\ (fst second = Return None \/ exists e, fst second = Raise e))
  /\ (fst (_explain_statement "select 2" (Some "shop") (steady forbidden_server)
             default_instance) = Return None
      /\ explain_attempts (cursor_log instance_denied_shop)
         = explain_attempts (cursor_log default_instance)
      /\ marked_failing (steady forbidden_server) (strategy_cache_key (Some "shop"))
           instance_denied_shop)
  /\ marked_failing (steady no_plan_server) (strategy_cache_key (Some "shop"))
       (snd (_explain_statement "select 2" (Some "shop") (steady no_plan_server)
               default_instance)).
Proof.
  destruct non_retryable_error_marks_schema as (Hblock & Hswitch & Hmech).
  split; [|split].
  - apply (Hblock "select 3" (Some "shop") (steady forbidden_server) instance_denied_shop).
    + intros n. vm_compute. reflexivity.
    + apply surjective_pairing.
  - apply (Hswitch "select 2" "shop" (steady forbidden_server) default_instance).
    + reflexivity.
    + discriminate.
    + exact room_in_default_cache.
    + intros n. reflexivity.
    + intros n. eexists. reflexivity.
    + intros n. eexists. split; [reflexivity|]. split; reflexivity.
    + apply surjective_pairing.
  - apply (Hmech (steady no_plan_server) default_instance "select 2" (Some "shop") None).
    + reflexivity.
    + reflexivity.
    + exact room_in_default_cache.
    + intros n. reflexivity.
    + intros n. eexists. reflexivity.
    + intros n s. reflexivity.
    + vm_compute. reflexivity.
    + vm_compute. apply Exists_cons_hd. eexists. split; [reflexivity|]. split; reflexivity.
Defined.

(* ===================================================================== *)
(** * Strategy selection *)
(* ===================================================================== *)

(** On a server that answers the same throughout and raises nothing, the
    steps of the selection are functions of its answers. *)
Lemma enable_consumer_static name w env enabled self :
  (forall n, answers w n = env) ->
  selection_answers env enabled ->
  _db self = true ->
  exists self1,
    _performance_schema_enable_consumer name w self
    = (Return match update_setup_consumers env name with
              | Return _ => true
              | Raise _ => false
              end, self1)
    /\ _db self1 = true /\ _checkpoint self1 = _checkpoint self
    /\ _auto_enable_events_statements_consumers self1
       = _auto_enable_events_statements_consumers self
    /\ _collection_strategy_cache self1 = _collection_strategy_cache self.
Proof.
  intros Hw (_ & _ & _ & _ & Hupd) Hdb.
  unfold _performance_schema_enable_consumer, execute_enable_consumer, try_except.
  unfold bind at 1. rewrite get_db_connection_run, Hdb.
  run. rewrite Hw.
  destruct (Hupd name) as [-> | (a & args & ->)]; eexists; (split; [reflexivity|]);
    repeat split; assumption.
Qed.

Lemma probe_static table w env enabled self :
  (forall n, answers w n = env) ->
  selection_answers env enabled ->
  _db self = true ->
  exists self1 contents,
    performance_schema env table = Return contents
    /\ _get_new_events_statements table 1 w self
       = (Return (EVENTS_STATEMENTS_QUERY (fetch_params (_checkpoint self) 1) contents), self1)
    /\ _db self1 = true
    /\ _auto_enable_events_statements_consumers self1
       = _auto_enable_events_statements_consumers self
    /\ _collection_strategy_cache self1 = _collection_strategy_cache self
    /\ (EVENTS_STATEMENTS_QUERY (fetch_params (_checkpoint self) 1) contents = [] ->
        _checkpoint self1 = _checkpoint self).
Proof.
  intros Hw (_ & _ & Hnotes & Htab & _) Hdb.
  destruct (Htab table) as (contents & Hc).
  unfold _get_new_events_statements. unfold bind.
  rewrite get_db_connection_run, Hdb, fetch_with_cursor_run. cbv zeta.
  rewrite !Hw, Hc, Hnotes. cbn [result_map].
  pose proof (query_rows_after (fetch_params (_checkpoint self) 1) contents) as Hafter.
  destruct (EVENTS_STATEMENTS_QUERY _ contents) as [|x rows] eqn:Eq.
  - eexists _, contents. split; [reflexivity|]. rewrite ?Eq. split; [reflexivity|].
    repeat split; assumption.
  - destruct (max_timer_start_after (_checkpoint self) (x :: rows))
      as (m & Hm & _); [congruence | exact Hafter |].
    rewrite Hm. eexists _, contents. split; [reflexivity|]. rewrite ?Eq.
    split; [reflexivity|]. repeat split; try assumption. discriminate.
Qed.

Lemma choose_table_static enabled tables w env self :
  (forall n, answers w n = env) ->
  selection_answers env enabled ->
  _db self = true ->
  exists self1,
    choose_table enabled tables w self
    = (Return (find (table_qualifies (_auto_enable_events_statements_consumers self)
                       enabled env (_checkpoint self)) tables), self1)
    /\ _collection_strategy_cache self1 = _collection_strategy_cache self.
Proof.
  intros Hw Hsel. revert self. induction tables as [|t rest IH]; intros self Hdb.
  - eexists. split; reflexivity.
  - cbn [choose_table find]. unfold table_qualifies at 1.
    unfold bind at 1.
    assert (Husable : exists self1,
      (if mem_string t enabled then ret true
       else auto <- gets _auto_enable_events_statements_consumers ;;
            if negb auto then ret false else _performance_schema_enable_consumer t) w self
      = (Return (mem_string t enabled
                 || (_auto_enable_events_statements_consumers self
                     && match update_setup_consumers env t with
                        | Return _ => true
                        | Raise _ => false
                        end)), self1)
      /\ _db self1 = true /\ _checkpoint self1 = _checkpoint self
      /\ _auto_enable_events_statements_consumers self1
         = _auto_enable_events_statements_consumers self
      /\ _collection_strategy_cache self1 = _collection_strategy_cache self).
    { destruct (mem_string t enabled); [exists self; auto 6|].
      unfold bind, gets.
      destruct (_auto_enable_events_statements_consumers self) eqn:Eauto; cbn [negb orb andb].
      - destruct (enable_consumer_static t w env enabled self Hw Hsel Hdb)
          as (self1 & -> & H1 & H2 & H3 & H4).
        exists self1. rewrite <- Eauto at 2. auto 6.
      - exists self. rewrite Eauto. auto 6. }
    destruct Husable as (self1 & -> & Hdb1 & Hck1 & Hauto1 & Hcache1).
    destruct (mem_string t enabled || _) eqn:Eusable; cbn [negb andb].
    + destruct (probe_static t w env enabled self1 Hw Hsel Hdb1)
        as (self2 & contents & Hc & Hrun & Hdb2 & Hauto2 & Hcache2 & Hck2).
      unfold bind. rewrite Hrun, Hc. rewrite Hck1 in *.
      destruct (EVENTS_STATEMENTS_QUERY _ contents) as [|x rows] eqn:Eq; cbn [is_nil negb].
      * destruct (IH self2 Hdb2) as (self3 & -> & Hcache3).
        rewrite Hauto2, Hauto1, (Hck2 eq_refl). eexists. split; [reflexivity|]. congruence.
      * eexists. split; [reflexivity|]. congruence.
    + destruct (IH self1 Hdb1) as (self3 & -> & Hcache3).
      rewrite Hauto1, Hck1. eexists. split; [reflexivity|]. congruence.
Qed.

Lemma preferred_tables_have_defaults :
  Forall (fun t => t <> "" /\ exists rate,
                     lookup t DEFAULT_EVENTS_STATEMENTS_COLLECTIONS_PER_SECOND = Some rate)
    EVENTS_STATEMENTS_PREFERRED_TABLES.
Proof.
  repeat constructor; try discriminate; eexists; reflexivity.
Qed.

Lemma enabled_consumers_static w env enabled self :
  (forall n, answers w n = env) ->
  selection_answers env enabled ->
  exists self1,
    _get_enabled_performance_schema_consumers w self = (Return enabled, self1)
    /\ _db self1 = true
    /\ _checkpoint self1 = _checkpoint self
    /\ _auto_enable_events_statements_consumers self1
       = _auto_enable_events_statements_consumers self
    /\ _collection_strategy_cache self1 = _collection_strategy_cache self
    /\ _preferred_events_statements_tables self1 = _preferred_events_statements_tables self.
Proof.
  intros Hw (Hconn & Hcons & _).
  unfold _get_enabled_performance_schema_consumers, execute_select_consumers.
  unfold bind at 1. rewrite get_db_connection_run.
  destruct (_db self) eqn:Hdb; cbv zeta; rewrite ?Hw, ?Hconn; run; rewrite ?Hw, Hcons;
    eexists; (split; [reflexivity|]); repeat split; assumption.
Qed.

(** C7, as stated, fails: the current-activity table is not the last of
    the preference order. With the plain history table enabled and holding
    rows too, the selection settles on the current-activity table, which
    comes before it. *)
Lemma current_table_is_chosen_before_history :
  fst (_get_sample_collection_strategy (steady two_tables_server) default_instance)
  = Return (Some ("events_statements_current", 1%Q))
  /\ table_qualifies false ["events_statements_current"; "events_statements_history"]
       two_tables_server 0 "events_statements_history" = true
  /\ EVENTS_STATEMENTS_PREFERRED_TABLES
     = ["events_statements_history_long";
        "events_statements_current";
        "events_statements_history"].
Proof. vm_compute. repeat split. Qed.

(** C7, amended. With no strategy cached and no table configured, strategy
    selection returns the first table, in the fixed preference order
    long-history table, current-activity table, plain history table, that
    is enabled (or successfully auto-enabled) and whose one-row probe
    returns a row, and no table when none qualifies. *)
Theorem selection_takes_first_qualifying_table w env enabled self r self' :
  (forall n, answers w n = env) ->
  selection_answers env enabled ->
  _preferred_events_statements_tables self = EVENTS_STATEMENTS_PREFERRED_TABLES ->
  Cache.get (_collection_strategy_cache self) "plan_collection_strategy" (monotonic env)
  = None ->
  1 <= Cache.maxsize (_collection_strategy_cache self) ->
  _get_sample_collection_strategy w self = (r, self') ->
  result_map (option_map fst) r
  = Return (find (table_qualifies (_auto_enable_events_statements_consumers self)
                    enabled env (_checkpoint self))
              ["events_statements_history_long";
               "events_statements_current";
               "events_statements_history"]).
Proof.
  intros Hw Hsel Hpref Hmiss Hroom.
  unfold _get_sample_collection_strategy. unfold bind at 1.
  rewrite strategy_cache_get_run, Hw, Hmiss.
  set (self0 := set_answered _ self).
  unfold bind at 1.
  destruct (enabled_consumers_static w env enabled self0 Hw Hsel)
    as (self1 & -> & Hdb1 & Hck1 & Hauto1 & Hcache1 & Hpref1).
  unfold bind at 1. unfold gets at 1. unfold bind at 1. unfold gets at 1.
  unfold bind at 1.
  destruct (choose_table_static enabled (_preferred_events_statements_tables self1)
              w env self1 Hw Hsel Hdb1) as (self2 & -> & Hcache2).
  rewrite Hpref1, Hauto1, Hck1. unfold self0 at 1 2 3.
  cbn [_preferred_events_statements_tables _auto_enable_events_statements_consumers
       _checkpoint set_answered].
  rewrite Hpref. fold EVENTS_STATEMENTS_PREFERRED_TABLES.
  destruct (find _ EVENTS_STATEMENTS_PREFERRED_TABLES) as [table|] eqn:Efind.
  - apply find_some in Efind. destruct Efind as [Hin _].
    pose proof preferred_tables_have_defaults as Hdef.
    rewrite Forall_forall in Hdef. destruct (Hdef _ Hin) as (Hne & rate & Hrate).
    apply String.eqb_neq in Hne.
    assert (Hroom2 : 1 <= Cache.maxsize (_collection_strategy_cache self2)).
    { rewrite Hcache2, Hcache1. exact Hroom. }
    unfold bind at 1.
    destruct (Qltb (_collections_per_second self1) 0).
    + unfold lift at 1, getitem. rewrite Hrate, Hne.
      unfold bind. rewrite strategy_cache_set_run.
      destruct (cache_set_room (_collection_strategy_cache self2) "plan_collection_strategy"
                  (CollectionStrategy table rate) (monotonic (answers w (answered self2)))
                  Hroom2) as (c' & -> & _).
      unfold ret. intros [= <- <-]. reflexivity.
    + unfold ret at 1. rewrite Hne.
      unfold bind. rewrite strategy_cache_set_run.
      destruct (cache_set_room (_collection_strategy_cache self2) "plan_collection_strategy"
                  (CollectionStrategy table (_collections_per_second self1))
                  (monotonic (answers w (answered self2))) Hroom2) as (c' & -> & _).
      unfold ret. intros [= <- <-]. reflexivity.
  - unfold ret. intros [= <- <-]. reflexivity.
Qed.

(** The long-history table enabled but empty, the current-activity table
    enabled with rows: the current-activity table is chosen. *)
Lemma selection_takes_first_qualifying_table_witness :
  table_qualifies false ["events_statements_history_long"; "events_statements_current"]
    busy_server 0 "events_statements_history_long" = false
  /\ result_map (option_map fst)
       (fst (_get_sample_collection_strategy (steady busy_server) default_instance))
     = Return (Some "events_statements_current").
Proof.
  split; [reflexivity|].
  etransitivity.
  - apply (selection_takes_first_qualifying_table (steady busy_server) busy_server
             ["events_statements_history_long"; "events_statements_current"]
             default_instance _
             (snd (_get_sample_collection_strategy (steady busy_server) default_instance))).
    + intros n. reflexivity.
    + repeat split; intros; try (eexists; reflexivity). left. reflexivity.
    + reflexivity.
    + reflexivity.
    + exact room_in_default_cache.
    + apply surjective_pairing.
  - reflexivity.
Defined.

(* ===================================================================== *)
(** * The row a probe returns *)
(* ===================================================================== *)

Lemma wait_geb_refl e : wait_geb e e = true.
Proof. unfold wait_geb. destruct (timer_wait e); [apply Z.leb_refl | reflexivity]. Qed.

Lemma wait_geb_trans a b c :
  wait_geb a b = true -> wait_geb b c = true -> wait_geb a c = true.
Proof.
  unfold wait_geb.
  destruct (timer_wait a), (timer_wait b), (timer_wait c); try congruence.
  rewrite !Z.leb_le. lia.
Qed.

Lemma wait_geb_total a b : wait_geb a b = false -> wait_geb b a = true.
Proof.
  unfold wait_geb. destruct (timer_wait a), (timer_wait b); try congruence.
  rewrite Z.leb_gt, Z.leb_le. lia.
Qed.

(** The first row of the ordered table waited at least as long as any other. *)
Lemma order_by_head_longest l e rest :
  order_by_timer_wait_desc l = e :: rest ->
  forall e', In e' l -> wait_geb e e' = true.
Proof.
  unfold order_by_timer_wait_desc. revert e rest.
  induction l as [|x l IH]; simpl; intros e rest; [discriminate|].
  destruct (fold_right insert_by_wait [] l) as [|h sorted] eqn:Es; simpl.
  - intros [= <- <-] e' [<-|Hin]; [apply wait_geb_refl|].
    destruct l as [|y l]; [contradiction|].
    simpl in Es. destruct (fold_right insert_by_wait [] l); simpl in Es;
      [discriminate | destruct (wait_geb y e); discriminate].
  - specialize (IH h sorted eq_refl).
    destruct (wait_geb x h) eqn:Exh.
    + intros [= <- <-] e' [<-|Hin]; [apply wait_geb_refl|].
      eapply wait_geb_trans; [exact Exh | apply IH; exact Hin].
    + intros [= <- <-] e' [<-|Hin]; [apply wait_geb_total; exact Exh | apply IH; exact Hin].
Qed.

(** A one-row answer of the query is the row of longest wait among those
    above the checkpoint. *)
Lemma one_row_answer_is_longest p contents r :
  limit_param p = 1 ->
  EVENTS_STATEMENTS_QUERY p contents = [r] ->
  exists e, r = select_columns e /\ In e contents /\ where_clause p e = true
            /\ forall e', In e' contents -> where_clause p e' = true ->
                          wait_geb e e' = true.
Proof.
  intros Hlimit. unfold EVENTS_STATEMENTS_QUERY. rewrite Hlimit.
  change (Z.to_nat 1) with 1%nat.
  destruct (order_by_timer_wait_desc (filter (where_clause p) contents))
    as [|e rest] eqn:Eo; [discriminate|].
  simpl. intros [= <-].
  assert (Hin : In e (filter (where_clause p) contents)).
  { apply order_by_In. rewrite Eo. left. reflexivity. }
  apply filter_In in Hin. destruct Hin as [Hin Hw].
  exists e. repeat split; try assumption.
  intros e' Hin' Hw'. eapply order_by_head_longest; [exact Eo|].
  apply filter_In. auto.
Qed.

(** A probe that returns a row moves the checkpoint to that row's
    [timer_start]; the row is the one of longest wait above the old
    checkpoint. *)
Lemma probe_advances_to_its_row table w self r self1 :
  _get_new_events_statements table 1 w self = (Return [r], self1) ->
  lookup "timer_start" r = Some (PInt (_checkpoint self1))
  /\ _checkpoint self < _checkpoint self1
  /\ exists n contents e,
       performance_schema (answers w n) table = Return contents
       /\ r = select_columns e /\ In e contents
       /\ where_clause (fetch_params (_checkpoint self) 1) e = true
       /\ forall e', In e' contents ->
                     where_clause (fetch_params (_checkpoint self) 1) e' = true ->
                     wait_geb e e' = true.
Proof.
  intros Hrun.
  destruct (fetch_advances _ _ _ _ _ _ Hrun) as (_ & Hlt & _ & (r0 & [<-|[]] & Hr0));
    [discriminate|].
  split; [exact Hr0|]. split; [exact Hlt|].
  revert Hrun. unfold _get_new_events_statements. unfold bind at 1.
  pose proof (get_db_connection_checkpoint w self) as Hc.
  destruct (_get_db_connection w self) as [[[]|e] self0]; [|discriminate].
  simpl in Hc. rewrite fetch_with_cursor_run. cbv zeta. rewrite Hc.
  destruct (performance_schema (answers w (answered self0)) table) as [contents|e] eqn:Ec;
    [|discriminate].
  cbn [result_map].
  destruct (EVENTS_STATEMENTS_QUERY _ contents) as [|x xs] eqn:Eq; [discriminate|].
  destruct (max_timer_start (x :: xs)); [|discriminate].
  destruct (set_sql_notes _); [|discriminate].
  cbn [result_map]. intros [= -> -> _].
  destruct (one_row_answer_is_longest (fetch_params (_checkpoint self) 1) contents r
              eq_refl Eq) as (e & He & Hin & Hw & Hmax).
  exists (answered self0), contents, e. auto.
Qed.

(** No row of an earlier fetch comes back in a later one. *)
Lemma Fetches_never_twice lo l1 table p rows l2 hi table' p' rows' r :
  Fetches lo (l1 ++ SelectEventsStatements table p (Return rows) :: l2) hi ->
  In r rows ->
  In (SelectEventsStatements table' p' (Return rows')) l2 ->
  ~ In r rows'.
Proof.
  intros HF Hr Hlater Hr'.
  destruct (Fetches_earlier _ _ _ _ _ _ _ HF) as (mid & Hrows & _ & Hrest).
  destruct (Fetches_later _ _ _ _ _ _ Hrest Hlater) as [_ Hrows'].
  rewrite Forall_forall in Hrows, Hrows'.
  destruct (Hrows _ Hr) as (t & Ht & Hb). destruct (Hrows' _ Hr') as (t' & Ht' & Hb').
  rewrite Ht in Ht'. injection Ht' as <-. lia.
Qed.

(** A cycle, once the selection has returned a table: the full fetch, then
    plan collection on exactly the rows it returned. *)
Lemma cycle_after_selection w self table rate self1 rows self2 :
  _get_sample_collection_strategy w self = (Return (Some (table, rate)), self1) ->
  table <> "" ->
  _get_new_events_statements table (_events_statements_row_limit self1) w
    (if negb (Qeq_bool (_rate_limiter self1) rate)
     then set_rate_limiter rate self1 else self1)
  = (Return rows, self2) ->
  _collect_statement_samples w self = _collect_plans_for_statements rows w self2.
Proof.
  intros Hsel Hne Hfetch. unfold _collect_statement_samples. unfold bind at 1.
  rewrite Hsel. apply String.eqb_neq in Hne. rewrite Hne.
  unfold bind at 1. unfold gets at 1. unfold bind at 1.
  destruct (negb (Qeq_bool (_rate_limiter self1) rate)).
  - unfold modify at 1. unfold bind at 1. unfold gets at 1. unfold bind at 1.
    cbn [_events_statements_row_limit set_rate_limiter]. rewrite Hfetch. reflexivity.
  - unfold ret at 1. unfold bind at 1. unfold gets at 1. unfold bind at 1.
    rewrite Hfetch. reflexivity.
Qed.

(** C10. A probe of the strategy selection that returns a row moves the
    checkpoint to that row's [timer_start], the row being the one of longest
    wait above the old checkpoint; the full fetch of the same cycle, sent
    with the new checkpoint, does not return that row, and plan collection
    handles the rows of the full fetch only, so no event is built from it;
    nor does any later fetch of a run of cycles return it. *)
Theorem probed_row_is_never_collected :
  (forall table w self r self1,
      _get_new_events_statements table 1 w self = (Return [r], self1) ->
      lookup "timer_start" r = Some (PInt (_checkpoint self1))
      /\ _checkpoint self < _checkpoint self1
      /\ exists n contents e,
           performance_schema (answers w n) table = Return contents
           /\ r = select_columns e /\ In e contents
           /\ where_clause (fetch_params (_checkpoint self) 1) e = true
           /\ forall e', In e' contents ->
                         where_clause (fetch_params (_checkpoint self) 1) e' = true ->
                         wait_geb e e' = true)
  /\ (forall w self table rate self1 t p r rows self2,
        _get_sample_collection_strategy w self = (Return (Some (table, rate)), self1) ->
        table <> "" ->
        In (SelectEventsStatements t p (Return [r]))
          (skipn (List.length (cursor_log self)) (cursor_log self1)) ->
        _get_new_events_statements table (_events_statements_row_limit self1) w
          (if negb (Qeq_bool (_rate_limiter self1) rate)
           then set_rate_limiter rate self1 else self1)
        = (Return rows, self2) ->
        _collect_statement_samples w self = _collect_plans_for_statements rows w self2
        /\ ~ In r rows)
  /\ (forall n w self l1 t p rows l2 t' p' rows' r,
        skipn (List.length (cursor_log self)) (cursor_log (cycles n w self))
        = l1 ++ SelectEventsStatements t p (Return rows) :: l2 ->
        In r rows ->
        In (SelectEventsStatements t' p' (Return rows')) l2 ->
        ~ In r rows').
Proof.
  split; [|split].
  - intros. apply probe_advances_to_its_row. assumption.
  - intros w self table rate self1 t p r rows self2 Hsel Hne Hprobe Hfetch.
    split; [eapply cycle_after_selection; eauto|].
    intros Hin.
    destruct (steps_get_sample_collection_strategy w self) as (new & Hlog & HF).
    rewrite Hsel in Hlog, HF. simpl in Hlog, HF.
    rewrite Hlog, skipn_app_exact in Hprobe.
    apply in_split in Hprobe. destruct Hprobe as (l1 & l2 & ->).
    destruct (Fetches_earlier _ _ _ _ _ _ _ HF) as (mid & Hrow & _ & Hrest).
    apply Fetches_le in Hrest.
    inversion Hrow as [|? ? (tr & Htr & Hb) _]; subst.
    assert (Hrows : rows <> []) by (intros ->; contradiction).
    destruct (fetch_advances _ _ _ _ _ _ Hfetch Hrows) as (_ & _ & Hall & _).
    rewrite Forall_forall in Hall. destruct (Hall _ Hin) as (tr' & Htr' & Hb').
    rewrite Htr in Htr'. injection Htr' as <-.
    assert (_checkpoint (if negb (Qeq_bool (_rate_limiter self1) rate)
                         then set_rate_limiter rate self1 else self1)
            = _checkpoint self1) by (destruct (negb _); reflexivity).
    lia.
  - intros n w self l1 t p rows l2 t' p' rows' r Hlog Hr Hlater.
    destruct (steps_cycles n w self) as (new & Hnew & HF).
    rewrite Hnew, skipn_app_exact in Hlog. subst new.
    eapply Fetches_never_twice; eauto.
Qed.

(** On the busy server the probe returns the statement that waited 30 and
    started at 7; the checkpoint moves to 7, the full fetch returns only the
    statement started at 9, and the statement started at 5 is never fetched. *)
Lemma probed_row_is_never_collected_witness :
  let w := steady busy_server in
  lookup "timer_start" probed_row
  = Some (PInt (_checkpoint (snd (_get_new_events_statements "events_statements_current" 1
                                    w default_instance))))
  /\ ~ In probed_row [row_after_probe].
Proof.
  destruct probed_row_is_never_collected as (Hprobe & Hcycle & _).
  split.
  - apply (Hprobe "events_statements_current" (steady busy_server) default_instance).
    vm_compute. reflexivity.
  - eapply (Hcycle (steady busy_server) default_instance "events_statements_current" 1%Q
              _ "events_statements_current" (fetch_params 0 1) probed_row).
    + vm_compute. reflexivity.
    + discriminate.
    + vm_compute. do 3 right. left. reflexivity.
    + vm_compute. reflexivity.
Defined.

(* ===================================================================== *)
(** * Emission and the seen-samples cache *)
(* ===================================================================== *)

Section ObeysIn.
Variable R : World -> MySQLStatementSamples -> MySQLStatementSamples -> Prop.
Hypothesis R_refl : forall w s, R w s s.
Hypothesis R_trans : forall w a b c, R w a b -> R w b c -> R w a c.

Lemma obeys_in_pure {A} (m : M A) : (forall w s, snd (m w s) = s) -> obeys_in R m.
Proof. intros H w s. rewrite H. apply R_refl. Qed.

Lemma obeys_in_bind {A B} (m : M A) (k : A -> M B) :
  obeys_in R m -> (forall a, obeys_in R (k a)) -> obeys_in R (bind m k).
Proof.
  intros Hm Hk w s. unfold bind.
  specialize (Hm w s). destruct (m w s) as [[a|e] s1]; simpl in *.
  - eapply R_trans; [exact Hm | apply Hk].
  - exact Hm.
Qed.

Lemma obeys_in_try_except {A} (body : M A) (handler : exn -> M A) :
  obeys_in R body -> (forall e, obeys_in R (handler e)) ->
  obeys_in R (try_except body handler).
Proof.
  intros Hb Hh w s. unfold try_except.
  specialize (Hb w s). destruct (body w s) as [[a|e] s1]; simpl in *.
  - exact Hb.
  - eapply R_trans; [exact Hb | apply Hh].
Qed.

Lemma obeys_in_for_each {A} (body : A -> M unit) (l : list A) :
  (forall a, obeys_in R (body a)) -> obeys_in R (for_each body l).
Proof.
  intros Hb. induction l as [|a l IH]; simpl.
  - apply obeys_in_pure. reflexivity.
  - apply obeys_in_bind; [apply Hb | intros _; exact IH].
Qed.
End ObeysIn.

Lemma emits_once_refl w s : emits_once w s s.
Proof.
  intros Hwin. split; [exact Hwin|]. split; [reflexivity|]. split; [lia|].
  exists []. rewrite app_nil_r. split; [reflexivity|]. intros _.
  split; [apply incl_refl|]. split; [constructor|]. intros ev [].
Qed.

Lemma emits_once_trans w a b c : emits_once w a b -> emits_once w b c -> emits_once w a c.
Proof.
  intros Hab Hbc Hwin.
  destruct (Hab Hwin) as (Hwin_b & Hmax_b & Hsize_b & new1 & Hsub1 & Hkeep1).
  destruct (Hbc Hwin_b) as (Hwin_c & Hmax_c & Hsize_c & new2 & Hsub2 & Hkeep2).
  split; [exact Hwin_c|]. split; [congruence|]. split; [lia|].
  exists (new1 ++ new2). split; [rewrite Hsub2, Hsub1, app_assoc; reflexivity|].
  intros Hroom.
  destruct (Hkeep2 Hroom) as (Hincl2 & Hnd2 & Hev2).
  destruct Hkeep1 as (Hincl1 & Hnd1 & Hev1); [lia|].
  split; [eapply incl_tran; eauto|]. split.
  - rewrite map_app. apply NoDup_app; try assumption.
    intros p Hp1 Hp2. apply in_map_iff in Hp1, Hp2.
    destruct Hp1 as (ev1 & <- & Hin1). destruct Hp2 as (ev2 & Heq & Hin2).
    destruct (Hev1 _ Hin1) as [_ Hin_b]. destruct (Hev2 _ Hin2) as [Hnot_b _].
    rewrite Heq in Hnot_b. contradiction.
  - intros ev Hin. apply in_app_or in Hin. destruct Hin as [Hin|Hin].
    + destruct (Hev1 _ Hin). split; [assumption | apply Hincl2; assumption].
    + destruct (Hev2 _ Hin) as [Hnot Hin_c]. split; [|assumption].
      intros Habs. apply Hnot, Hincl1, Habs.
Qed.

(** A change of [self] that leaves the seen-samples cache and the sink alone. *)
Lemma emits_once_frame w s s' :
  _seen_samples_cache s' = _seen_samples_cache s -> submitted s' = submitted s ->
  emits_once w s s'.
Proof.
  intros Hc Hs Hwin. unfold one_window, seen_pairs, seen_size in *. rewrite Hc, Hs.
  split; [exact Hwin|]. split; [reflexivity|]. split; [lia|].
  exists []. rewrite app_nil_r. split; [reflexivity|]. intros _.
  split; [apply incl_refl|]. split; [constructor|]. intros ev [].
Qed.

Lemma emits_bind {A B} (m : M A) (k : A -> M B) :
  obeys_in emits_once m -> (forall a, obeys_in emits_once (k a)) ->
  obeys_in emits_once (bind m k).
Proof. apply obeys_in_bind. exact emits_once_trans. Qed.

Lemma emits_try_except {A} (body : M A) (handler : exn -> M A) :
  obeys_in emits_once body -> (forall e, obeys_in emits_once (handler e)) ->
  obeys_in emits_once (try_except body handler).
Proof. apply obeys_in_try_except. exact emits_once_trans. Qed.

Lemma emits_for_each {A} (body : A -> M unit) (l : list A) :
  (forall a, obeys_in emits_once (body a)) -> obeys_in emits_once (for_each body l).
Proof. apply obeys_in_for_each; [exact emits_once_refl | exact emits_once_trans]. Qed.

Lemma emits_pure {A} (m : M A) :
  (forall w s, snd (m w s) = s) -> obeys_in emits_once m.
Proof. apply obeys_in_pure. exact emits_once_refl. Qed.

Lemma emits_frame (f : MySQLStatementSamples -> MySQLStatementSamples) :
  (forall s, _seen_samples_cache (f s) = _seen_samples_cache s) ->
  (forall s, submitted (f s) = submitted s) ->
  obeys_in emits_once (modify f).
Proof. intros Hc Hs w s. simpl. apply emits_once_frame; auto. Qed.

Lemma emits_ask : obeys_in emits_once ask.
Proof. intros w s. apply emits_once_frame; reflexivity. Qed.

Lemma emits_sent call : obeys_in emits_once (sent call).
Proof. intros w s. apply emits_once_frame; reflexivity. Qed.

Lemma emits_count_error t : obeys_in emits_once (count_error t).
Proof. intros w s. apply emits_once_frame; reflexivity. Qed.

Create HintDb emits.

(** Splitting a goal [obeys_in emits_once m] down to the emission itself. *)
Ltac emits_tac :=
  repeat first
    [ solve [auto 1 with emits nocore]
    | apply emits_ask
    | apply emits_sent
    | apply emits_count_error
    | apply emits_frame; reflexivity
    | apply emits_bind; [ | intros ?]
    | apply emits_try_except; [ | intros ?]
    | apply emits_for_each; intros ?
    | apply emits_pure; reflexivity
    | match goal with
      | |- obeys_in _ (if ?b then _ else _) => destruct b
      | |- obeys_in _ (match ?x with _ => _ end) => destruct x
      end ].

Lemma emits_time_monotonic : obeys_in emits_once time_monotonic.
Proof. unfold time_monotonic. emits_tac. Qed.

Lemma emits_strategy_cache_get key : obeys_in emits_once (strategy_cache_get key).
Proof. unfold strategy_cache_get, time_monotonic. emits_tac. Qed.

Lemma emits_strategy_cache_set key v : obeys_in emits_once (strategy_cache_set key v).
Proof. unfold strategy_cache_set, time_monotonic. emits_tac. Qed.

Lemma emits_explained_statements_contains key :
  obeys_in emits_once (explained_statements_contains key).
Proof. unfold explained_statements_contains, time_monotonic. emits_tac. Qed.

Lemma emits_explained_statements_set key :
  obeys_in emits_once (explained_statements_set key).
Proof. unfold explained_statements_set, time_monotonic. emits_tac. Qed.

Lemma emits_seen_samples_contains key : obeys_in emits_once (seen_samples_contains key).
Proof. unfold seen_samples_contains, time_monotonic. emits_tac. Qed.

Lemma emits_get_db_connection : obeys_in emits_once _get_db_connection.
Proof. unfold _get_db_connection. emits_tac. Qed.

#[local] Hint Resolve emits_time_monotonic emits_strategy_cache_get emits_strategy_cache_set
  emits_explained_statements_contains emits_explained_statements_set
  emits_seen_samples_contains emits_get_db_connection : emits.

Lemma emits_get_new_events_statements table row_limit :
  obeys_in emits_once (_get_new_events_statements table row_limit).
Proof.
  unfold _get_new_events_statements, fetch_with_cursor, execute_events_statements_query,
    execute_set_sql_notes.
  emits_tac.
Qed.

Lemma emits_explain_strategies strategy statement :
  obeys_in emits_once (_explain_strategies strategy statement).
Proof. unfold _explain_strategies. emits_tac. Qed.

Lemma emits_agent_obfuscate_sql text : obeys_in emits_once (agent_obfuscate_sql text).
Proof. unfold agent_obfuscate_sql. emits_tac. Qed.

Lemma emits_agent_obfuscate_sql_exec_plan plan normalize :
  obeys_in emits_once (agent_obfuscate_sql_exec_plan plan normalize).
Proof. unfold agent_obfuscate_sql_exec_plan. emits_tac. Qed.

Lemma emits_on_database_error key tag e : obeys_in emits_once (on_database_error key tag e).
Proof. unfold on_database_error. emits_tac. Qed.

#[local] Hint Resolve emits_get_new_events_statements emits_explain_strategies
  emits_agent_obfuscate_sql emits_agent_obfuscate_sql_exec_plan
  emits_on_database_error : emits.

Lemma emits_try_strategies key statement strategies :
  obeys_in emits_once (try_strategies key statement strategies).
Proof. induction strategies as [|s rest IH]; simpl; unfold try_strategy; emits_tac. Qed.

#[local] Hint Resolve emits_try_strategies : emits.

Lemma emits_explain_statement_safe statement schema :
  obeys_in emits_once (_explain_statement_safe statement schema).
Proof.
  unfold _explain_statement_safe, _explain_statement, switch_to_schema, execute_use.
  emits_tac.
Qed.

Lemma emits_describe_plan plan : obeys_in emits_once (describe_plan plan).
Proof. unfold describe_plan. emits_tac. Qed.

Lemma emits_get_sample_collection_strategy :
  obeys_in emits_once _get_sample_collection_strategy.
Proof.
  assert (Hwalk : forall enabled tables, obeys_in emits_once (choose_table enabled tables)).
  { intros enabled tables. induction tables as [|t rest IH]; simpl;
      unfold _performance_schema_enable_consumer, execute_enable_consumer; emits_tac. }
  unfold _get_sample_collection_strategy, _get_enabled_performance_schema_consumers,
    execute_select_consumers.
  emits_tac.
Qed.

#[local] Hint Resolve emits_explain_statement_safe emits_describe_plan
  emits_get_sample_collection_strategy : emits.

(** ** The emission itself *)

Lemma seen_tail_run key r qs hash stmt oplan cost psig w s :
  (seen <- seen_samples_contains key ;;
   if seen then ret tt
   else seen_samples_set key ;;
        ev <- lift (build_event r qs hash stmt oplan cost psig) ;;
        yield ev) w s
  = let s1 := set_answered (S (answered s)) s in
    if Cache.contains (_seen_samples_cache s) key (monotonic (answers w (answered s)))
    then (Return tt, s1)
    else
      let s2 := set_answered (S (S (answered s))) s1 in
      match Cache.set (_seen_samples_cache s) key true
              (monotonic (answers w (S (answered s)))) with
      | Raise e => (Raise e, s2)
      | Return c' =>
          let s3 := set_seen_samples_cache c' s2 in
          match build_event r qs hash stmt oplan cost psig with
          | Raise e => (Raise e, s3)
          | Return ev => (Return tt, set_submitted (submitted s ++ [ev]) s3)
          end
      end.
Proof.
  unfold seen_samples_contains, seen_samples_set. run. cbn.
  destruct (Cache.contains _ _ _); [reflexivity|].
  destruct (Cache.set _ _ _ _); [|reflexivity].
  destruct (build_event _ _ _ _ _ _ _); reflexivity.
Qed.

Lemma build_event_pair r qs hash stmt oplan cost psig ev :
  build_event r qs hash stmt oplan cost psig = Return ev ->
  sample_pair ev = (qs, psig)
  /\ db_plan_definition ev = oplan /\ db_plan_cost ev = cost.
Proof.
  unfold build_event.
  destruct (getitem r "timer_end_time_s") as [v1|]; [|discriminate]. cbn [result_bind].
  destruct (times1000 v1); [|discriminate]. cbn [result_bind].
  destruct (getitem r "timer_wait_ns"); [|discriminate]. cbn [result_bind].
  destruct (getitem r "current_schema") as [v2|]; [|discriminate]. cbn [result_bind].
  destruct (as_optional_text v2); [|discriminate]. cbn [result_bind].
  intros [= <-]. repeat split.
Qed.

(** The write of a pair the cache does not hold, within one window. *)
Lemma seen_set_new_pair w s key now c' :
  one_window w s ->
  (exists i, now = monotonic (answers w i)) ->
  ~ In key (seen_pairs s) ->
  Cache.set (_seen_samples_cache s) key true now = Return c' ->
  Cache.maxsize c' = Cache.maxsize (_seen_samples_cache s)
  /\ Cache.ttl c' = Cache.ttl (_seen_samples_cache s)
  /\ Cache.entries c'
     = Cache.evict (Cache.maxsize (_seen_samples_cache s))
         (Cache.entries (_seen_samples_cache s))
       ++ [(key, true, (now + Cache.ttl (_seen_samples_cache s))%Q)].
Proof.
  intros (_ & Hfresh & _ & _) (i & ->) Hnot. unfold Cache.set.
  destruct (Cache.maxsize _ <? 1); [discriminate|].
  rewrite expire_all_fresh by (intros e He; apply Hfresh; exact He).
  apply existsb_is_key_false in Hnot. rewrite Hnot.
  intros [= <-]. repeat split.
Qed.

Lemma emits_seen_tail r qs hash stmt oplan cost psig :
  obeys_in emits_once
    (seen <- seen_samples_contains (qs, psig) ;;
     if seen then ret tt
     else seen_samples_set (qs, psig) ;;
          ev <- lift (build_event r qs hash stmt oplan cost psig) ;;
          yield ev).
Proof.
  intros w s. rewrite seen_tail_run. cbv zeta.
  destruct (Cache.contains _ _ _) eqn:Econt; [apply emits_once_frame; reflexivity|].
  destruct (Cache.set _ _ _ _) as [c'|e] eqn:Eset; [|apply emits_once_frame; reflexivity].
  intros Hwin.
  assert (Hnot : ~ In (qs, psig) (seen_pairs s)).
  { destruct Hwin as (_ & Hfresh & _ & _). unfold Cache.contains in Econt.
    rewrite expire_all_fresh in Econt by (intros e He; apply Hfresh; exact He).
    apply existsb_is_key_false. exact Econt. }
  destruct (seen_set_new_pair w s (qs, psig) _ c' Hwin (ex_intro _ _ eq_refl) Hnot Eset)
    as (Hmax & Httl & Hentries).
  destruct Hwin as (Hclock & Hfresh & Hnd & Hlen).
  set (old := Cache.entries (_seen_samples_cache s)) in *.
  set (kept := Cache.evict (Cache.maxsize (_seen_samples_cache s)) old) in *.
  assert (Hkept_len : List.length kept
                      = (List.length old - (S (List.length old)
                                            - Z.to_nat (Cache.maxsize (_seen_samples_cache s))))%nat).
  { unfold kept, Cache.evict. apply length_skipn. }
  assert (Hmax1 : 1 <= Cache.maxsize (_seen_samples_cache s)).
  { unfold Cache.set in Eset. destruct (Cache.maxsize _ <? 1) eqn:E; [discriminate|].
    apply Z.ltb_ge in E. exact E. }
  unfold seen_size in Hlen. fold old in Hlen.
  assert (Hwin' : forall s', _seen_samples_cache s' = c' -> one_window w s').
  { intros s' Hc'. unfold one_window, seen_pairs, seen_size. rewrite Hc', Httl, Hentries, Hmax.
    split; [exact Hclock|]. split; [|split].
    - intros e He i. apply in_app_or in He. destruct He as [He|[<-|[]]].
      + apply Hfresh. unfold kept, Cache.evict in He. eapply In_skipn; eauto.
      + apply Hclock.
    - rewrite map_app. apply NoDup_app.
      + unfold kept, Cache.evict. rewrite <- skipn_map. apply NoDup_skipn. exact Hnd.
      + repeat constructor. intros [].
      + intros p Hp Hq. cbn in Hq. destruct Hq as [Hq|[]]. subst p.
        apply Hnot. unfold seen_pairs. fold old.
        apply in_map_iff in Hp. destruct Hp as (e & <- & He).
        apply in_map. unfold kept, Cache.evict in He. eapply In_skipn; eauto.
    - rewrite length_app, Hkept_len. cbn [List.length]. lia. }
  assert (Hsize : forall s', _seen_samples_cache s' = c' -> seen_size s <= seen_size s').
  { intros s' Hc'. unfold seen_size. rewrite Hc', Hentries, length_app, Hkept_len.
    fold old. cbn [List.length]. lia. }
  assert (Hkeep : forall s', _seen_samples_cache s' = c' ->
            seen_size s' < Cache.maxsize (_seen_samples_cache s') ->
            incl (seen_pairs s) (seen_pairs s') /\ In (qs, psig) (seen_pairs s')).
  { intros s' Hc'. unfold seen_size, seen_pairs. rewrite Hc', Hentries, Hmax.
    rewrite length_app, Hkept_len. cbn [List.length]. intros Hroom.
    assert (kept = old) as ->.
    { unfold kept, Cache.evict.
      replace (S (List.length old) - Z.to_nat (Cache.maxsize (_seen_samples_cache s)))%nat
        with 0%nat by lia. reflexivity. }
    fold old. rewrite map_app. split.
    - apply incl_appl, incl_refl.
    - apply in_or_app. right. left. reflexivity. }
  destruct (build_event _ _ _ _ _ _ _) as [ev|e] eqn:Eev.
  - split; [apply Hwin'; reflexivity|]. split; [exact Hmax|].
    split; [apply Hsize; reflexivity|].
    exists [ev]. split; [reflexivity|]. intros Hroom.
    cbn [snd] in Hroom.
    edestruct Hkeep as [Hincl Hin]; [|exact Hroom|]; [reflexivity|].
    destruct (build_event_pair _ _ _ _ _ _ _ _ Eev) as (Hpair & _).
    split; [exact Hincl|]. split; [repeat constructor; intros []|].
    intros ev' [<-|[]]. rewrite Hpair. split; [exact Hnot | exact Hin].
  - split; [apply Hwin'; reflexivity|]. split; [exact Hmax|].
    split; [apply Hsize; reflexivity|].
    exists []. rewrite app_nil_r. split; [reflexivity|]. intros Hroom.
    cbn [snd] in Hroom.
    edestruct Hkeep as [Hincl Hin]; [|exact Hroom|]; [reflexivity|].
    split; [exact Hincl|]. split; [constructor|]. intros ev [].
Qed.

#[local] Hint Resolve emits_seen_tail : emits.

Lemma emits_emit_sample r qs hash statement plan :
  obeys_in emits_once (emit_sample r qs hash statement plan).
Proof.
  unfold emit_sample. apply emits_bind; [apply emits_describe_plan|].
  intros [[oplan psig] cost]. apply emits_seen_tail.
Qed.

#[local] Hint Resolve emits_emit_sample : emits.

Lemma emits_collect_plan_for_row r : obeys_in emits_once (collect_plan_for_row r).
Proof. unfold collect_plan_for_row. emits_tac. Qed.

#[local] Hint Resolve emits_collect_plan_for_row : emits.

Lemma emits_collect_plans_for_statements rows :
  obeys_in emits_once (_collect_plans_for_statements rows).
Proof. unfold _collect_plans_for_statements, filter_epilogue. emits_tac. Qed.

#[local] Hint Resolve emits_collect_plans_for_statements : emits.

Lemma emits_collect_statement_samples : obeys_in emits_once _collect_statement_samples.
Proof. unfold _collect_statement_samples. emits_tac. Qed.

Lemma emits_cycles n w self : emits_once w self (cycles n w self).
Proof.
  revert self; induction n as [|n IH]; intros self; simpl.
  - apply emits_once_refl.
  - eapply emits_once_trans; [apply emits_collect_statement_samples | apply IH].
Qed.

Lemma describe_plan_frame plan w s :
  _seen_samples_cache (snd (describe_plan plan w s)) = _seen_samples_cache s
  /\ submitted (snd (describe_plan plan w s)) = submitted s.
Proof.
  destruct plan as [p|]; [|split; reflexivity].
  unfold describe_plan, agent_obfuscate_sql_exec_plan. run.
  destruct (obfuscate_sql_exec_plan _ p true); [|split; reflexivity].
  destruct (obfuscate_sql_exec_plan _ p false); [|split; reflexivity].
  destruct (compute_exec_plan_signature w _); [|split; reflexivity].
  destruct (_parse_execution_plan_cost p); split; reflexivity.
Qed.

(** An event is yielded only for a pair the cache does not hold, and the
    pair is written to the cache as the event is yielded. *)
Lemma emit_sample_writes_pair r qs hash statement plan w s res s' :
  emit_sample r qs hash statement plan w s = (res, s') ->
  submitted s' = submitted s
  \/ exists ev i,
       submitted s' = submitted s ++ [ev]
       /\ db_query_signature ev = qs
       /\ Cache.contains (_seen_samples_cache s) (sample_pair ev)
            (monotonic (answers w i)) = false
       /\ forall t, (t <= monotonic (answers w (S i)) + Cache.ttl (_seen_samples_cache s))%Q ->
                    Cache.contains (_seen_samples_cache s') (sample_pair ev) t = true.
Proof.
  unfold emit_sample. unfold bind at 1.
  pose proof (describe_plan_frame (if plan_truthy plan then plan else None) w s) as [Hc Hs].
  destruct (describe_plan _ w s) as [[[[oplan psig] cost]|e] s1]; simpl in Hc, Hs.
  2:{ intros [= <- <-]. left. exact Hs. }
  rewrite seen_tail_run. cbv zeta. rewrite Hc, Hs.
  destruct (Cache.contains _ _ _) eqn:Econt; [intros [= <- <-]; left; exact Hs|].
  destruct (Cache.set _ _ _ _) as [c'|e] eqn:Eset; [|intros [= <- <-]; left; exact Hs].
  destruct (build_event _ _ _ _ _ _ _) as [ev|e] eqn:Eev;
    [|intros [= <- <-]; left; exact Hs].
  intros [= <- <-]. right. exists ev, (answered s1).
  destruct (build_event_pair _ _ _ _ _ _ _ _ Eev) as (Hpair & _).
  split; [reflexivity|]. split; [apply (f_equal fst) in Hpair; exact Hpair|].
  rewrite Hpair. split; [exact Econt|].
  intros t Ht. cbn [_seen_samples_cache set_submitted set_seen_samples_cache].
  eapply cache_contains_after_set; eauto.
Qed.

(** Within one window, and while the cache is not full, the events a run
    of cycles yields carry distinct pairs, none of them held by the cache
    at the start. *)
Lemma emitted_pairs_distinct n w self :
  one_window w self ->
  seen_size (cycles n w self) < Cache.maxsize (_seen_samples_cache self) ->
  NoDup (map sample_pair (skipn (List.length (submitted self))
                            (submitted (cycles n w self))))
  /\ forall ev, In ev (skipn (List.length (submitted self)) (submitted (cycles n w self))) ->
                ~ In (sample_pair ev) (seen_pairs self).
Proof.
  intros Hwin Hroom.
  destruct (emits_cycles n w self Hwin) as (_ & Hmax & _ & new & Hsub & Hkeep).
  rewrite Hsub, skipn_app_exact.
  destruct Hkeep as (_ & Hnd & Hev); [rewrite Hmax; exact Hroom|].
  split; [exact Hnd|]. intros ev Hin. apply Hev. exact Hin.
Qed.

(** At capacity the de-duplication gives way: with room for one pair in
    the seen-samples cache (and one query in the explained-statements
    cache), a batch holding one statement, another, then the first again
    yields three events at one instant, two of them carrying the same pair:
    the second pair evicted the first. *)
Lemma evicted_pair_is_emitted_again :
  map sample_pair
    (submitted (snd (_collect_plans_for_statements repeating_batch (steady busy_server)
                       tight_instance)))
  = [(Some "select 1", Some "{}"); (Some "select 2", Some "{}");
     (Some "select 1", Some "{}")].
Proof. vm_compute. reflexivity. Qed.

(** [_collect_plans_for_statements] yields an event only if its (query
    signature, plan signature) pair is absent from the seen-samples cache,
    and writes the pair to the cache as it yields the event, to stay for
    one time-to-live; hence, within one time-to-live window and as long as
    the cache has not reached its maximum size, the events yielded by a run
    of cycles carry pairwise distinct pairs, none of them a pair the cache
    held at the start. *)
Theorem one_event_per_pair_while_cached :
  (forall r qs hash statement plan w s res s',
      emit_sample r qs hash statement plan w s = (res, s') ->
      submitted s' = submitted s
      \/ exists ev i,
           submitted s' = submitted s ++ [ev]
           /\ db_query_signature ev = qs
           /\ Cache.contains (_seen_samples_cache s) (sample_pair ev)
                (monotonic (answers w i)) = false
           /\ forall t,
                (t <= monotonic (answers w (S i)) + Cache.ttl (_seen_samples_cache s))%Q ->
                Cache.contains (_seen_samples_cache s') (sample_pair ev) t = true)
  /\ (forall n w self,
        one_window w self ->
        seen_size (cycles n w self) < Cache.maxsize (_seen_samples_cache self) ->
        NoDup (map sample_pair (skipn (List.length (submitted self))
                                  (submitted (cycles n w self))))
        /\ forall ev,
             In ev (skipn (List.length (submitted self)) (submitted (cycles n w self))) ->
             ~ In (sample_pair ev) (seen_pairs self)).
Proof.
  split.
  - intros. eapply emit_sample_writes_pair; eauto.
  - intros. apply emitted_pairs_distinct; assumption.
Qed.

Lemma steady_window env (self : MySQLStatementSamples) :
  (0 <= Cache.ttl (_seen_samples_cache self))%Q ->
  Cache.entries (_seen_samples_cache self) = [] ->
  0 <= Cache.maxsize (_seen_samples_cache self) ->
  one_window (steady env) self.
Proof.
  intros Httl Hempty Hmax. unfold one_window, seen_pairs, seen_size. rewrite Hempty.
  split; [|split; [|split]].
  - intros i j. simpl. rewrite <- (Qplus_0_r (monotonic env)) at 1.
    apply Qplus_le_compat; [apply Qle_refl | exact Httl].
  - intros e [].
  - constructor.
  - simpl. exact Hmax.
Qed.

(** On the busy server, three cycles from a new instance: the window
    holds, the cache stays far from full, and the events carry distinct
    pairs. *)
Lemma one_event_per_pair_while_cached_witness :
  NoDup (map sample_pair (submitted (cycles 3 (steady busy_server) default_instance)))
  /\ (submitted (snd (emit_sample row_after_probe (Some "show tables") (Some "show tables")
                        "show tables" None (steady busy_server) default_instance))
      = submitted default_instance
      \/ exists ev i,
           submitted (snd (emit_sample row_after_probe (Some "show tables")
                             (Some "show tables") "show tables" None
                             (steady busy_server) default_instance))
           = submitted default_instance ++ [ev]
           /\ db_query_signature ev = Some "show tables"
           /\ Cache.contains (_seen_samples_cache default_instance) (sample_pair ev)
                (monotonic (answers (steady busy_server) i)) = false
           /\ forall t,
                (t <= monotonic (answers (steady busy_server) (S i))
                      + Cache.ttl (_seen_samples_cache default_instance))%Q ->
                Cache.contains
                  (_seen_samples_cache
                     (snd (emit_sample row_after_probe (Some "show tables")
                             (Some "show tables") "show tables" None
                             (steady busy_server) default_instance)))
                  (sample_pair ev) t = true).
Proof.
  destruct one_event_per_pair_while_cached as (Hrow & Hrun).
  split.
  - apply (Hrun 3%nat (steady busy_server) default_instance).
    + apply steady_window; [discriminate | reflexivity | discriminate].
    + vm_compute. reflexivity.
  - eapply Hrow. apply surjective_pairing.
Defined.
(* ===================================================================== *)
(** * What every method keeps *)
(* ===================================================================== *)

(** A relation between the state before and after is kept by every method
    as soon as the primitive steps keep it. The steps that are guarded in
    the source (the connection behind [self._db], the update behind the
    auto-enable option, the explain behind [_can_explain], [USE] behind
    [if schema]) enter with their guard. *)
Section Kept.
Variable R : MySQLStatementSamples -> MySQLStatementSamples -> Prop.
Variable may_send : db_call -> Prop.
Hypothesis R_refl : forall s, R s s.
Hypothesis R_trans : forall a b c, R a b -> R b c -> R a c.
Hypothesis R_ask : obeys R ask.
Hypothesis R_sent : forall c, may_send c -> obeys R (sent c).
Hypothesis R_count : forall t, obeys R (count_error t).
Hypothesis R_yield : forall ev, obeys R (yield ev).
Hypothesis R_checkpoint : forall v, obeys R (modify (set_checkpoint v)).
Hypothesis R_rate_limiter : forall v, obeys R (modify (set_rate_limiter v)).
Hypothesis R_strategy_cache : forall c, obeys R (modify (set_collection_strategy_cache c)).
Hypothesis R_explained_cache : forall c, obeys R (modify (set_explained_statements_cache c)).
Hypothesis R_seen_cache : forall c, obeys R (modify (set_seen_samples_cache c)).
Hypothesis R_connection : obeys R _get_db_connection.
Hypothesis R_enable : forall name, obeys R (_performance_schema_enable_consumer name).
Hypothesis R_auto_enable :
  forall name,
    obeys R (auto <- gets _auto_enable_events_statements_consumers ;;
             if negb auto then ret false else _performance_schema_enable_consumer name).
Hypothesis R_emit :
  forall r qs hash statement plan, obeys R (emit_sample r qs hash statement plan).
Hypothesis send_consumers : forall r, may_send (SelectEnabledConsumers r).
Hypothesis send_enable : forall name r, may_send (EnableConsumer name r).
Hypothesis send_fetch : forall table p r, may_send (SelectEventsStatements table p r).
Hypothesis send_notes : forall r, may_send (SetSqlNotes r).
Hypothesis send_use : forall schema r, schema <> "" -> may_send (UseSchema schema r).
Hypothesis send_explain :
  forall strategy statement r,
    _can_explain statement = true -> may_send (Explain strategy statement r).

Ltac kept :=
  repeat first
    [ solve [auto 1]
    | apply R_sent; solve [auto]
    | apply R_count | apply R_yield | apply R_checkpoint | apply R_rate_limiter
    | apply R_strategy_cache | apply R_explained_cache | apply R_seen_cache
    | apply R_enable | apply R_auto_enable | apply R_emit
    | apply (obeys_bind R R_trans); [ | intros ?]
    | apply (obeys_try_except R R_trans); [ | intros ?]
    | apply (obeys_for_each R R_refl R_trans); intros ?
    | apply (obeys_ret R R_refl)
    | apply (obeys_raise R R_refl)
    | apply (obeys_lift R R_refl)
    | apply (obeys_gets R R_refl)
    | apply (obeys_world R R_refl)
    | match goal with
      | |- obeys _ (if ?b then _ else _) => destruct b eqn:?
      | |- obeys _ (match ?x with _ => _ end) => destruct x eqn:?
      | |- obeys _ (let '(_, _) := ?x in _) => destruct x
      end ].

Lemma kept_time_monotonic : obeys R time_monotonic.
Proof. unfold time_monotonic. kept. Qed.

Lemma kept_strategy_cache_get key : obeys R (strategy_cache_get key).
Proof. unfold strategy_cache_get, time_monotonic. kept. Qed.

Lemma kept_strategy_cache_set key v : obeys R (strategy_cache_set key v).
Proof. unfold strategy_cache_set, time_monotonic. kept. Qed.

Lemma kept_explained_statements_contains key : obeys R (explained_statements_contains key).
Proof. unfold explained_statements_contains, time_monotonic. kept. Qed.

Lemma kept_explained_statements_set key : obeys R (explained_statements_set key).
Proof. unfold explained_statements_set, time_monotonic. kept. Qed.

Lemma kept_seen_samples_contains key : obeys R (seen_samples_contains key).
Proof. unfold seen_samples_contains, time_monotonic. kept. Qed.

Lemma kept_seen_samples_set key : obeys R (seen_samples_set key).
Proof. unfold seen_samples_set, time_monotonic. kept. Qed.

Lemma kept_agent_obfuscate_sql text : obeys R (agent_obfuscate_sql text).
Proof. unfold agent_obfuscate_sql. kept. Qed.

Lemma kept_agent_obfuscate_sql_exec_plan plan normalize :
  obeys R (agent_obfuscate_sql_exec_plan plan normalize).
Proof. unfold agent_obfuscate_sql_exec_plan. kept. Qed.

Lemma kept_fetch_with_cursor table row_limit : obeys R (fetch_with_cursor table row_limit).
Proof.
  unfold fetch_with_cursor, execute_events_statements_query, execute_set_sql_notes. kept.
Qed.

Lemma kept_get_new_events_statements table row_limit :
  obeys R (_get_new_events_statements table row_limit).
Proof.
  unfold _get_new_events_statements.
  apply (obeys_bind R R_trans); [exact R_connection | intros _].
  apply kept_fetch_with_cursor.
Qed.

Lemma kept_enable_consumer name :
  obeys R (_performance_schema_enable_consumer name).
Proof.
  unfold _performance_schema_enable_consumer, execute_enable_consumer.
  clear R_enable R_auto_enable. kept.
Qed.

Lemma kept_on_database_error key tag e : obeys R (on_database_error key tag e).
Proof.
  unfold on_database_error. pose proof kept_strategy_cache_set. kept.
Qed.

Lemma kept_switch_to_schema schema : obeys R (switch_to_schema schema).
Proof.
  unfold switch_to_schema, execute_use. destruct schema as [s|]; [|kept].
  destruct (s =? "")%string eqn:Es; [kept|].
  apply String.eqb_neq in Es. kept.
Qed.

Lemma kept_try_strategy key statement strategy :
  _can_explain statement = true -> obeys R (try_strategy key statement strategy).
Proof.
  intros Hcan. unfold try_strategy, _explain_strategies.
  pose proof kept_strategy_cache_set. pose proof kept_on_database_error. kept.
Qed.

Lemma kept_try_strategies key statement strategies :
  _can_explain statement = true -> obeys R (try_strategies key statement strategies).
Proof.
  intros Hcan. induction strategies as [|s rest IH]; simpl.
  - kept.
  - apply (obeys_bind R R_trans); [apply kept_try_strategy, Hcan | intros [p|]]; kept.
Qed.

Lemma kept_explain_statement statement schema :
  obeys R (_explain_statement statement schema).
Proof.
  unfold _explain_statement.
  apply (obeys_bind R R_trans); [apply kept_agent_obfuscate_sql | intros _].
  destruct (_can_explain statement) eqn:Hcan; cbn [negb]; [|kept].
  pose proof kept_strategy_cache_get. pose proof kept_on_database_error.
  pose proof kept_switch_to_schema.
  pose proof (fun key l => kept_try_strategies key statement l Hcan).
  kept.
Qed.

Lemma kept_explain_statement_safe statement schema :
  obeys R (_explain_statement_safe statement schema).
Proof.
  unfold _explain_statement_safe. pose proof kept_explain_statement. kept.
Qed.

Lemma kept_describe_plan plan : obeys R (describe_plan plan).
Proof.
  unfold describe_plan. pose proof kept_agent_obfuscate_sql_exec_plan. kept.
Qed.

(** An event may be yielded whatever it holds. *)
Lemma kept_emit_sample r qs hash statement plan :
  obeys R (emit_sample r qs hash statement plan).
Proof.
  unfold emit_sample. clear R_emit.
  pose proof kept_describe_plan. pose proof kept_seen_samples_contains.
  pose proof kept_seen_samples_set. kept.
Qed.

Lemma kept_collect_plan_for_row r : obeys R (collect_plan_for_row r).
Proof.
  unfold collect_plan_for_row.
  pose proof kept_agent_obfuscate_sql. pose proof kept_explained_statements_contains.
  pose proof kept_explained_statements_set. pose proof kept_explain_statement_safe.
  kept.
Qed.

Lemma kept_collect_plans_for_statements rows :
  obeys R (_collect_plans_for_statements rows).
Proof.
  unfold _collect_plans_for_statements, filter_epilogue.
  pose proof kept_collect_plan_for_row. kept.
Qed.

Lemma kept_get_enabled_performance_schema_consumers :
  obeys R _get_enabled_performance_schema_consumers.
Proof.
  unfold _get_enabled_performance_schema_consumers, execute_select_consumers. kept.
Qed.

Lemma kept_choose_table enabled tables : obeys R (choose_table enabled tables).
Proof.
  induction tables as [|t rest IH]; simpl; [kept|].
  pose proof kept_get_new_events_statements. kept.
Qed.

Lemma kept_get_sample_collection_strategy : obeys R _get_sample_collection_strategy.
Proof.
  unfold _get_sample_collection_strategy.
  pose proof kept_strategy_cache_get. pose proof kept_strategy_cache_set.
  pose proof kept_get_enabled_performance_schema_consumers. pose proof kept_choose_table.
  kept.
Qed.

Lemma kept_collect_statement_samples : obeys R _collect_statement_samples.
Proof.
  unfold _collect_statement_samples.
  pose proof kept_get_sample_collection_strategy.
  pose proof kept_get_new_events_statements.
  pose proof kept_collect_plans_for_statements. kept.
Qed.

Lemma kept_cycles n w self : R self (cycles n w self).
Proof.
  revert self; induction n as [|n IH]; intros self; simpl.
  - apply R_refl.
  - eapply R_trans; [apply kept_collect_statement_samples | apply IH].
Qed.
End Kept.
(* ===================================================================== *)
(** * What a run of cycles never sends *)
(* ===================================================================== *)

Lemma sends_only_refl P s : sends_only P s s.
Proof. exists []. split; [symmetry; apply app_nil_r | constructor]. Qed.

Lemma sends_only_trans P a b c : sends_only P a b -> sends_only P b c -> sends_only P a c.
Proof.
  intros (l1 & H1 & F1) (l2 & H2 & F2). exists (l1 ++ l2). split.
  - rewrite H2, H1, app_assoc. reflexivity.
  - apply Forall_app. split; assumption.
Qed.

Lemma sends_only_frame P s s' : cursor_log s' = cursor_log s -> sends_only P s s'.
Proof. intros H. exists []. split; [rewrite H; symmetry; apply app_nil_r | constructor]. Qed.

Lemma sends_only_one P s s' call :
  cursor_log s' = cursor_log s ++ [call] -> P call -> sends_only P s s'.
Proof. intros Hl H. exists [call]. split; [exact Hl | constructor; [exact H | constructor]]. Qed.

Lemma sends_only_sent P s call :
  P call -> sends_only P s (set_cursor_log (cursor_log s ++ [call]) s).
Proof. apply sends_only_one. reflexivity. Qed.

(** ** Statements are sent behind their guards *)

Lemma guarded_frame (f : MySQLStatementSamples -> MySQLStatementSamples) :
  (forall s, cursor_log (f s) = cursor_log s) -> obeys (sends_only guarded) (modify f).
Proof. intros Hf w s. apply sends_only_frame, Hf. Qed.

Lemma guarded_connection : obeys (sends_only guarded) _get_db_connection.
Proof.
  intros w s. rewrite get_db_connection_run. destruct (_db s); [apply sends_only_refl|].
  cbv zeta. destruct (connect _); eapply sends_only_one; try reflexivity; exact I.
Qed.

Lemma guarded_cycles n w self : sends_only guarded self (cycles n w self).
Proof.
  pose proof (sends_only_refl guarded) as Hrefl.
  pose proof (sends_only_trans guarded) as Htrans.
  assert (Hsent : forall c, guarded c -> obeys (sends_only guarded) (sent c))
    by (intros c Hc w0 s; apply sends_only_sent, Hc).
  assert (Hask : obeys (sends_only guarded) ask)
    by (intros w0 s; apply sends_only_frame; reflexivity).
  pose proof guarded_connection as Hconn.
  assert (Henable : forall name,
            obeys (sends_only guarded) (_performance_schema_enable_consumer name))
    by (apply (kept_enable_consumer _ guarded); try assumption; intros; exact I).
  assert (Hemit : forall r qs hash statement plan,
            obeys (sends_only guarded) (emit_sample r qs hash statement plan))
    by (apply kept_emit_sample; try assumption; intros; apply guarded_frame; reflexivity).
  apply (kept_cycles _ guarded); try assumption;
    try (intros; apply guarded_frame; reflexivity); try (intros; exact I).
  - intros name. apply obeys_bind; [assumption | apply obeys_gets, Hrefl|].
    intros [|]; simpl; [apply Henable | apply obeys_ret, Hrefl].
  - intros schema r H. exact H.
  - intros strategy statement r H. exact H.
Qed.

(** ** The connection is made once *)

Lemma stays_connected_refl s : stays_connected s s.
Proof. intros H. split; [exact H | apply sends_only_refl]. Qed.

Lemma stays_connected_trans a b c :
  stays_connected a b -> stays_connected b c -> stays_connected a c.
Proof.
  intros Hab Hbc Ha. destruct (Hab Ha) as [Hb Sab]. destruct (Hbc Hb) as [Hc Sbc].
  split; [exact Hc | eapply sends_only_trans; eassumption].
Qed.

Lemma stays_connected_frame (f : MySQLStatementSamples -> MySQLStatementSamples) :
  (forall s, _db (f s) = _db s) ->
  (forall s, cursor_log (f s) = cursor_log s) ->
  obeys stays_connected (modify f).
Proof.
  intros Hd Hl w s H. simpl. split; [rewrite Hd; exact H | apply sends_only_frame, Hl].
Qed.

Lemma stays_connected_sent call :
  is_connect call = false -> obeys stays_connected (sent call).
Proof. intros Hc w s H. simpl. split; [exact H | apply sends_only_sent, Hc]. Qed.

Lemma stays_connected_connection : obeys stays_connected _get_db_connection.
Proof.
  intros w s H. rewrite get_db_connection_run, H. simpl.
  split; [exact H | apply sends_only_refl].
Qed.

Lemma stays_connected_cycles n w self : stays_connected self (cycles n w self).
Proof.
  pose proof stays_connected_refl as Hrefl.
  pose proof stays_connected_trans as Htrans.
  pose proof stays_connected_sent as Hsent.
  pose proof stays_connected_connection as Hconn.
  assert (Hask : obeys stays_connected ask)
    by (intros w0 s H; simpl; split; [exact H | apply sends_only_frame; reflexivity]).
  assert (Henable : forall name,
            obeys stays_connected (_performance_schema_enable_consumer name))
    by (apply (kept_enable_consumer _ (fun c => is_connect c = false));
        try assumption; reflexivity).
  assert (Hemit : forall r qs hash statement plan,
            obeys stays_connected (emit_sample r qs hash statement plan))
    by (apply kept_emit_sample; try assumption;
        intros; apply stays_connected_frame; reflexivity).
  apply (kept_cycles _ (fun c => is_connect c = false)); try assumption;
    try (intros; apply stays_connected_frame; reflexivity); try reflexivity.
  intros name. apply obeys_bind; [assumption | apply obeys_gets, Hrefl|].
  intros [|]; simpl; [apply Henable | apply obeys_ret, Hrefl].
Qed.

(** ** No consumer is updated while auto-enabling is off *)

Lemma never_updates_refl s : never_updates_consumers s s.
Proof. split; [reflexivity | intros _; apply sends_only_refl]. Qed.

Lemma never_updates_trans a b c :
  never_updates_consumers a b -> never_updates_consumers b c ->
  never_updates_consumers a c.
Proof.
  intros [Eab Sab] [Ebc Sbc]. split; [congruence|].
  intros Ha. eapply sends_only_trans; [apply Sab, Ha | apply Sbc; congruence].
Qed.

Lemma never_updates_frame (f : MySQLStatementSamples -> MySQLStatementSamples) :
  (forall s, _auto_enable_events_statements_consumers (f s)
             = _auto_enable_events_statements_consumers s) ->
  (forall s, cursor_log (f s) = cursor_log s) ->
  obeys never_updates_consumers (modify f).
Proof.
  intros Ha Hl w s. simpl. split; [apply Ha | intros _; apply sends_only_frame, Hl].
Qed.

Lemma never_updates_sent call :
  is_consumer_update call = false -> obeys never_updates_consumers (sent call).
Proof. intros Hc w s. simpl. split; [reflexivity | intros _; apply sends_only_sent, Hc]. Qed.

Lemma never_updates_connection : obeys never_updates_consumers _get_db_connection.
Proof.
  intros w s. rewrite get_db_connection_run. destruct (_db s); [apply never_updates_refl|].
  cbv zeta. destruct (connect _); (split; [reflexivity | intros _]);
    eapply sends_only_one; reflexivity.
Qed.

(** The update itself leaves the option as it is. *)
Lemma enable_consumer_keeps_option name w s :
  _auto_enable_events_statements_consumers
    (snd (_performance_schema_enable_consumer name w s))
  = _auto_enable_events_statements_consumers s.
Proof.
  set (R := fun a b : MySQLStatementSamples =>
              _auto_enable_events_statements_consumers b
              = _auto_enable_events_statements_consumers a).
  assert (Hconn : obeys R _get_db_connection).
  { intros w0 s0. unfold R. rewrite get_db_connection_run. destruct (_db s0); [reflexivity|].
    cbv zeta. destruct (connect _); reflexivity. }
  apply (kept_enable_consumer R (fun _ => True)); unfold R; try (intros; exact I);
    try exact Hconn.
  - reflexivity.
  - intros a b c. congruence.
  - intros w0 s0. reflexivity.
  - intros c _ w0 s0. reflexivity.
Qed.

Lemma never_updates_cycles n w self : never_updates_consumers self (cycles n w self).
Proof.
  pose proof never_updates_refl as Hrefl.
  pose proof never_updates_trans as Htrans.
  pose proof never_updates_sent as Hsent.
  pose proof never_updates_connection as Hconn.
  assert (Hask : obeys never_updates_consumers ask)
    by (intros w0 s; split; [reflexivity | intros _; apply sends_only_frame; reflexivity]).
  assert (Hemit : forall r qs hash statement plan,
            obeys never_updates_consumers (emit_sample r qs hash statement plan))
    by (apply kept_emit_sample; try assumption;
        intros; apply never_updates_frame; reflexivity).
  apply (kept_cycles _ (fun c => is_consumer_update c = false)); try assumption;
    try (intros; apply never_updates_frame; reflexivity); try reflexivity.
  intros name w0 s. unfold bind, gets.
  destruct (_auto_enable_events_statements_consumers s) eqn:Eauto; simpl.
  - split; [apply enable_consumer_keeps_option | congruence].
  - apply never_updates_refl.
Qed.
(* ===================================================================== *)
(** * What the events hold *)
(* ===================================================================== *)

Lemma yields_only_refl P s : yields_only P s s.
Proof. exists []. split; [symmetry; apply app_nil_r | constructor]. Qed.

Lemma yields_only_trans P a b c : yields_only P a b -> yields_only P b c -> yields_only P a c.
Proof.
  intros (l1 & H1 & F1) (l2 & H2 & F2). exists (l1 ++ l2). split.
  - rewrite H2, H1, app_assoc. reflexivity.
  - apply Forall_app. split; assumption.
Qed.

Lemma yields_only_frame P (f : MySQLStatementSamples -> MySQLStatementSamples) :
  (forall s, submitted (f s) = submitted s) -> obeys (yields_only P) (modify f).
Proof.
  intros Hf w s. exists []. split; [simpl; rewrite Hf; symmetry; apply app_nil_r | constructor].
Qed.

Lemma yields_only_weaken (P Q : event -> Prop) s s' :
  (forall ev, P ev -> Q ev) -> yields_only P s s' -> yields_only Q s s'.
Proof.
  intros HPQ (new & Hs & Hall). exists new. split; [exact Hs|].
  eapply Forall_impl; [exact HPQ | exact Hall].
Qed.

(** A dictionary comprehension that drops the keys of [excluded]. *)
Lemma lookup_without_keys (excluded : list string) key (r : row) :
  lookup key (filter (fun kv => negb (mem_string (fst kv) excluded)) r)
  = if mem_string key excluded then None else lookup key r.
Proof.
  induction r as [|[k v] r IH]; simpl.
  - destruct (mem_string key excluded); reflexivity.
  - destruct (k =? key)%string eqn:Ek.
    + apply String.eqb_eq in Ek. subst k.
      destruct (mem_string key excluded) eqn:Em; simpl.
      * rewrite IH, ?Em. reflexivity.
      * rewrite String.eqb_refl. reflexivity.
    + destruct (mem_string k excluded); simpl; [exact IH|].
      rewrite Ek. exact IH.
Qed.

Lemma mem_string_In s l : mem_string s l = true <-> In s l.
Proof.
  unfold mem_string. rewrite existsb_exists. split.
  - intros (x & Hin & Heq). apply String.eqb_eq in Heq. subst. exact Hin.
  - intros Hin. exists s. split; [exact Hin | apply String.eqb_refl].
Qed.

(** The event built for a row: its [mysql] section is the row less the
    excluded columns, and its other fields are the row's and the
    arguments'. *)
Lemma build_event_fields r qs hash stmt oplan cost psig ev :
  build_event r qs hash stmt oplan cost psig = Return ev ->
  (forall key, lookup key (mysql ev)
               = if mem_string key EVENTS_STATEMENTS_SAMPLE_EXCLUDE_KEYS then None
                 else lookup key r)
  /\ db_plan_definition ev = oplan /\ db_plan_cost ev = cost /\ db_plan_signature ev = psig
  /\ db_query_signature ev = qs /\ db_resource_hash ev = hash /\ db_statement ev = stmt
  /\ lookup "timer_wait_ns" r = Some (duration ev)
  /\ lookup "current_schema" r = Some (opt_str (db_instance ev))
  /\ network_client_ip ev = dict_get r "processlist_host" PNone
  /\ exists end_time, lookup "timer_end_time_s" r = Some end_time
                      /\ times1000 end_time = Return (timestamp ev).
Proof.
  unfold build_event, getitem.
  destruct (lookup "timer_end_time_s" r) as [v1|]; [|discriminate]. cbn [result_bind].
  destruct (times1000 v1) as [ts|] eqn:Ets; [|discriminate]. cbn [result_bind].
  destruct (lookup "timer_wait_ns" r) as [wait|]; [|discriminate]. cbn [result_bind].
  destruct (lookup "current_schema" r) as [v2|]; [|discriminate]. cbn [result_bind].
  destruct (as_optional_text v2) as [schema|] eqn:Es; [|discriminate]. cbn [result_bind].
  intros [= <-].
  cbn [mysql db_plan_definition db_plan_cost db_plan_signature db_query_signature
       db_resource_hash db_statement duration db_instance network_client_ip timestamp].
  split; [intros key; exact (lookup_without_keys EVENTS_STATEMENTS_SAMPLE_EXCLUDE_KEYS key r)|].
  repeat split.
  - destruct v2; try discriminate; injection Es as <-; reflexivity.
  - exists v1. split; [reflexivity | exact Ets].
Qed.

(** Whether the event can be built depends on the row alone. *)
Lemma build_event_fails_on_the_row r qs hash stmt oplan cost psig qs' hash' stmt' oplan'
  cost' psig' e :
  build_event r qs hash stmt oplan cost psig = Raise e ->
  build_event r qs' hash' stmt' oplan' cost' psig' = Raise e.
Proof.
  unfold build_event.
  destruct (getitem r "timer_end_time_s") as [v1|]; [|exact (fun H => H)].
  cbn [result_bind].
  destruct (times1000 v1); [|exact (fun H => H)]. cbn [result_bind].
  destruct (getitem r "timer_wait_ns"); [|exact (fun H => H)]. cbn [result_bind].
  destruct (getitem r "current_schema") as [v2|]; [|exact (fun H => H)]. cbn [result_bind].
  destruct (as_optional_text v2); [discriminate | exact (fun H => H)].
Qed.

(** The plan described: whole, or absent. *)
Lemma describe_plan_shape plan w s oplan psig cost s' :
  describe_plan plan w s = (Return (oplan, psig, cost), s') ->
  submitted s' = submitted s
  /\ match oplan with
     | Some _ => plan <> None /\ exists c, cost = Some c
     | None => plan = None /\ cost = None /\ psig = None
     end.
Proof.
  destruct plan as [p|].
  - unfold describe_plan, agent_obfuscate_sql_exec_plan. run.
    destruct (obfuscate_sql_exec_plan _ p true); [|discriminate].
    destruct (obfuscate_sql_exec_plan _ p false); [|discriminate].
    destruct (compute_exec_plan_signature w _); [|discriminate].
    destruct (_parse_execution_plan_cost p) as [c|]; [|discriminate].
    intros [= <- <- <- <-]. split; [reflexivity|]. split; [discriminate | eauto].
  - intros [= <- <- <- <-]. auto.
Qed.

Lemma emit_sample_yields r qs hash statement plan w s res s' :
  emit_sample r qs hash statement plan w s = (res, s') ->
  submitted s' = submitted s
  \/ exists ev, submitted s' = submitted s ++ [ev]
                /\ leaves_out_excluded ev /\ plan_whole_or_absent ev
                /\ (plan_truthy plan = false -> db_plan_definition ev = None).
Proof.
  unfold emit_sample. unfold bind at 1.
  pose proof (describe_plan_frame (if plan_truthy plan then plan else None) w s) as [Hc Hs].
  destruct (describe_plan _ w s) as [[[[oplan psig] cost]|e] s1] eqn:Ed; simpl in Hc, Hs.
  2:{ intros [= <- <-]. left. exact Hs. }
  apply describe_plan_shape in Ed. destruct Ed as [_ Hshape].
  rewrite seen_tail_run. cbv zeta. rewrite Hc, Hs.
  destruct (Cache.contains _ _ _); [intros [= <- <-]; left; exact Hs|].
  destruct (Cache.set _ _ _ _) as [c'|e]; [|intros [= <- <-]; left; exact Hs].
  destruct (build_event _ _ _ _ _ _ _) as [ev|e] eqn:Eev;
    [|intros [= <- <-]; left; exact Hs].
  intros [= <- <-]. right. exists ev. split; [reflexivity|].
  apply build_event_fields in Eev.
  destruct Eev as (Hmysql & Hdef & Hcost & Hsig & _).
  split; [|split].
  - intros key Hin. rewrite Hmysql. apply mem_string_In in Hin. rewrite Hin. reflexivity.
  - unfold plan_whole_or_absent. rewrite Hdef, Hcost, Hsig.
    destruct oplan; [apply Hshape | split; apply Hshape].
  - intros Hfalsy. rewrite Hdef. rewrite Hfalsy in Hshape.
    destruct oplan; [destruct Hshape as [Hno _]; congruence | reflexivity].
Qed.

Lemma well_formed_events n w self :
  yields_only (fun ev => leaves_out_excluded ev /\ plan_whole_or_absent ev)
    self (cycles n w self).
Proof.
  set (P := fun ev => leaves_out_excluded ev /\ plan_whole_or_absent ev).
  pose proof (yields_only_refl P) as Hrefl.
  pose proof (yields_only_trans P) as Htrans.
  assert (Hask : obeys (yields_only P) ask)
    by (intros w0 s; exists []; split; [symmetry; apply app_nil_r | constructor]).
  assert (Hsent : forall c, True -> obeys (yields_only P) (sent c))
    by (intros c _; apply yields_only_frame; reflexivity).
  assert (Hconn : obeys (yields_only P) _get_db_connection).
  { intros w0 s. rewrite get_db_connection_run. destruct (_db s); [apply Hrefl|].
    cbv zeta. exists []. split; [|constructor].
    destruct (connect _); simpl; symmetry; apply app_nil_r. }
  assert (Henable : forall name,
            obeys (yields_only P) (_performance_schema_enable_consumer name))
    by (apply (kept_enable_consumer _ (fun _ => True)); try assumption; intros; exact I).
  apply (kept_cycles _ (fun _ => True)); try assumption;
    try (intros; apply yields_only_frame; reflexivity); try (intros; exact I).
  - intros name. apply obeys_bind; [assumption | apply obeys_gets, Hrefl|].
    intros [|]; simpl; [apply Henable | apply obeys_ret, Hrefl].
  - intros r qs hash statement plan w0 s.
    destruct (emit_sample r qs hash statement plan w0 s) as [res s'] eqn:Erun.
    apply emit_sample_yields in Erun. simpl.
    destruct Erun as [Hs | (ev & Hs & Hex & Hplan & _)].
    + exists []. split; [rewrite Hs; symmetry; apply app_nil_r | constructor].
    + exists [ev]. split; [exact Hs | constructor; [split; assumption | constructor]].
Qed.
(* ===================================================================== *)
(** * The filter as a function of the batch *)
(* ===================================================================== *)

(** When no row makes the filter raise, it yields the forwarded rows in
    the order of the batch and ends with their number and the number of
    cut rows, each added to the counter it started from. *)
Lemma filter_rows_from_returns rows num_sent num_truncated sent truncated :
  ending (filter_rows_from rows num_sent num_truncated) = Return (sent, truncated) ->
  yields (filter_rows_from rows num_sent num_truncated) = filter forwarded rows
  /\ sent = (num_sent + List.length (filter forwarded rows))%nat
  /\ truncated = (num_truncated + List.length (filter cut rows))%nat.
Proof.
  revert num_sent num_truncated.
  induction rows as [|r rows IH]; intros num_sent num_truncated; simpl.
  - intros [= <- <-]. rewrite !Nat.add_0_r. auto.
  - set (F := filter forwarded rows) in *. set (C := filter cut rows) in *.
    unfold forwarded, cut, has_columns, statement_text, getitem.
    destruct r as [|kv r']; [simpl; apply IH|].
    cbn [is_nil negb orb andb].
    destruct (all_keys (kv :: r')); cbn [negb orb andb]; [|apply IH].
    destruct (lookup "sql_text" (kv :: r')) as [v|]; [|simpl; discriminate].
    destruct v as [|b|z|f|s]; cbn [truthy negb];
      try (destruct b); try (destruct (z =? 0)%Z); try (destruct (float_truthy f));
      cbn [negb ending]; try discriminate; try apply IH.
    destruct (s =? "")%string; cbn [negb]; [apply IH|].
    destruct (last3 s =? "...")%string; simpl.
    + intros H. apply IH in H. destruct H as (Hy & Hs & Ht).
      repeat split; [exact Hy | exact Hs | lia].
    + intros H. apply IH in H. destruct H as (Hy & Hs & Ht).
      repeat split; [rewrite Hy; reflexivity | lia | exact Ht].
Qed.

(** A batch of cut rows only: nothing is yielded. *)
Lemma filter_cut_rows rows num_sent num_truncated :
  Forall (fun r => cut r = true) rows ->
  filter_rows_from rows num_sent num_truncated
  = {| yields := []; ending := Return (num_sent, (num_truncated + List.length rows)%nat) |}.
Proof.
  intros Hall. revert num_truncated.
  induction Hall as [|r rows Hr _ IH]; intros num_truncated; simpl.
  - rewrite Nat.add_0_r. reflexivity.
  - unfold cut, has_columns, statement_text in Hr. unfold getitem.
    destruct r as [|kv r']; [discriminate|]. cbn [is_nil negb andb orb] in *.
    destruct (all_keys (kv :: r')); [|discriminate]. cbn [negb andb orb] in *.
    destruct (lookup "sql_text" (kv :: r')) as [[| | | |s]|]; try discriminate.
    cbn [truthy]. destruct (s =? "")%string; [discriminate|]. cbn [negb].
    rewrite Hr. rewrite IH. f_equal. f_equal. f_equal. lia.
Qed.
(* ===================================================================== *)
(** * The answer of the statement-history query *)
(* ===================================================================== *)

Lemma insert_by_wait_descending e l : descending l -> descending (insert_by_wait e l).
Proof.
  induction l as [|x l IH]; simpl.
  - intros _. split; [intros e' [] | exact I].
  - intros [Hx Hl]. destruct (wait_geb e x) eqn:Ex; simpl.
    + split; [|split; assumption].
      intros e' [<-|Hin]; [exact Ex|].
      eapply wait_geb_trans; [exact Ex | apply Hx, Hin].
    + split; [|apply IH, Hl].
      intros e' Hin. apply insert_by_wait_In in Hin. destruct Hin as [->|Hin].
      * apply wait_geb_total, Ex.
      * apply Hx, Hin.
Qed.

Lemma order_by_descending l : descending (order_by_timer_wait_desc l).
Proof.
  unfold order_by_timer_wait_desc. induction l as [|x l IH]; simpl; [exact I|].
  apply insert_by_wait_descending, IH.
Qed.

(** In a descending list, what [LIMIT] keeps waited at least as long as
    what it cuts off. *)
Lemma descending_limit n l x y :
  descending l -> In x (firstn n l) -> In y (skipn n l) -> wait_geb x y = true.
Proof.
  revert l; induction n as [|n IH]; intros [|e l]; simpl; try tauto.
  intros [He Hl] [<-|Hx] Hy.
  - apply He. eapply In_skipn, Hy.
  - eapply IH; eassumption.
Qed.

Lemma select_columns_has_columns e : has_columns (select_columns e) = true.
Proof. reflexivity. Qed.

(** A row of the answer: its text and its digest are strings, never NULL,
    it started above the checkpoint, and every column has a name. *)
Lemma query_row_columns p table r :
  In r (EVENTS_STATEMENTS_QUERY p table) ->
  exists text digest start,
    lookup "sql_text" r = Some (PStr text)
    /\ lookup "digest_text" r = Some (PStr digest)
    /\ lookup "timer_start" r = Some (PInt start)
    /\ checkpoint_param p < start
    /\ has_columns r = true.
Proof.
  intros Hr. destruct (query_row_origin _ _ _ Hr) as (e & -> & _ & Hw).
  destruct (where_clause_timer_start _ _ Hw) as (t & Ht & Hlt).
  unfold where_clause in Hw. rewrite !andb_true_iff in Hw.
  destruct Hw as [[[Htext _] _] _].
  destruct (sql_text e) as [text|] eqn:Etext; [|discriminate].
  exists text, (match digest_text e with Some d => d | None => text end), t.
  split; [simpl; rewrite Etext; reflexivity|].
  split; [simpl; rewrite Etext; destruct (digest_text e); reflexivity|].
  split; [rewrite select_columns_timer_start, Ht; reflexivity|].
  split; [exact Hlt | apply select_columns_has_columns].
Qed.

Lemma query_row_limit p table :
  (List.length (EVENTS_STATEMENTS_QUERY p table) <= Z.to_nat (limit_param p))%nat.
Proof.
  unfold EVENTS_STATEMENTS_QUERY. rewrite length_map. apply firstn_le_length.
Qed.
(* ===================================================================== *)
(** * The explain engine: what a plan leaves behind *)
(* ===================================================================== *)

(** The handler of a database error never makes a plan. *)
Lemma handler_gives_no_plan key tag e w s (p : string) s' :
  (on_database_error key tag e ;; ret (@None string)) w s <> (Return (Some p), s').
Proof.
  unfold bind. destruct (on_database_error key tag e w s) as [[[]|e'] s1]; discriminate.
Qed.

(** An attempt that returns a plan: the mechanism answered with it, it is
    not empty, and the mechanism was written to the cache as the schema's
    working strategy at the next reading of the clock. *)
Lemma try_strategy_found key statement strategy w s p s' :
  try_strategy key statement strategy w s = (Return (Some p), s') ->
  p <> ""
  /\ explain (answers w (answered s)) strategy statement = Return (Some p)
  /\ cursor_log s' = cursor_log s ++ [Explain strategy statement (Return (Some p))]
  /\ counted s' = counted s
  /\ Cache.set (_collection_strategy_cache s) key (ExplainStrategy strategy)
       (monotonic (answers w (S (answered s)))) = Return (_collection_strategy_cache s').
Proof.
  unfold try_strategy, try_except. unfold bind at 1. rewrite explain_strategies_run.
  destruct (explain (answers w (answered s)) strategy statement) as [plan|e] eqn:Ea.
  2:{ intros H. exfalso. eapply handler_gives_no_plan, H. }
  destruct (plan_truthy plan) eqn:Ep.
  2:{ unfold ret. discriminate. }
  unfold bind. rewrite strategy_cache_set_run.
  cbn [_collection_strategy_cache set_cursor_log set_answered answered].
  destruct (Cache.set _ _ _ _) as [c'|e] eqn:Eset.
  - unfold ret. intros [= -> <-]. simpl.
    split; [intros ->; discriminate Ep|].
    repeat split; try reflexivity; assumption.
  - fold (bind (on_database_error key (ExplainAttempt strategy) e)
            (fun _ => ret (@None string))).
    intros H. exfalso. eapply handler_gives_no_plan, H.
Qed.

(** A loop that returns a plan: some mechanism of the list answered with
    it on the last attempt of the log. *)
Lemma try_strategies_found key statement strategies w s p s' :
  try_strategies key statement strategies w s = (Return (Some p), s') ->
  exists strategy before k,
    In strategy strategies
    /\ p <> ""
    /\ (exists n, explain (answers w n) strategy statement = Return (Some p))
    /\ cursor_log s' = before ++ [Explain strategy statement (Return (Some p))]
    /\ (forall t, (t <= monotonic (answers w k)
                        + Cache.ttl (_collection_strategy_cache s'))%Q ->
                  Cache.get (_collection_strategy_cache s') key t
                  = Some (ExplainStrategy strategy)).
Proof.
  revert s. induction strategies as [|strategy rest IH]; intros s; simpl.
  - unfold ret. discriminate.
  - unfold bind.
    destruct (try_strategy key statement strategy w s) as [[[found|]|e] s1] eqn:Etry;
      [| |discriminate].
    + unfold ret. intros [= -> <-].
      apply try_strategy_found in Etry.
      destruct Etry as (Hp & Ha & Hlog & _ & Hset).
      exists strategy, (cursor_log s), (S (answered s)).
      split; [left; reflexivity|]. split; [exact Hp|].
      split; [exists (answered s); exact Ha|]. split; [exact Hlog|].
      intros t Ht. eapply cache_get_after_set; [exact Hset|].
      destruct (cache_set_bounds _ _ _ _ _ Hset) as [_ Httl]. rewrite <- Httl. exact Ht.
    + intros H. apply IH in H. destruct H as (st & before & k & Hin & H).
      exists st, before, k. split; [right; exact Hin | exact H].
Qed.

Lemma explain_statement_found statement schema w s p s' :
  _explain_statement statement schema w s = (Return (Some p), s') ->
  exists strategy before k,
    p <> ""
    /\ _can_explain statement = true
    /\ (exists n, explain (answers w n) strategy statement = Return (Some p))
    /\ cursor_log s' = before ++ [Explain strategy statement (Return (Some p))]
    /\ (forall t, (t <= monotonic (answers w k)
                        + Cache.ttl (_collection_strategy_cache s'))%Q ->
                  Cache.get (_collection_strategy_cache s') (strategy_cache_key schema) t
                  = Some (ExplainStrategy strategy)).
Proof.
  unfold _explain_statement. unfold bind at 1. rewrite agent_obfuscate_sql_run.
  destruct (obfuscate_sql _ statement); [|discriminate].
  destruct (_can_explain statement) eqn:Hcan; cbn [negb]; [|unfold ret; discriminate].
  unfold bind at 1. rewrite strategy_cache_get_run.
  destruct (is_explain_error _); [unfold ret; discriminate|].
  unfold bind at 1.
  destruct (try_except _ _ w _) as [[[|]|e] s1]; cbn [negb];
    [|unfold ret; discriminate|discriminate].
  unfold bind at 1. unfold gets at 1. unfold bind at 1. rewrite strategy_cache_get_run.
  unfold bind at 1. unfold lift at 1.
  destruct (ordered_strategies _ _) as [strategies|e]; [|discriminate].
  intros H. apply try_strategies_found in H.
  destruct H as (st & before & k & _ & Hp & Ha & Hlog & Hget).
  exists st, before, k. auto.
Qed.

(** ** [_explain_statement_safe] *)

Lemma explain_statement_safe_run statement schema w s :
  _db s = true ->
  _explain_statement_safe statement schema w s
  = match _explain_statement statement schema w s with
    | (Return plan, s') => (Return plan, s')
    | (Raise e, s') => (Return None, set_counted (counted s' ++ [ExplainFailed e]) s')
    end.
Proof.
  intros Hdb. unfold _explain_statement_safe. unfold bind at 1.
  rewrite get_db_connection_run, Hdb. unfold try_except.
  destruct (_explain_statement statement schema w s) as [[plan|e] s']; reflexivity.
Qed.

(** ** [_performance_schema_enable_consumer] *)

Lemma enable_consumer_run name w s :
  _db s = true ->
  _performance_schema_enable_consumer name w s
  = let answer := update_setup_consumers (answers w (answered s)) name in
    (match answer with
     | Return _ => Return true
     | Raise (DatabaseError []) => Raise (OtherError "IndexError")
     | Raise (DatabaseError (_ :: _)) => Return false
     | Raise e => Raise e
     end,
     set_cursor_log (cursor_log s ++ [EnableConsumer name answer])
       (set_answered (S (answered s)) s)).
Proof.
  intros Hdb. unfold _performance_schema_enable_consumer, execute_enable_consumer.
  unfold bind at 1. rewrite get_db_connection_run, Hdb. unfold try_except. run. cbv zeta.
  destruct (update_setup_consumers _ name) as [[]|[[|a args]| | | | | |]]; reflexivity.
Qed.
(* ===================================================================== *)
(** * The fields a method leaves alone *)
(* ===================================================================== *)

(** A field that the primitive writes of a method leave alone is left
    alone by the method. *)
Section Untouched.
Context {T : Type}.
Variable field : MySQLStatementSamples -> T.
Hypothesis not_answered : forall v s, field (set_answered v s) = field s.
Hypothesis not_cursor_log : forall v s, field (set_cursor_log v s) = field s.
Hypothesis not_db : forall v s, field (set_db v s) = field s.
Hypothesis not_checkpoint : forall v s, field (set_checkpoint v s) = field s.
Hypothesis not_counted : forall v s, field (set_counted v s) = field s.
Hypothesis not_submitted : forall v s, field (set_submitted v s) = field s.
Hypothesis not_strategy_cache :
  forall v s, field (set_collection_strategy_cache v s) = field s.
Hypothesis not_seen_cache : forall v s, field (set_seen_samples_cache v s) = field s.
Hypothesis not_explained_cache :
  forall v s, field (set_explained_statements_cache v s) = field s.
Hypothesis not_rate_limiter : forall v s, field (set_rate_limiter v s) = field s.

Lemma untouched_refl s : untouched field s s.
Proof. reflexivity. Qed.

Lemma untouched_trans a b c :
  untouched field a b -> untouched field b c -> untouched field a c.
Proof. unfold untouched. congruence. Qed.

Lemma untouched_ask : obeys (untouched field) ask.
Proof. intros w s. apply not_answered. Qed.

Lemma untouched_sent call : True -> obeys (untouched field) (sent call).
Proof. intros _ w s. apply not_cursor_log. Qed.

Lemma untouched_connection : obeys (untouched field) _get_db_connection.
Proof.
  intros w s. unfold untouched. rewrite get_db_connection_run.
  destruct (_db s); [reflexivity|]. cbv zeta.
  destruct (connect _); simpl; rewrite ?not_db, not_cursor_log, not_answered; reflexivity.
Qed.

Ltac untouched_base :=
  first [ exact untouched_refl | exact untouched_trans | exact untouched_ask
        | exact untouched_sent | exact untouched_connection | (intros; exact I) ].

Lemma untouched_enable_consumer name :
  obeys (untouched field) (_performance_schema_enable_consumer name).
Proof.
  apply (kept_enable_consumer (untouched field) (fun _ => True));
    try untouched_base.
Qed.

Lemma untouched_get_new_events_statements table row_limit :
  obeys (untouched field) (_get_new_events_statements table row_limit).
Proof.
  apply (kept_get_new_events_statements (untouched field) (fun _ => True));
    try untouched_base.
  intros v w s. apply not_checkpoint.
Qed.

Lemma untouched_enabled_consumers :
  obeys (untouched field) _get_enabled_performance_schema_consumers.
Proof.
  apply (kept_get_enabled_performance_schema_consumers (untouched field) (fun _ => True));
    try untouched_base.
Qed.

Lemma untouched_choose_table enabled tables :
  obeys (untouched field) (choose_table enabled tables).
Proof.
  apply (kept_choose_table (untouched field) (fun _ => True));
    try untouched_base.
  - intros v w s. apply not_checkpoint.
  - intros name. apply obeys_bind; [exact untouched_trans | apply obeys_gets, untouched_refl|].
    intros [|]; simpl; [apply untouched_enable_consumer | apply obeys_ret, untouched_refl].
Qed.

Lemma untouched_explain_statement_safe statement schema :
  obeys (untouched field) (_explain_statement_safe statement schema).
Proof.
  apply (kept_explain_statement_safe (untouched field) (fun _ => True));
    try untouched_base.
  - intros t w s. apply not_counted.
  - intros c w s. apply not_strategy_cache.
Qed.

Lemma untouched_emit_sample r qs hash statement plan :
  obeys (untouched field) (emit_sample r qs hash statement plan).
Proof.
  apply kept_emit_sample;
    try untouched_base.
  - intros ev w s. apply not_submitted.
  - intros c w s. apply not_seen_cache.
Qed.
Lemma untouched_collect_plans_for_statements rows :
  obeys (untouched field) (_collect_plans_for_statements rows).
Proof.
  apply (kept_collect_plans_for_statements (untouched field) (fun _ => True));
    try untouched_base.
  - intros t w s. apply not_counted.
  - intros c w s. apply not_strategy_cache.
  - intros c w s. apply not_explained_cache.
  - apply untouched_emit_sample.
Qed.

Lemma untouched_cycles n w s : field (cycles n w s) = field s.
Proof.
  apply (kept_cycles (untouched field) (fun _ => True)); try untouched_base.
  - intros t w0 s0. apply not_counted.
  - intros v w0 s0. apply not_checkpoint.
  - intros v w0 s0. apply not_rate_limiter.
  - intros c w0 s0. apply not_strategy_cache.
  - intros c w0 s0. apply not_explained_cache.
  - intros name. apply obeys_bind; [exact untouched_trans | apply obeys_gets, untouched_refl|].
    intros [|]; simpl; [apply untouched_enable_consumer | apply obeys_ret, untouched_refl].
  - apply untouched_emit_sample.
Qed.
End Untouched.
(* ===================================================================== *)
(** * Strategy selection and its cache *)
(* ===================================================================== *)

(** A cached strategy is returned as it is, with nothing sent. *)
Lemma selection_cached_run w s table rate :
  Cache.get (_collection_strategy_cache s) "plan_collection_strategy"
    (monotonic (answers w (answered s))) = Some (CollectionStrategy table rate) ->
  _get_sample_collection_strategy w s
  = (Return (Some (table, rate)), set_answered (S (answered s)) s).
Proof.
  intros Hhit. unfold _get_sample_collection_strategy. unfold bind at 1.
  rewrite strategy_cache_get_run, Hhit. reflexivity.
Qed.

(** The loop over the tables breaks at one of them. *)
Lemma choose_table_member enabled tables w s table s' :
  choose_table enabled tables w s = (Return (Some table), s') -> In table tables.
Proof.
  revert s. induction tables as [|t rest IH]; intros s; simpl.
  - unfold ret. discriminate.
  - unfold bind at 1.
    match goal with
    | |- (match ?m with _ => _ end) = _ -> _ => destruct m as [[usable|e] s1]
    end; [|discriminate].
    destruct usable; cbn [negb].
    + unfold bind at 1.
      destruct (_get_new_events_statements t 1 w s1) as [[[|r rows]|e] s2]; [| |discriminate].
      * intros H. right. eapply IH, H.
      * unfold ret. intros [= <- <-]. left. reflexivity.
    + intros H. right. eapply IH, H.
Qed.

(** A selection with nothing cached: a strategy it returns names one of
    the preferred tables, with the configured rate, or the table's default
    when the configured rate is negative, and was written to the cache at a
    reading of the clock; without a strategy the cache is as it was. *)
Lemma selection_fresh w s res s' :
  Cache.get (_collection_strategy_cache s) "plan_collection_strategy"
    (monotonic (answers w (answered s))) = None ->
  _get_sample_collection_strategy w s = (res, s') ->
  match res with
  | Return (Some (table, rate)) =>
      table <> ""
      /\ In table (_preferred_events_statements_tables s)
      /\ (if Qltb (_collections_per_second s) 0
          then lookup table DEFAULT_EVENTS_STATEMENTS_COLLECTIONS_PER_SECOND = Some rate
          else rate = _collections_per_second s)
      /\ exists k,
           Cache.set (_collection_strategy_cache s) "plan_collection_strategy"
             (CollectionStrategy table rate) (monotonic (answers w k))
           = Return (_collection_strategy_cache s')
  | _ => _collection_strategy_cache s' = _collection_strategy_cache s
  end.
Proof.
  intros Hmiss. unfold _get_sample_collection_strategy. unfold bind at 1.
  rewrite strategy_cache_get_run, Hmiss.
  set (s0 := set_answered _ s).
  unfold bind at 1.
  pose proof (untouched_enabled_consumers _collection_strategy_cache
                (fun _ _ => eq_refl) (fun _ _ => eq_refl) (fun _ _ => eq_refl) w s0) as Hc1.
  pose proof (untouched_enabled_consumers _preferred_events_statements_tables
                (fun _ _ => eq_refl) (fun _ _ => eq_refl) (fun _ _ => eq_refl) w s0)
    as Htables.
  pose proof (untouched_enabled_consumers _collections_per_second
                (fun _ _ => eq_refl) (fun _ _ => eq_refl) (fun _ _ => eq_refl) w s0)
    as Hconf.
  destruct (_get_enabled_performance_schema_consumers w s0) as [[enabled|e] s1];
    unfold untouched in Hc1, Htables, Hconf; simpl in Hc1, Htables, Hconf.
  2:{ intros [= <- <-]. exact Hc1. }
  unfold bind at 1. unfold gets at 1. unfold bind at 1. unfold gets at 1.
  unfold bind at 1.
  pose proof (untouched_choose_table _collection_strategy_cache
                (fun _ _ => eq_refl) (fun _ _ => eq_refl) (fun _ _ => eq_refl)
                (fun _ _ => eq_refl) enabled (_preferred_events_statements_tables s1) w s1)
    as Hc2.
  destruct (choose_table enabled _ w s1) as [[[table|]|e] s2] eqn:Echoose;
    unfold untouched in Hc2; simpl in Hc2.
  2:{ unfold ret. intros [= <- <-]. congruence. }
  2:{ intros [= <- <-]. congruence. }
  apply choose_table_member in Echoose.
  rewrite Htables in Echoose. rewrite Hconf.
  unfold bind at 1.
  destruct (Qltb (_collections_per_second s) 0).
  - unfold lift at 1, getitem.
    destruct (lookup table DEFAULT_EVENTS_STATEMENTS_COLLECTIONS_PER_SECOND) as [rate|] eqn:Er.
    2:{ intros [= <- <-]. congruence. }
    destruct (table =? "")%string eqn:Et; [unfold ret; intros [= <- <-]; congruence|].
    unfold bind. rewrite strategy_cache_set_run.
    destruct (Cache.set _ _ _ _) as [c'|e] eqn:Eset; [|intros [= <- <-]; simpl; congruence].
    unfold ret. intros [= <- <-]. apply String.eqb_neq in Et.
    repeat split; try assumption. exists (answered s2). simpl.
    rewrite <- Hc1, <- Hc2. exact Eset.
  - unfold ret at 1.
    destruct (table =? "")%string eqn:Et; [unfold ret; intros [= <- <-]; congruence|].
    unfold bind. rewrite strategy_cache_set_run.
    destruct (Cache.set _ _ _ _) as [c'|e] eqn:Eset; [|intros [= <- <-]; simpl; congruence].
    unfold ret. intros [= <- <-]. apply String.eqb_neq in Et.
    repeat split; try assumption. exists (answered s2). simpl.
    rewrite <- Hc1, <- Hc2. exact Eset.
Qed.
(* ===================================================================== *)
(** * One cycle, one row *)
(* ===================================================================== *)

(** A cycle without a strategy ends there. *)
Lemma cycle_without_strategy w s s1 :
  _get_sample_collection_strategy w s = (Return None, s1) ->
  _collect_statement_samples w s = (Return tt, s1).
Proof.
  intros Hsel. unfold _collect_statement_samples. unfold bind at 1. rewrite Hsel. reflexivity.
Qed.

(** The head of the loop body on a row whose two texts the agent accepts:
    the query signature is looked up in the explained-statements cache at
    the third reading of the clock. *)
Lemma collect_plan_for_row_run r text digest o1 o2 w s :
  lookup "sql_text" r = Some (PStr text) ->
  lookup "digest_text" r = Some (PStr digest) ->
  obfuscate_sql (answers w (answered s)) text = Return o1 ->
  obfuscate_sql (answers w (S (answered s))) digest = Return o2 ->
  collect_plan_for_row r w s
  = let query_signature := compute_sql_signature w o2 in
    let s3 := set_answered (S (S (S (answered s)))) s in
    if Cache.contains (_explained_statements_cache s) query_signature
         (monotonic (answers w (S (S (answered s)))))
    then (Return tt, s3)
    else
      (explained_statements_set query_signature ;;
       schema <- lift (let? v := getitem r "current_schema" in as_optional_text v) ;;
       plan <- _explain_statement_safe text schema ;;
       emit_sample r query_signature (compute_sql_signature w o1) o1 plan) w s3.
Proof.
  intros Ht Hd H1 H2.
  unfold collect_plan_for_row, getitem, try_except, agent_obfuscate_sql,
    explained_statements_contains.
  rewrite Ht, Hd. run. cbn [result_bind as_text answered set_answered]. rewrite H1.
  cbn [answered set_answered]. rewrite H2.
  cbn [answered set_answered _explained_statements_cache].
  destruct (Cache.contains _ _ _); reflexivity.
Qed.

Lemma explained_statements_set_run key w s :
  explained_statements_set key w s
  = match Cache.set (_explained_statements_cache s) key true
            (monotonic (answers w (answered s))) with
    | Return c' =>
        (Return tt, set_explained_statements_cache c' (set_answered (S (answered s)) s))
    | Raise e => (Raise e, set_answered (S (answered s)) s)
    end.
Proof.
  unfold explained_statements_set. run. simpl. destruct (Cache.set _ _ _ _); reflexivity.
Qed.

(** The signature is written before the explain is tried, and what
    follows leaves the cache alone: whatever becomes of the explain and of
    the event, the signature stays for one time-to-live. *)
Lemma explained_before_explaining r text digest o1 o2 w s t :
  lookup "sql_text" r = Some (PStr text) ->
  lookup "digest_text" r = Some (PStr digest) ->
  obfuscate_sql (answers w (answered s)) text = Return o1 ->
  obfuscate_sql (answers w (S (answered s))) digest = Return o2 ->
  Cache.contains (_explained_statements_cache s) (compute_sql_signature w o2)
    (monotonic (answers w (S (S (answered s))))) = false ->
  1 <= Cache.maxsize (_explained_statements_cache s) ->
  (t <= monotonic (answers w (S (S (S (answered s)))))
        + Cache.ttl (_explained_statements_cache s))%Q ->
  Cache.contains (_explained_statements_cache (snd (collect_plan_for_row r w s)))
    (compute_sql_signature w o2) t = true.
Proof.
  intros Ht Hd H1 H2 Hmiss Hroom Hin.
  rewrite (collect_plan_for_row_run r text digest o1 o2 w s Ht Hd H1 H2). cbv zeta.
  rewrite Hmiss. unfold bind at 1. rewrite explained_statements_set_run.
  cbn [_explained_statements_cache set_answered answered].
  destruct (cache_set_room (_explained_statements_cache s) (compute_sql_signature w o2)
              true (monotonic (answers w (S (S (S (answered s)))))) Hroom)
    as (c' & Hset & _).
  rewrite Hset.
  set (s4 := set_explained_statements_cache c' _).
  set (rest := bind _ _).
  assert (Hkeep : obeys (untouched _explained_statements_cache) rest).
  { unfold rest.
    apply obeys_bind; [apply untouched_trans | apply obeys_lift, untouched_refl | intros schema].
    apply obeys_bind; [apply untouched_trans | | intros plan].
    - apply untouched_explain_statement_safe; reflexivity.
    - apply untouched_emit_sample; reflexivity. }
  rewrite (Hkeep w s4). unfold s4. cbn [_explained_statements_cache
    set_explained_statements_cache].
  eapply cache_contains_after_set; [exact Hset | exact Hin].
Qed.

(** ** A sample without a plan *)

Lemma emit_sample_without_plan r qs hash statement plan w s :
  plan_truthy plan = false ->
  emit_sample r qs hash statement plan w s
  = (seen <- seen_samples_contains (qs, None) ;;
     if seen then ret tt
     else seen_samples_set (qs, None) ;;
          ev <- lift (build_event r qs hash statement None None None) ;;
          yield ev) w s.
Proof. intros Hp. unfold emit_sample. rewrite Hp. reflexivity. Qed.

Lemma no_mechanism_no_plan statement schema w s :
  _can_explain statement = false
  \/ (forall n, Cache.get (_collection_strategy_cache s) (strategy_cache_key schema)
                  (monotonic (answers w n)) = Some ExplainError)
  \/ (forall n strategy,
        returned_plan (explain (answers w n) strategy statement) = false) ->
  without_plan (fst (_explain_statement statement schema w s)).
Proof.
  intros Hwhy.
  destruct (_explain_statement statement schema w s) as [[[p|]|e] s'] eqn:Erun;
    simpl; [|left; reflexivity|right; eauto].
  exfalso. destruct Hwhy as [Hcan | [Hmark | Hnone]].
  - apply explain_statement_found in Erun.
    destruct Erun as (_ & _ & _ & _ & Hcan' & _). congruence.
  - apply (sentinel_blocks _ _ _ _ _ _ Hmark) in Erun.
    destruct Erun as [_ [H | (e & H)]]; discriminate.
  - apply explain_statement_found in Erun.
    destruct Erun as (st & _ & _ & Hp & _ & (n & Ha) & _).
    specialize (Hnone n st). rewrite Ha in Hnone. simpl in Hnone.
    destruct (p =? "")%string eqn:E; [apply String.eqb_eq in E; contradiction | discriminate].
Qed.
(* ===================================================================== *)
(** * The sampler: tags, check runs and the loop *)
(* ===================================================================== *)

Lemma service_of_tags_app service before after :
  service_of_tags service (before ++ after)
  = service_of_tags (service_of_tags service before) after.
Proof.
  revert service; induction before as [|t before IH]; intros service; simpl;
    [reflexivity | apply IH].
Qed.

(** Tags that name no service leave the service as it is. *)
Lemma service_of_other_tags service tags :
  Forall (fun t => after_prefix "service:" t = None) tags ->
  service_of_tags service tags = service.
Proof.
  intros H. induction H as [|t tags Ht _ IH]; cbn [service_of_tags]; [reflexivity|].
  rewrite Ht. exact IH.
Qed.

Lemma after_prefix_app prefix rest : after_prefix prefix (prefix ++ rest) = Some rest.
Proof.
  induction prefix as [|c prefix IH]; simpl; [destruct rest; reflexivity|].
  rewrite Ascii.eqb_refl. exact IH.
Qed.

(** An enabled, synchronous sampler stays so over a check run, which runs
    one cycle of the engine. *)
Lemma run_sampler_synchronous tags c w self :
  _enabled self = true -> _run_sync self = true ->
  let self' := snd (run_sampler tags c w self) in
  _enabled self' = true /\ _run_sync self' = true
  /\ engine self' = snd (_collect_statement_samples w (engine self))
  /\ fst (run_sampler tags c w self)
     = Synchronous (fst (_collect_statement_samples w (engine self))).
Proof.
  intros He Hs. unfold run_sampler. rewrite He, Hs. simpl.
  destruct (_collect_statement_samples w (engine self)) as [cycle e]. simpl. auto.
Qed.

(** While the check is active and the cycles return, the loop goes on. *)
Lemma collection_loop_goes_on n fuel interval readings i w self :
  (forall k, (k < n)%nat ->
     inactive interval (readings (i + k)%nat) = false
     /\ fst (_collect_statement_samples w (cycles k w self)) = Return tt) ->
  collection_loop (n + fuel) interval readings i w self
  = collection_loop fuel interval readings (i + n) w (cycles n w self).
Proof.
  revert i self. induction n as [|n IH]; intros i self Hok; simpl.
  - rewrite Nat.add_0_r. reflexivity.
  - destruct (Hok 0%nat) as [Hact Hret]; [lia|].
    rewrite Nat.add_0_r in Hact. rewrite Hact. simpl in Hret.
    destruct (_collect_statement_samples w self) as [[[]|e] self1] eqn:Ecycle;
      [|discriminate].
    simpl. rewrite IH.
    + f_equal. lia.
    + intros k Hk. destruct (Hok (S k)) as [Hact' Hret']; [lia|].
      simpl in Hret'. rewrite Ecycle in Hret'. simpl in Hret'.
      split; [|exact Hret']. rewrite <- Hact'. f_equal. f_equal. lia.
Qed.
(* ===================================================================== *)
(** * Which statements can be explained *)
(* ===================================================================== *)

Lemma lstrip_padding pad l :
  forallb is_strip_space pad = true -> lstrip (pad ++ l) = lstrip l.
Proof.
  induction pad as [|c pad IH]; simpl; [reflexivity|].
  intros H. apply andb_true_iff in H. destruct H as [Hc Hpad]. rewrite Hc. apply IH, Hpad.
Qed.

(** Stripping stops at a character that is not white space. *)
Lemma lstrip_before a c b :
  is_strip_space c = false -> lstrip (a ++ c :: b) = lstrip a ++ c :: b.
Proof.
  intros Hc. induction a as [|x a IH]; simpl.
  - rewrite Hc. reflexivity.
  - destruct (is_strip_space x); [exact IH | reflexivity].
Qed.

(** What stripping leaves is the end of the list. *)
Lemma lstrip_suffix l : exists dropped, l = dropped ++ lstrip l.
Proof.
  induction l as [|c l [dropped IH]]; simpl.
  - exists []. reflexivity.
  - destruct (is_strip_space c).
    + exists (c :: dropped). simpl. rewrite <- IH. reflexivity.
    + exists []. reflexivity.
Qed.

(** Stripping the right end of a list that starts with a character leaves
    nothing or a list that starts with it. *)
Lemma rstrip_head c rest :
  rev (lstrip (rev (c :: rest))) = []
  \/ exists rest', rev (lstrip (rev (c :: rest))) = c :: rest'.
Proof.
  destruct (lstrip_suffix (rev (c :: rest))) as [dropped H].
  apply (f_equal (@rev ascii)) in H. rewrite rev_involutive, rev_app_distr in H.
  destruct (rev (lstrip (rev (c :: rest)))) as [|x kept]; [left; reflexivity|].
  right. simpl in H. injection H as <- _. eauto.
Qed.

Lemma first_word_of_list keyword tail :
  Forall (fun c => c <> " "%char) keyword ->
  tail = [] \/ (exists rest, tail = " "%char :: rest) ->
  first_word (string_of_list_ascii (keyword ++ tail)) = string_of_list_ascii keyword.
Proof.
  intros Hk Htail. induction Hk as [|c keyword Hc _ IH]; simpl.
  - destruct Htail as [-> | (rest & ->)]; reflexivity.
  - destruct (c =? " ")%char eqn:E; [apply Ascii.eqb_eq in E; contradiction|].
    rewrite IH. reflexivity.
Qed.

(** Lowering a character does not make or unmake white space. *)
Lemma to_lower_space c : is_strip_space (to_lower c) = is_strip_space c.
Proof. destruct c as [[] [] [] [] [] [] [] []]; reflexivity. Qed.

(** A word that lowers to one of the keywords holds no white space. *)
Lemma keyword_has_no_space keyword :
  In (lower keyword) VALID_EXPLAIN_STATEMENTS ->
  list_ascii_of_string keyword <> []
  /\ Forall (fun c => is_strip_space c = false) (list_ascii_of_string keyword).
Proof.
  intros Hin. unfold lower in Hin.
  assert (Hall : Forall (fun c => is_strip_space c = false)
                   (map to_lower (list_ascii_of_string keyword))
                 /\ map to_lower (list_ascii_of_string keyword) <> []).
  { set (l := map to_lower (list_ascii_of_string keyword)) in *.
    assert (Hl : In l (map list_ascii_of_string VALID_EXPLAIN_STATEMENTS)).
    { rewrite <- (list_ascii_of_string_of_list_ascii l). apply in_map, Hin. }
    clearbody l. simpl in Hl.
    repeat (destruct Hl as [<- | Hl]; [split; [repeat constructor | discriminate]|]).
    contradiction. }
  destruct Hall as [Hall Hne]. split.
  - intros E. rewrite E in Hne. apply Hne. reflexivity.
  - rewrite Forall_map in Hall. eapply Forall_impl; [|exact Hall].
    intros c Hc. cbv beta in Hc. rewrite to_lower_space in Hc. exact Hc.
Qed.

Lemma list_of_append a b :
  list_ascii_of_string (a ++ b) = list_ascii_of_string a ++ list_ascii_of_string b.
Proof. induction a as [|c a IH]; simpl; [reflexivity | rewrite IH; reflexivity]. Qed.

Lemma py_strip_padded pad keyword tail :
  forallb is_strip_space pad = true ->
  keyword <> [] ->
  Forall (fun c => is_strip_space c = false) keyword ->
  list_ascii_of_string (py_strip (string_of_list_ascii (pad ++ keyword ++ tail)))
  = keyword ++ rev (lstrip (rev tail)).
Proof.
  intros Hpad Hne Hk. unfold py_strip.
  rewrite !list_ascii_of_string_of_list_ascii, lstrip_padding by exact Hpad.
  destruct keyword as [|c k]; [congruence|].
  inversion Hk as [|? ? Hc Hk']; subst.
  assert (Hfront : lstrip ((c :: k) ++ tail) = (c :: k) ++ tail)
    by (simpl; rewrite Hc; reflexivity).
  rewrite Hfront, rev_app_distr.
  assert (Hlast : exists x front, rev (c :: k) = x :: front /\ is_strip_space x = false).
  { destruct (rev (c :: k)) as [|x front] eqn:Er.
    - apply (f_equal (@List.length ascii)) in Er. rewrite length_rev in Er. discriminate.
    - exists x, front. split; [reflexivity|].
      assert (Hin : In x (c :: k)) by (apply in_rev; rewrite Er; left; reflexivity).
      rewrite Forall_forall in Hk. apply Hk, Hin. }
  destruct Hlast as (x & front & Er & Hx).
  rewrite Er, lstrip_before by exact Hx.
  rewrite rev_app_distr, <- Er, rev_involutive. reflexivity.
Qed.
(* ===================================================================== *)
(** * Properties of the filter and of the query *)
(* ===================================================================== *)

(** [_filter_valid_statement_rows], when no row makes it raise: it yields,
    in the order of the batch, the rows that have columns and a non-empty
    text not ending in the marker ["..."], and its two counters end at the
    number of rows yielded and the number of rows whose text ends in the
    marker. *)
Theorem filter_yields_forwarded_rows rows sent truncated :
  ending (_filter_valid_statement_rows rows) = Return (sent, truncated) ->
  yields (_filter_valid_statement_rows rows) = filter forwarded rows
  /\ sent = List.length (filter forwarded rows)
  /\ truncated = List.length (filter cut rows).
Proof.
  unfold _filter_valid_statement_rows. intros H.
  apply filter_rows_from_returns in H. exact H.
Qed.

Lemma filter_yields_forwarded_rows_witness :
  yields (_filter_valid_statement_rows [cut_row; row_without_schema; cut_row])
  = [row_without_schema]
  /\ ending (_filter_valid_statement_rows [cut_row; row_without_schema; cut_row])
     = Return (1%nat, 2%nat).
Proof.
  destruct (filter_yields_forwarded_rows [cut_row; row_without_schema; cut_row] 1 2)
    as (Hy & _); [reflexivity|].
  split; [rewrite Hy; reflexivity | reflexivity].
Defined.

(** [_collect_plans_for_statements] on a batch in which the text of every
    row ends in the marker: nothing is sent, no event is yielded, and the
    truncation is counted once, however many rows there are. *)
Theorem cut_batch_counts_one_error rows w self :
  rows <> [] ->
  Forall (fun r => cut r = true) rows ->
  _collect_plans_for_statements rows w self
  = (Return tt, set_counted (counted self ++ [TruncatedSqlText]) self).
Proof.
  intros Hne Hall. unfold _collect_plans_for_statements, _filter_valid_statement_rows.
  rewrite (filter_cut_rows rows 0 0 Hall). simpl.
  destruct rows as [|r rows]; [congruence | reflexivity].
Qed.

Lemma cut_batch_counts_one_error_witness :
  _collect_plans_for_statements [cut_row; cut_row] (steady busy_server) default_instance
  = (Return tt, set_counted [TruncatedSqlText] default_instance).
Proof.
  apply (cut_batch_counts_one_error [cut_row; cut_row] (steady busy_server) default_instance).
  - discriminate.
  - repeat constructor.
Defined.

(** [EVENTS_STATEMENTS_QUERY]: the answer holds at most [LIMIT] rows; in
    each, [sql_text] and [digest_text] are strings, never NULL (the digest
    falls back on the text), [timer_start] lies above the checkpoint the
    query was sent with, and every column has a name. *)
Theorem query_rows_are_whole p table r :
  In r (EVENTS_STATEMENTS_QUERY p table) ->
  (List.length (EVENTS_STATEMENTS_QUERY p table) <= Z.to_nat (limit_param p))%nat
  /\ exists text digest start,
       lookup "sql_text" r = Some (PStr text)
       /\ lookup "digest_text" r = Some (PStr digest)
       /\ lookup "timer_start" r = Some (PInt start)
       /\ checkpoint_param p < start
       /\ has_columns r = true.
Proof.
  intros Hr. split; [apply query_row_limit | exact (query_row_columns p table r Hr)].
Qed.

Lemma query_rows_are_whole_witness :
  (List.length (EVENTS_STATEMENTS_QUERY (fetch_params 0 1)
                  (busy_tables "events_statements_current")) <= 1)%nat
  /\ exists text digest start,
       lookup "sql_text" probed_row = Some (PStr text)
       /\ lookup "digest_text" probed_row = Some (PStr digest)
       /\ lookup "timer_start" probed_row = Some (PInt start)
       /\ 0 < start
       /\ has_columns probed_row = true.
Proof.
  apply (query_rows_are_whole (fetch_params 0 1) (busy_tables "events_statements_current")
           probed_row).
  left. reflexivity.
Defined.

(** [EVENTS_STATEMENTS_QUERY] keeps the longest waits: a statement that
    passes the WHERE clause and is not in the answer waited no longer than
    any statement in the answer. *)
Theorem query_keeps_longest_waits p table e r :
  In e table ->
  where_clause p e = true ->
  ~ In (select_columns e) (EVENTS_STATEMENTS_QUERY p table) ->
  In r (EVENTS_STATEMENTS_QUERY p table) ->
  exists e', r = select_columns e' /\ In e' table /\ wait_geb e' e = true.
Proof.
  intros Hin Hw Hout Hr. unfold EVENTS_STATEMENTS_QUERY in *.
  set (sorted := order_by_timer_wait_desc (filter (where_clause p) table)) in *.
  set (n := Z.to_nat (limit_param p)) in *.
  apply in_map_iff in Hr. destruct Hr as (e' & <- & He').
  exists e'. split; [reflexivity|]. split.
  - apply In_firstn in He'. apply order_by_In, filter_In in He'. apply He'.
  - assert (Hsorted : In e sorted) by (apply order_by_In, filter_In; auto).
    rewrite <- (firstn_skipn n sorted) in Hsorted. apply in_app_or in Hsorted.
    destruct Hsorted as [Hkept | Hcut].
    + exfalso. apply Hout, in_map, Hkept.
    + eapply descending_limit; [apply order_by_descending | exact He' | exact Hcut].
Qed.

Lemma query_keeps_longest_waits_witness :
  exists e', probed_row = select_columns e'
             /\ In e' (busy_tables "events_statements_current")
             /\ wait_geb e' (statement_event None "select 1" 5 10) = true.
Proof.
  apply (query_keeps_longest_waits (fetch_params 0 1)
           (busy_tables "events_statements_current")
           (statement_event None "select 1" 5 10) probed_row).
  - left. reflexivity.
  - reflexivity.
  - intros [H | []]. discriminate H.
  - left. reflexivity.
Defined.
(* ===================================================================== *)
(** * Properties of a run of cycles: what is sent, what is yielded *)
(* ===================================================================== *)

(** Over any run of collection cycles, whatever the world answers: every
    explain mechanism is run on a statement [_can_explain] accepts, and
    every [USE] names a non-empty schema. *)
Theorem explain_and_use_are_guarded n w self :
  exists new,
    cursor_log (cycles n w self) = cursor_log self ++ new
    /\ (forall strategy statement r,
          In (Explain strategy statement r) new -> _can_explain statement = true)
    /\ (forall schema r, In (UseSchema schema r) new -> schema <> "").
Proof.
  destruct (guarded_cycles n w self) as (new & Hlog & Hall).
  exists new. split; [exact Hlog|]. rewrite Forall_forall in Hall.
  split; intros; match goal with H : In _ new |- _ => apply Hall in H; exact H end.
Qed.

(** [_get_db_connection] is lazy: once [self._db] holds a connection, no
    run of collection cycles connects again, and the connection stays. *)
Theorem connection_is_made_once n w self :
  _db self = true ->
  _db (cycles n w self) = true
  /\ exists new,
       cursor_log (cycles n w self) = cursor_log self ++ new
       /\ forall r, ~ In (Connect r) new.
Proof.
  intros Hdb. destruct (stays_connected_cycles n w self Hdb) as (Hdb' & new & Hlog & Hall).
  split; [exact Hdb'|]. exists new. split; [exact Hlog|].
  rewrite Forall_forall in Hall. intros r Hin. apply Hall in Hin. discriminate Hin.
Qed.

Lemma connection_is_made_once_witness :
  _db connected_instance = true
  /\ _db (cycles 2 (steady busy_server) connected_instance) = true
  /\ exists new,
       cursor_log (cycles 2 (steady busy_server) connected_instance)
       = cursor_log connected_instance ++ new
       /\ forall r, ~ In (Connect r) new.
Proof.
  split; [reflexivity|].
  apply (connection_is_made_once 2 (steady busy_server) connected_instance). reflexivity.
Defined.

(** With [auto_enable_events_statements_consumers] off, no run of
    collection cycles sends an
    [UPDATE performance_schema.setup_consumers]. *)
Theorem no_consumer_update_without_auto_enable n w self :
  _auto_enable_events_statements_consumers self = false ->
  exists new,
    cursor_log (cycles n w self) = cursor_log self ++ new
    /\ forall name r, ~ In (EnableConsumer name r) new.
Proof.
  intros Hoff. destruct (never_updates_cycles n w self) as (_ & Hsends).
  destruct (Hsends Hoff) as (new & Hlog & Hall).
  exists new. split; [exact Hlog|].
  rewrite Forall_forall in Hall. intros name r Hin. apply Hall in Hin. discriminate Hin.
Qed.

Lemma no_consumer_update_without_auto_enable_witness :
  _auto_enable_events_statements_consumers default_instance = false
  /\ exists new,
       cursor_log (cycles 2 (steady idle_server) default_instance)
       = cursor_log default_instance ++ new
       /\ forall name r, ~ In (EnableConsumer name r) new.
Proof.
  split; [reflexivity|].
  apply (no_consumer_update_without_auto_enable 2 (steady idle_server) default_instance).
  reflexivity.
Defined.

(** Over any run of collection cycles, the [mysql] section of every event
    yielded holds none of the columns of
    [EVENTS_STATEMENTS_SAMPLE_EXCLUDE_KEYS]: not the raw [sql_text], nor
    the digest, the schema, the timers or the client host. *)
Theorem events_leave_out_excluded_columns n w self :
  exists new,
    submitted (cycles n w self) = submitted self ++ new
    /\ forall ev key,
         In ev new -> In key EVENTS_STATEMENTS_SAMPLE_EXCLUDE_KEYS ->
         lookup key (mysql ev) = None.
Proof.
  destruct (well_formed_events n w self) as (new & Hs & Hall).
  exists new. split; [exact Hs|]. rewrite Forall_forall in Hall.
  intros ev key Hev Hkey. destruct (Hall ev Hev) as [Hout _]. apply Hout, Hkey.
Qed.

(** Over any run of collection cycles, the plan of every event yielded is
    whole or absent: an event with a plan definition has a plan cost, and
    an event without a definition has neither cost nor plan signature. *)
Theorem event_plan_is_whole_or_absent n w self :
  exists new,
    submitted (cycles n w self) = submitted self ++ new
    /\ forall ev,
         In ev new ->
         (db_plan_definition ev <> None -> db_plan_cost ev <> None)
         /\ (db_plan_definition ev = None ->
             db_plan_cost ev = None /\ db_plan_signature ev = None).
Proof.
  destruct (well_formed_events n w self) as (new & Hs & Hall).
  exists new. split; [exact Hs|]. rewrite Forall_forall in Hall.
  intros ev Hev. destruct (Hall ev Hev) as [_ Hplan]. unfold plan_whole_or_absent in Hplan.
  destruct (db_plan_definition ev).
  - split; [|discriminate]. intros _. destruct Hplan as (cost & ->). discriminate.
  - split; [congruence | intros _; exact Hplan].
Qed.
(* ===================================================================== *)
(** * Properties of the explain engine *)
(* ===================================================================== *)

(** [_explain_statement_safe], the connection in hand, never raises: when
    [_explain_statement] returns, it returns the same plan, a non-empty
    text or [None], and leaves the same state; when [_explain_statement]
    raises, it returns [None] and counts the exception once. *)
Theorem explain_statement_safe_never_raises statement schema w self :
  _db self = true ->
  (forall plan self',
      _explain_statement statement schema w self = (Return plan, self') ->
      _explain_statement_safe statement schema w self = (Return plan, self')
      /\ (plan = None \/ exists p, plan = Some p /\ p <> ""))
  /\ (forall e self',
        _explain_statement statement schema w self = (Raise e, self') ->
        _explain_statement_safe statement schema w self
        = (Return None, set_counted (counted self' ++ [ExplainFailed e]) self'))
  /\ exists plan,
       fst (_explain_statement_safe statement schema w self) = Return plan
       /\ (plan = None \/ exists p, plan = Some p /\ p <> "")
       /\ forall e,
            fst (_explain_statement statement schema w self) = Raise e ->
            plan = None
            /\ counted (snd (_explain_statement_safe statement schema w self))
               = counted (snd (_explain_statement statement schema w self))
                 ++ [ExplainFailed e].
Proof.
  intros Hdb. rewrite (explain_statement_safe_run statement schema w self Hdb).
  destruct (_explain_statement statement schema w self) as [[[p|]|e] s'] eqn:Erun; simpl.
  - assert (Hp : p <> "").
    { apply explain_statement_found in Erun. destruct Erun as (_ & _ & _ & Hp & _).
      exact Hp. }
    split; [|split].
    + intros plan self' [= <- <-]. split; [reflexivity | right; eauto].
    + discriminate.
    + exists (Some p). split; [reflexivity|]. split; [right; eauto | discriminate].
  - split; [|split].
    + intros plan self' [= <- <-]. split; [reflexivity | left; reflexivity].
    + discriminate.
    + exists None. split; [reflexivity|]. split; [left; reflexivity | discriminate].
  - split; [|split].
    + discriminate.
    + intros e' self' [= <- <-]. reflexivity.
    + exists None. split; [reflexivity|]. split; [left; reflexivity|].
      intros e' [= <-]. split; reflexivity.
Qed.

(** A plan passed on from the direct EXPLAIN, and an exception of the
    agent caught and counted. *)
Lemma explain_statement_safe_never_raises_witness :
  fst (_explain_statement_safe "select 2" (Some "shop") (steady busy_server)
         connected_instance) = Return (Some "{}")
  /\ fst (_explain_statement_safe "select a from t where `c` = 2" (Some "shop")
            (steady refusing_server) connected_instance) = Return None
  /\ counted (snd (_explain_statement_safe "select a from t where `c` = 2" (Some "shop")
                     (steady refusing_server) connected_instance))
     = [ExplainFailed (OtherError "obfuscate_sql")].
Proof.
  destruct (explain_statement_safe_never_raises "select 2" (Some "shop") (steady busy_server) connected_instance)
    as (Hplan & _); [reflexivity|].
  destruct (Hplan (Some "{}")
              (snd (_explain_statement "select 2" (Some "shop") (steady busy_server)
                      connected_instance))) as [Hrun _]; [vm_compute; reflexivity|].
  destruct (explain_statement_safe_never_raises "select a from t where `c` = 2" (Some "shop") (steady refusing_server)
              connected_instance) as (_ & Hraise & _); [reflexivity|].
  specialize (Hraise (OtherError "obfuscate_sql")
                (snd (_explain_statement "select a from t where `c` = 2" (Some "shop")
                        (steady refusing_server) connected_instance))).
  rewrite Hrun, Hraise by (vm_compute; reflexivity).
  split; [reflexivity|]. split; reflexivity.
Defined.

(** [_explain_statement_safe] takes the connection outside its [try]: with
    no connection in hand, a failure to connect escapes it, and nothing is
    counted. *)
Theorem explain_statement_safe_needs_the_connection statement schema w self e :
  _db self = false ->
  connect (answers w (answered self)) = Raise e ->
  fst (_explain_statement_safe statement schema w self) = Raise e
  /\ counted (snd (_explain_statement_safe statement schema w self)) = counted self
  /\ cursor_log (snd (_explain_statement_safe statement schema w self))
     = cursor_log self ++ [Connect (Raise e)].
Proof.
  intros Hdb Hfail.
  assert (Hrun : _explain_statement_safe statement schema w self
                 = (Raise e, set_cursor_log (cursor_log self ++ [Connect (Raise e)])
                               (set_answered (S (answered self)) self))).
  { unfold _explain_statement_safe, bind.
    rewrite get_db_connection_run, Hdb. cbv zeta. rewrite Hfail. reflexivity. }
  rewrite Hrun. simpl. auto.
Qed.

Lemma explain_statement_safe_needs_the_connection_witness :
  fst (_explain_statement_safe "select 1" None (steady unreachable_server) default_instance)
  = Raise (DatabaseError [PInt 2003; PStr "Can't connect to MySQL server"])
  /\ counted (snd (_explain_statement_safe "select 1" None (steady unreachable_server)
                     default_instance))
     = counted default_instance
  /\ cursor_log (snd (_explain_statement_safe "select 1" None (steady unreachable_server)
                        default_instance))
     = cursor_log default_instance
       ++ [Connect (Raise (DatabaseError [PInt 2003; PStr "Can't connect to MySQL server"]))].
Proof.
  apply (explain_statement_safe_needs_the_connection "select 1" None
           (steady unreachable_server) default_instance); reflexivity.
Defined.

(** [_explain_statement] remembers the mechanism that worked: when it
    returns a plan, the plan is not empty, the last statement sent is the
    mechanism that answered with it, and for one time-to-live the
    strategy cache reads that mechanism under the key of the schema. *)
Theorem working_strategy_is_cached statement schema w self p self' :
  _explain_statement statement schema w self = (Return (Some p), self') ->
  exists strategy before k,
    p <> ""
    /\ cursor_log self' = before ++ [Explain strategy statement (Return (Some p))]
    /\ forall t,
         (t <= monotonic (answers w k) + Cache.ttl (_collection_strategy_cache self'))%Q ->
         Cache.get (_collection_strategy_cache self') (strategy_cache_key schema) t
         = Some (ExplainStrategy strategy).
Proof.
  intros Hrun. apply explain_statement_found in Hrun.
  destruct Hrun as (strategy & before & k & Hp & _ & _ & Hlog & Hget).
  exists strategy, before, k. auto.
Qed.

Lemma working_strategy_is_cached_witness :
  exists strategy before k,
    "{}" <> ""
    /\ cursor_log (snd (_explain_statement "select 2" (Some "shop") (steady busy_server)
                          default_instance))
       = before ++ [Explain strategy "select 2" (Return (Some "{}"))]
    /\ forall t,
         (t <= monotonic (answers (steady busy_server) k)
               + Cache.ttl (_collection_strategy_cache
                              (snd (_explain_statement "select 2" (Some "shop")
                                      (steady busy_server) default_instance))))%Q ->
         Cache.get (_collection_strategy_cache
                      (snd (_explain_statement "select 2" (Some "shop")
                              (steady busy_server) default_instance)))
           (strategy_cache_key (Some "shop")) t
         = Some (ExplainStrategy strategy).
Proof.
  apply (working_strategy_is_cached "select 2" (Some "shop") (steady busy_server)
           default_instance "{}").
  vm_compute. reflexivity.
Defined.

(** [_explain_statement_safe] gives no plan when the statement cannot be
    explained, when the schema is marked as failing, or when no mechanism
    answers with a plan. *)
Theorem no_plan_without_a_working_mechanism statement schema w self :
  _db self = true ->
  _can_explain statement = false
  \/ (forall n, Cache.get (_collection_strategy_cache self) (strategy_cache_key schema)
                  (monotonic (answers w n)) = Some ExplainError)
  \/ (forall n strategy,
        returned_plan (explain (answers w n) strategy statement) = false) ->
  fst (_explain_statement_safe statement schema w self) = Return None.
Proof.
  intros Hdb Hwhy. rewrite (explain_statement_safe_run statement schema w self Hdb).
  pose proof (no_mechanism_no_plan statement schema w self Hwhy) as Hno.
  destruct (_explain_statement statement schema w self) as [[plan|e] s']; simpl in *.
  - destruct Hno as [H | (e & H)]; [exact H | discriminate].
  - reflexivity.
Qed.

Lemma no_plan_without_a_working_mechanism_witness :
  fst (_explain_statement_safe "show tables" (Some "shop") (steady busy_server)
         connected_instance) = Return None
  /\ fst (_explain_statement_safe "select 2" (Some "shop") (steady no_plan_server)
            connected_instance) = Return None.
Proof.
  split.
  - apply (no_plan_without_a_working_mechanism "show tables" (Some "shop")
             (steady busy_server) connected_instance); [reflexivity|].
    left. reflexivity.
  - apply (no_plan_without_a_working_mechanism "select 2" (Some "shop")
             (steady no_plan_server) connected_instance); [reflexivity|].
    right. right. intros n [| |]; reflexivity.
Defined.

(** A sample without a plan: the event [_collect_plans_for_statements]
    builds for a row has no plan definition, cost or signature; it is
    yielded only if the pair of the query signature with no plan signature
    is not in the seen-samples cache. *)
Theorem sample_without_plan r qs hash statement plan w self ev :
  plan_truthy plan = false ->
  build_event r qs hash statement None None None = Return ev ->
  1 <= Cache.maxsize (_seen_samples_cache self) ->
  db_plan_definition ev = None /\ db_plan_cost ev = None /\ db_plan_signature ev = None
  /\ sample_pair ev = (qs, None)
  /\ if Cache.contains (_seen_samples_cache self) (qs, None)
          (monotonic (answers w (answered self)))
     then emit_sample r qs hash statement plan w self
          = (Return tt, set_answered (S (answered self)) self)
     else fst (emit_sample r qs hash statement plan w self) = Return tt
          /\ submitted (snd (emit_sample r qs hash statement plan w self))
             = submitted self ++ [ev].
Proof.
  intros Hplan Hev Hroom.
  destruct (build_event_pair _ _ _ _ _ _ _ _ Hev) as (Hpair & Hdef & Hcost).
  split; [exact Hdef|]. split; [exact Hcost|].
  split; [apply (f_equal snd) in Hpair; exact Hpair|]. split; [exact Hpair|].
  rewrite (emit_sample_without_plan r qs hash statement plan w self Hplan).
  rewrite seen_tail_run. cbv zeta.
  destruct (Cache.contains _ _ _); [reflexivity|].
  destruct (cache_set_room (_seen_samples_cache self) (qs, @None string) true
              (monotonic (answers w (S (answered self)))) Hroom) as (c' & -> & _).
  rewrite Hev. split; reflexivity.
Qed.

Lemma sample_without_plan_witness :
  map sample_pair
    (submitted (snd (emit_sample row_after_probe (Some "show tables") (Some "show tables")
                       "show tables" None (steady busy_server) default_instance)))
  = [(Some "show tables", None)].
Proof.
  destruct (build_event row_after_probe (Some "show tables") (Some "show tables")
              "show tables" None None None) as [ev|e] eqn:Eev; [|discriminate Eev].
  destruct (sample_without_plan row_after_probe (Some "show tables") (Some "show tables")
              "show tables" None (steady busy_server) default_instance ev)
    as (_ & _ & _ & Hpair & Hrun); [reflexivity | exact Eev | discriminate |].
  change (Cache.contains _ _ _) with false in Hrun. destruct Hrun as [_ ->].
  simpl. rewrite Hpair. reflexivity.
Defined.

(** [_collect_plans_for_statements] writes the pair to the seen-samples
    cache before it builds the event: whatever the plan, when the event
    cannot be built from the row (a column is missing, or
    [timer_end_time_s] is NULL), the exception escapes, no event is
    yielded, and the pair of the query signature and the plan signature
    stays in the cache for one time-to-live. *)
Theorem pair_is_marked_before_the_event_is_built r qs hash statement plan w self oplan psig cost self1 e :
  describe_plan (if plan_truthy plan then plan else None) w self
  = (Return (oplan, psig, cost), self1) ->
  build_event r qs hash statement None None None = Raise e ->
  Cache.contains (_seen_samples_cache self) (qs, psig)
    (monotonic (answers w (answered self1))) = false ->
  1 <= Cache.maxsize (_seen_samples_cache self) ->
  let run := emit_sample r qs hash statement plan w self in
  fst run = Raise e
  /\ submitted (snd run) = submitted self
  /\ forall t,
       (t <= monotonic (answers w (S (answered self1)))
             + Cache.ttl (_seen_samples_cache self))%Q ->
       Cache.contains (_seen_samples_cache (snd run)) (qs, psig) t = true.
Proof.
  intros Hplan Hev Hmiss Hroom run. unfold run. clear run.
  pose proof (describe_plan_frame (if plan_truthy plan then plan else None) w self)
    as [Hc Hs].
  rewrite Hplan in Hc, Hs. simpl in Hc, Hs.
  destruct (cache_set_room (_seen_samples_cache self) (qs, psig) true
              (monotonic (answers w (S (answered self1)))) Hroom) as (c' & Hset & _).
  assert (Hrun : exists self3,
             emit_sample r qs hash statement plan w self = (Raise e, self3)
             /\ submitted self3 = submitted self
             /\ _seen_samples_cache self3 = c').
  { unfold emit_sample. unfold bind at 1. rewrite Hplan.
    rewrite seen_tail_run. cbv zeta. rewrite Hc, Hmiss, Hset.
    rewrite (build_event_fails_on_the_row r qs hash statement None None None
               qs hash statement oplan cost psig e Hev).
    eexists. split; [reflexivity|]. split; [exact Hs | reflexivity]. }
  destruct Hrun as (self3 & -> & Hs3 & Hc3). simpl.
  split; [reflexivity|]. split; [exact Hs3|].
  intros t Ht. rewrite Hc3. eapply cache_contains_after_set; [exact Hset | exact Ht].
Qed.

(** A row with a NULL end time, with a plan and without one. *)
Lemma pair_is_marked_before_the_event_is_built_witness :
  fst (emit_sample running_row (Some "select sleep(9)") (Some "select sleep(9)")
         "select sleep(9)" (Some "{}") (steady busy_server) default_instance)
  = Raise TypeError
  /\ Cache.contains
       (_seen_samples_cache
          (snd (emit_sample running_row (Some "select sleep(9)") (Some "select sleep(9)")
                  "select sleep(9)" (Some "{}") (steady busy_server) default_instance)))
       (Some "select sleep(9)", Some "{}") 240 = true
  /\ fst (emit_sample running_row (Some "select sleep(9)") (Some "select sleep(9)")
            "select sleep(9)" None (steady busy_server) default_instance)
     = Raise TypeError.
Proof.
  destruct (pair_is_marked_before_the_event_is_built running_row (Some "select sleep(9)")
              (Some "select sleep(9)") "select sleep(9)" (Some "{}") (steady busy_server)
              default_instance (Some "{}") (Some "{}") (Some zero)
              (set_answered 2 default_instance) TypeError) as (Hraise & _ & Hseen);
    [vm_compute; reflexivity | reflexivity | reflexivity | discriminate |].
  destruct (pair_is_marked_before_the_event_is_built running_row (Some "select sleep(9)")
              (Some "select sleep(9)") "select sleep(9)" None (steady busy_server)
              default_instance None None None default_instance TypeError)
    as (Hraise' & _);
    [reflexivity | reflexivity | reflexivity | discriminate |].
  split; [exact Hraise|]. split; [apply Hseen; discriminate | exact Hraise'].
Defined.

(** [_performance_schema_enable_consumer], the connection in hand, sends
    the one update and reports it: [True] when the server accepts it,
    [False] on a database error, read-only mode or any other; an exception
    that is not a database error escapes. *)
Theorem enable_consumer_reports_the_update name w self :
  _db self = true ->
  let answer := update_setup_consumers (answers w (answered self)) name in
  let run := _performance_schema_enable_consumer name w self in
  cursor_log (snd run) = cursor_log self ++ [EnableConsumer name answer]
  /\ (answer = Return tt -> fst run = Return true)
  /\ (forall code args, answer = Raise (DatabaseError (code :: args)) ->
                        fst run = Return false)
  /\ (forall e, answer = Raise e -> (forall args, e <> DatabaseError args) ->
                fst run = Raise e).
Proof.
  intros Hdb answer run. unfold run. rewrite (enable_consumer_run name w self Hdb).
  cbv zeta. fold answer. simpl. split; [reflexivity|].
  split; [intros ->; reflexivity|]. split; [intros code args ->; reflexivity|].
  intros e -> Hother. destruct e; try reflexivity. exfalso. eapply Hother. reflexivity.
Qed.

Lemma enable_consumer_reports_the_update_witness :
  fst (_performance_schema_enable_consumer "events_statements_history"
         (steady busy_server) connected_instance) = Return true.
Proof.
  destruct (enable_consumer_reports_the_update "events_statements_history"
              (steady busy_server) connected_instance) as (_ & Hok & _); [reflexivity|].
  apply Hok. reflexivity.
Defined.
(* ===================================================================== *)
(** * Properties of the strategy selection and of a cycle *)
(* ===================================================================== *)

(** [_get_sample_collection_strategy] with nothing cached: the table it
    returns is one of the preferred tables, and the rate limit is the
    configured [collections_per_second], or, when that is negative, the
    default of the table in
    [DEFAULT_EVENTS_STATEMENTS_COLLECTIONS_PER_SECOND]. *)
Theorem selection_returns_a_preferred_table w self table rate self' :
  Cache.get (_collection_strategy_cache self) "plan_collection_strategy"
    (monotonic (answers w (answered self))) = None ->
  _get_sample_collection_strategy w self = (Return (Some (table, rate)), self') ->
  table <> ""
  /\ In table (_preferred_events_statements_tables self)
  /\ if Qltb (_collections_per_second self) 0
     then lookup table DEFAULT_EVENTS_STATEMENTS_COLLECTIONS_PER_SECOND = Some rate
     else rate = _collections_per_second self.
Proof.
  intros Hmiss Hrun. pose proof (selection_fresh w self _ _ Hmiss Hrun) as H.
  simpl in H. destruct H as (Hne & Hin & Hrate & _). auto.
Qed.

Lemma selection_returns_a_preferred_table_witness :
  "events_statements_history_long" <> ""
  /\ In "events_statements_history_long"
       (_preferred_events_statements_tables default_instance)
  /\ if Qltb (_collections_per_second default_instance) 0
     then lookup "events_statements_history_long"
            DEFAULT_EVENTS_STATEMENTS_COLLECTIONS_PER_SECOND = Some (1 # 10)
     else (1 # 10) = _collections_per_second default_instance.
Proof.
  apply (selection_returns_a_preferred_table (steady archive_server) default_instance
           "events_statements_history_long" (1 # 10)
           (snd (_get_sample_collection_strategy (steady archive_server) default_instance))).
  - reflexivity.
  - vm_compute. reflexivity.
Defined.

(** A strategy [_get_sample_collection_strategy] selected is cached: a
    call within one time-to-live of the selection returns the same table
    and rate limit and sends nothing to the database. *)
Theorem selection_is_cached w w' self table rate self' :
  Cache.get (_collection_strategy_cache self) "plan_collection_strategy"
    (monotonic (answers w (answered self))) = None ->
  _get_sample_collection_strategy w self = (Return (Some (table, rate)), self') ->
  (forall k, (monotonic (answers w' (answered self'))
              <= monotonic (answers w k)
                 + Cache.ttl (_collection_strategy_cache self))%Q) ->
  _get_sample_collection_strategy w' self'
  = (Return (Some (table, rate)), set_answered (S (answered self')) self').
Proof.
  intros Hmiss Hrun Hwithin. pose proof (selection_fresh w self _ _ Hmiss Hrun) as H.
  simpl in H. destruct H as (_ & _ & _ & k & Hset).
  apply selection_cached_run.
  eapply cache_get_after_set; [exact Hset | apply Hwithin].
Qed.

Lemma selection_is_cached_witness :
  fst (_get_sample_collection_strategy (steady archive_server)
         (snd (_get_sample_collection_strategy (steady archive_server) default_instance)))
  = Return (Some ("events_statements_history_long", 1 # 10))
  /\ cursor_log
       (snd (_get_sample_collection_strategy (steady archive_server)
               (snd (_get_sample_collection_strategy (steady archive_server)
                       default_instance))))
     = cursor_log
         (snd (_get_sample_collection_strategy (steady archive_server) default_instance)).
Proof.
  rewrite (selection_is_cached (steady archive_server) (steady archive_server)
             default_instance "events_statements_history_long" (1 # 10)
             (snd (_get_sample_collection_strategy (steady archive_server)
                     default_instance))).
  - split; reflexivity.
  - reflexivity.
  - vm_compute. reflexivity.
  - intros k. discriminate.
Defined.

(** [_get_sample_collection_strategy] caches only successful strategies:
    when it returns no strategy, or raises, the strategy cache is as it
    was, and the next call selects again. *)
Theorem failed_selection_is_not_cached w self res self' :
  _get_sample_collection_strategy w self = (res, self') ->
  res = Return None \/ (exists e, res = Raise e) ->
  _collection_strategy_cache self' = _collection_strategy_cache self.
Proof.
  intros Hrun Hres.
  destruct (Cache.get (_collection_strategy_cache self) "plan_collection_strategy"
              (monotonic (answers w (answered self)))) as [hit|] eqn:Ehit.
  - revert Hrun. unfold _get_sample_collection_strategy. unfold bind at 1.
    rewrite strategy_cache_get_run, Ehit.
    destruct hit; unfold ret, raise; intros [= <- <-]; reflexivity.
  - pose proof (selection_fresh w self _ _ Ehit Hrun) as H.
    destruct Hres as [-> | (e & ->)]; exact H.
Qed.

Lemma failed_selection_is_not_cached_witness :
  fst (_get_sample_collection_strategy (steady idle_server) default_instance) = Return None
  /\ _collection_strategy_cache
       (snd (_get_sample_collection_strategy (steady idle_server) default_instance))
     = _collection_strategy_cache default_instance.
Proof.
  split; [reflexivity|].
  apply (failed_selection_is_not_cached (steady idle_server) default_instance (Return None)).
  - vm_compute. reflexivity.
  - left. reflexivity.
Defined.

(** [_collect_statement_samples] keeps the rate limiter at the rate of
    the strategy: after a cycle that had a strategy, whatever the fetch and
    the plan collection did, the limiter's rate equals the strategy's rate
    limit; a cycle without a strategy ends at the selection. *)
Theorem rate_limiter_follows_the_strategy w self table rate self1 :
  _get_sample_collection_strategy w self = (Return (Some (table, rate)), self1) ->
  table <> "" ->
  (_rate_limiter (snd (_collect_statement_samples w self)) == rate)%Q.
Proof.
  intros Hsel Hne. unfold _collect_statement_samples. unfold bind at 1. rewrite Hsel.
  apply String.eqb_neq in Hne. rewrite Hne.
  unfold bind at 1. unfold gets at 1. unfold bind at 1.
  set (s2 := snd ((if negb (Qeq_bool (_rate_limiter self1) rate)
                   then modify (set_rate_limiter rate) else ret tt) w self1)).
  assert (Hrate : (_rate_limiter s2 == rate)%Q).
  { unfold s2. destruct (Qeq_bool (_rate_limiter self1) rate) eqn:E; simpl.
    - apply Qeq_bool_iff, E.
    - reflexivity. }
  assert (Hrun : (if negb (Qeq_bool (_rate_limiter self1) rate)
                  then modify (set_rate_limiter rate) else ret tt) w self1 = (Return tt, s2)).
  { unfold s2. destruct (negb _); reflexivity. }
  rewrite Hrun. unfold bind at 1. unfold gets at 1. unfold bind at 1.
  pose proof (untouched_get_new_events_statements _rate_limiter
                (fun _ _ => eq_refl) (fun _ _ => eq_refl) (fun _ _ => eq_refl)
                (fun _ _ => eq_refl) table (_events_statements_row_limit s2) w s2) as H3.
  destruct (_get_new_events_statements table _ w s2) as [[rows|e] s3];
    unfold untouched in H3; simpl in H3.
  - pose proof (untouched_collect_plans_for_statements _rate_limiter
                  (fun _ _ => eq_refl) (fun _ _ => eq_refl) (fun _ _ => eq_refl)
                  (fun _ _ => eq_refl) (fun _ _ => eq_refl) (fun _ _ => eq_refl)
                  (fun _ _ => eq_refl) (fun _ _ => eq_refl) rows w s3) as H4.
    unfold untouched in H4. rewrite H4, H3. exact Hrate.
  - simpl. rewrite H3. exact Hrate.
Qed.

Lemma rate_limiter_follows_the_strategy_witness :
  (_rate_limiter default_instance == 1)%Q
  /\ (_rate_limiter (snd (_collect_statement_samples (steady archive_server)
                            default_instance)) == 1 # 10)%Q.
Proof.
  split; [reflexivity|].
  apply (rate_limiter_follows_the_strategy (steady archive_server) default_instance
           "events_statements_history_long" (1 # 10)
           (snd (_get_sample_collection_strategy (steady archive_server) default_instance))).
  - vm_compute. reflexivity.
  - discriminate.
Defined.

(** [_collect_plans_for_statements] marks a query as explained before it
    explains it. For a row whose two texts the agent obfuscates: if the
    query signature is in the explained-statements cache the row is
    skipped, with nothing sent, counted or yielded; if not, the signature
    is written first, and whatever becomes of the explain and of the event
    it stays in the cache for one time-to-live. *)
Theorem query_is_marked_before_it_is_explained r text digest o1 o2 w self :
  lookup "sql_text" r = Some (PStr text) ->
  lookup "digest_text" r = Some (PStr digest) ->
  obfuscate_sql (answers w (answered self)) text = Return o1 ->
  obfuscate_sql (answers w (S (answered self))) digest = Return o2 ->
  1 <= Cache.maxsize (_explained_statements_cache self) ->
  if Cache.contains (_explained_statements_cache self) (compute_sql_signature w o2)
       (monotonic (answers w (S (S (answered self)))))
  then collect_plan_for_row r w self
       = (Return tt, set_answered (S (S (S (answered self)))) self)
  else forall t,
         (t <= monotonic (answers w (S (S (S (answered self)))))
               + Cache.ttl (_explained_statements_cache self))%Q ->
         Cache.contains (_explained_statements_cache (snd (collect_plan_for_row r w self)))
           (compute_sql_signature w o2) t = true.
Proof.
  intros Ht Hd H1 H2 Hroom.
  destruct (Cache.contains _ _ _) eqn:Eseen.
  - rewrite (collect_plan_for_row_run r text digest o1 o2 w self Ht Hd H1 H2). cbv zeta.
    rewrite Eseen. reflexivity.
  - intros t Hin. eapply explained_before_explaining; eassumption.
Qed.

Lemma query_is_marked_before_it_is_explained_witness :
  Cache.contains
    (_explained_statements_cache
       (snd (collect_plan_for_row row_after_probe (steady no_plan_server) default_instance)))
    (Some "show tables") 60 = true.
Proof.
  pose proof (query_is_marked_before_it_is_explained row_after_probe "show tables"
                "show tables" "show tables" "show tables" (steady no_plan_server)
                default_instance eq_refl eq_refl eq_refl eq_refl) as H.
  change (Cache.contains _ _ _) with false in H at 1.
  apply H; discriminate.
Defined.

(** [_get_new_events_statements] on an empty answer: the checkpoint stays
    where it was, the empty list is returned as it came, and the session
    flag [sql_notes] is not reset; the query is the last statement sent. *)
Theorem empty_fetch_leaves_the_checkpoint table row_limit w self self' :
  _get_new_events_statements table row_limit w self = (Return [], self') ->
  _checkpoint self' = _checkpoint self
  /\ exists before,
       cursor_log self'
       = before ++ [SelectEventsStatements table
                      (fetch_params (_checkpoint self) row_limit) (Return [])]
       /\ forall r, ~ In (SetSqlNotes r) (skipn (List.length (cursor_log self))
                                            (cursor_log self')).
Proof.
  unfold _get_new_events_statements. unfold bind at 1.
  rewrite get_db_connection_run.
  assert (Hfetch : forall s1 before,
            _checkpoint s1 = _checkpoint self ->
            cursor_log s1 = cursor_log self ++ before ->
            (forall r, ~ In (SetSqlNotes r) before) ->
            fetch_with_cursor table row_limit w s1 = (Return [], self') ->
            _checkpoint self' = _checkpoint self
            /\ exists before',
                 cursor_log self'
                 = before' ++ [SelectEventsStatements table
                                 (fetch_params (_checkpoint self) row_limit) (Return [])]
                 /\ forall r, ~ In (SetSqlNotes r)
                                (skipn (List.length (cursor_log self)) (cursor_log self'))).
  { intros s1 before Hck Hlog Hclean. rewrite fetch_with_cursor_run. cbv zeta. rewrite Hck.
    destruct (result_map _ _) as [[|x rows]|e] eqn:Er.
    - intros [= <-]. split; [exact Hck|]. exists (cursor_log s1). split; [reflexivity|].
      simpl. rewrite Hlog, <- app_assoc, skipn_app_exact.
      intros r Hin. apply in_app_or in Hin. destruct Hin as [Hin | [Hin | []]].
      + eapply Hclean, Hin.
      + discriminate Hin.
    - destruct (max_timer_start (x :: rows)); [|discriminate].
      destruct (set_sql_notes _); discriminate.
    - discriminate. }
  destruct (_db self).
  - apply (Hfetch self []); [reflexivity | symmetry; apply app_nil_r | intros r []].
  - cbv zeta. destruct (connect _) as [[]|e]; [|discriminate].
    apply (Hfetch _ [Connect (Return tt)]); [reflexivity | reflexivity |].
    intros r [Hin | []]. discriminate Hin.
Qed.

Lemma empty_fetch_leaves_the_checkpoint_witness :
  _checkpoint (snd (_get_new_events_statements "events_statements_history_long" 5000
                      (steady busy_server) default_instance)) = 0.
Proof.
  destruct (empty_fetch_leaves_the_checkpoint "events_statements_history_long" 5000
              (steady busy_server) default_instance
              (snd (_get_new_events_statements "events_statements_history_long" 5000
                      (steady busy_server) default_instance))) as [Hck _];
    [vm_compute; reflexivity|].
  exact Hck.
Defined.

(** [_collect_plans_for_statements] when the agent fails on the raw text
    of a row: the exception is caught, the error counted once, nothing is
    sent or yielded for the row, and the loop goes on with the next row. *)
Theorem obfuscation_failure_skips_the_row r rest text e w self :
  lookup "sql_text" r = Some (PStr text) ->
  obfuscate_sql (answers w (answered self)) text = Raise e ->
  for_each collect_plan_for_row (r :: rest) w self
  = for_each collect_plan_for_row rest w
      (set_counted (counted self ++ [SqlObfuscate]) (set_answered (S (answered self)) self)).
Proof.
  intros Htext Hfail. cbn [for_each]. unfold bind at 1.
  rewrite (raw_text_failure_skips_row r text e w self Htext Hfail). reflexivity.
Qed.

Lemma obfuscation_failure_skips_the_row_witness :
  map db_statement
    (submitted (snd (for_each collect_plan_for_row [row_with_cut_digest; row_after_cut_digest]
                       (steady refusing_server) default_instance)))
  = ["select 3"]
  /\ hd_error
       (counted (snd (for_each collect_plan_for_row
                        [row_with_cut_digest; row_after_cut_digest]
                        (steady refusing_server) default_instance)))
     = Some SqlObfuscate.
Proof.
  pose proof (obfuscation_failure_skips_the_row row_with_cut_digest [row_after_cut_digest]
                "select a from t where `c` = 2" (OtherError "obfuscate_sql")
                (steady refusing_server) default_instance eq_refl eq_refl) as H.
  split; [apply (f_equal (fun run => map db_statement (submitted (snd run)))) in H
         | apply (f_equal (fun run => hd_error (counted (snd run)))) in H];
    (etransitivity; [exact H | vm_compute; reflexivity]).
Defined.
(* ===================================================================== *)
(** * Properties of the construction and of the sampler *)
(* ===================================================================== *)

(** [__init__] and the preferred tables: a configured table that has a
    default rate is the only table preferred, any other configuration
    leaves the three tables of the fixed order; and over any run of cycles
    every preferred table keeps a name and a default rate in
    [DEFAULT_EVENTS_STATEMENTS_COLLECTIONS_PER_SECOND], so the lookup of the
    default rate in the selection finds it. *)
Theorem preferred_tables_are_known config self :
  __init__ config = Return self ->
  (forall table rate,
      events_statements_table config = Some table ->
      lookup table DEFAULT_EVENTS_STATEMENTS_COLLECTIONS_PER_SECOND = Some rate ->
      _preferred_events_statements_tables self = [table])
  /\ ((forall table, events_statements_table config = Some table ->
         lookup table DEFAULT_EVENTS_STATEMENTS_COLLECTIONS_PER_SECOND = None) ->
      _preferred_events_statements_tables self = EVENTS_STATEMENTS_PREFERRED_TABLES)
  /\ forall n w table,
       In table (_preferred_events_statements_tables (cycles n w self)) ->
       table <> ""
       /\ exists rate,
            lookup table DEFAULT_EVENTS_STATEMENTS_COLLECTIONS_PER_SECOND = Some rate.
Proof.
  unfold __init__.
  destruct (per_hour _) as [ttl1|]; [|discriminate].
  destruct (per_hour _) as [ttl2|]; [|discriminate].
  cbn [result_bind]. intros [= <-]. unfold new_instance.
  cbn [_preferred_events_statements_tables].
  split; [|split].
  - intros table rate -> Hrate.
    destruct (table =? "")%string eqn:E.
    + apply String.eqb_eq in E. subst. discriminate Hrate.
    + rewrite Hrate. reflexivity.
  - intros Hnone. destruct (events_statements_table config) as [table|]; [|reflexivity].
    rewrite (Hnone table eq_refl). destruct (table =? "")%string; reflexivity.
  - intros n w table.
    rewrite (untouched_cycles _preferred_events_statements_tables) by reflexivity.
    cbn [_preferred_events_statements_tables].
    pose proof preferred_tables_have_defaults as Hdef. rewrite Forall_forall in Hdef.
    destruct (events_statements_table config) as [t|]; [|apply Hdef].
    destruct (t =? "")%string eqn:E; [apply Hdef|].
    destruct (lookup t DEFAULT_EVENTS_STATEMENTS_COLLECTIONS_PER_SECOND) as [rate|] eqn:Er;
      [|apply Hdef].
    intros [<- | []]. split; [apply String.eqb_neq, E | exists rate; exact Er].
Qed.

Lemma preferred_tables_are_known_witness :
  _preferred_events_statements_tables default_instance = EVENTS_STATEMENTS_PREFERRED_TABLES
  /\ forall n w table,
       In table (_preferred_events_statements_tables (cycles n w default_instance)) ->
       table <> ""
       /\ exists rate,
            lookup table DEFAULT_EVENTS_STATEMENTS_COLLECTIONS_PER_SECOND = Some rate.
Proof.
  destruct (preferred_tables_are_known default_config default_instance)
    as (_ & Hall & Hkeep); [reflexivity|].
  split; [apply Hall; discriminate | exact Hkeep].
Defined.

Lemma per_hour_returns rate ttl :
  per_hour rate = Return ttl -> (ttl * rate == 3600)%Q.
Proof.
  unfold per_hour. destruct (Qeq_bool rate 0) eqn:E; [discriminate|].
  intros H. apply Qeq_bool_neq in E.
  replace ttl with (Qred (3600 / rate)) by congruence.
  rewrite Qred_correct. field. exact E.
Qed.

(** [__init__] and the two rate-limiting caches: each starts empty with
    the configured maximum size and a time-to-live of an hour divided by
    the configured rate per hour; a rate of zero makes [__init__] raise
    [ZeroDivisionError]. *)
Theorem caches_live_an_hour_over_the_rate config :
  (forall self,
      __init__ config = Return self ->
      (Cache.ttl (_explained_statements_cache self)
       * explained_statements_per_hour_per_query config == 3600)%Q
      /\ (Cache.ttl (_seen_samples_cache self) * samples_per_hour_per_query config == 3600)%Q
      /\ Cache.entries (_explained_statements_cache self) = []
      /\ Cache.entries (_seen_samples_cache self) = []
      /\ Cache.maxsize (_explained_statements_cache self)
         = explained_statements_cache_maxsize config
      /\ Cache.maxsize (_seen_samples_cache self) = seen_samples_cache_maxsize config)
  /\ ((explained_statements_per_hour_per_query config == 0)%Q
      \/ (samples_per_hour_per_query config == 0)%Q
      <-> __init__ config = Raise (OtherError "ZeroDivisionError")).
Proof.
  unfold __init__. split.
  - intros self.
    destruct (per_hour (explained_statements_per_hour_per_query config)) as [ttl1|] eqn:E1;
      [|discriminate].
    destruct (per_hour (samples_per_hour_per_query config)) as [ttl2|] eqn:E2;
      [|discriminate].
    cbn [result_bind]. intros [= <-]. unfold new_instance, Cache.empty.
    cbn [_explained_statements_cache _seen_samples_cache Cache.ttl Cache.entries
         Cache.maxsize].
    split; [apply per_hour_returns, E1|]. split; [apply per_hour_returns, E2|].
    repeat split.
  - unfold per_hour.
    destruct (Qeq_bool (explained_statements_per_hour_per_query config) 0) eqn:E1.
    + split; [reflexivity|]. intros _. left. apply Qeq_bool_iff, E1.
    + destruct (Qeq_bool (samples_per_hour_per_query config) 0) eqn:E2; cbn [result_bind].
      * split; [reflexivity|]. intros _. right. apply Qeq_bool_iff, E2.
      * apply Qeq_bool_neq in E1. apply Qeq_bool_neq in E2.
        split; [intros [H|H]; contradiction | discriminate].
Qed.

(** [run_sampler] and the [service:] tags: the last tag of the form
    [service:<name>] names the service, and tags that name no service
    leave the service as the check run before left it. *)
Theorem last_service_tag_names_the_service before name after c w self :
  _enabled self = true ->
  Forall names_no_service after ->
  _service (snd (run_sampler (before ++ ("service:" ++ name)%string :: after) c w self)) = name
  /\ _service (snd (run_sampler after c w self)) = _service self.
Proof.
  intros Hon Hafter.
  assert (Hservice : forall tags, _service (snd (run_sampler tags c w self))
                                  = service_of_tags (_service self) tags).
  { intros tags. unfold run_sampler. rewrite Hon. cbn [negb].
    destruct (_run_sync self || run_sync_in_environment c).
    - destruct (_collect_statement_samples w (engine self)). reflexivity.
    - destruct (negb (_collection_loop_future self) || negb (future_running c)); reflexivity. }
  rewrite !Hservice. split.
  - rewrite service_of_tags_app. cbn [service_of_tags].
    rewrite after_prefix_app. apply service_of_other_tags, Hafter.
  - apply service_of_other_tags, Hafter.
Qed.

Lemma last_service_tag_names_the_service_witness :
  _service (snd (run_sampler ["service:web"; "env:prod"; "service:shop"; "port:3306"]
                   (check_run_at 5) (steady busy_server) background_sampler)) = "shop"
  /\ _service (snd (run_sampler ["port:3306"] (check_run_at 5) (steady busy_server)
                      background_sampler)) = "mysql".
Proof.
  apply (last_service_tag_names_the_service ["service:web"; "env:prod"] "shop" ["port:3306"]
           (check_run_at 5) (steady busy_server) background_sampler).
  - reflexivity.
  - repeat constructor.
Defined.

(** [run_sampler] in synchronous mode: each check run of an enabled
    sampler runs one collection cycle on the engine, whether or not the
    cycles before raised; the sampler stays enabled and synchronous. *)
Theorem synchronous_check_runs_are_cycles runs w self :
  _enabled self = true ->
  _run_sync self = true ->
  engine (check_runs runs w self) = cycles (List.length runs) w (engine self)
  /\ _enabled (check_runs runs w self) = true
  /\ _collection_loop_future (check_runs runs w self) = _collection_loop_future self.
Proof.
  revert self. induction runs as [|[tags c] runs IH]; intros self Hon Hsync; simpl.
  - auto.
  - destruct (run_sampler_synchronous tags c w self Hon Hsync) as (Hon' & Hsync' & He & _).
    destruct (IH _ Hon' Hsync') as (IHe & IHon & IHf).
    rewrite IHe, He, IHon, IHf. repeat split.
    unfold run_sampler. rewrite Hon, Hsync. simpl.
    destruct (_collect_statement_samples w (engine self)). reflexivity.
Qed.

Lemma synchronous_check_runs_are_cycles_witness :
  engine (check_runs [(["service:shop"], check_run_at 5); ([], check_run_at 20)]
            (steady busy_server) synchronous_sampler)
  = cycles 2 (steady busy_server) default_instance
  /\ _enabled (check_runs [(["service:shop"], check_run_at 5); ([], check_run_at 20)]
                 (steady busy_server) synchronous_sampler) = true
  /\ _collection_loop_future
       (check_runs [(["service:shop"], check_run_at 5); ([], check_run_at 20)]
          (steady busy_server) synchronous_sampler) = false.
Proof.
  apply (synchronous_check_runs_are_cycles
           [(["service:shop"], check_run_at 5); ([], check_run_at 20)]
           (steady busy_server) synchronous_sampler); reflexivity.
Defined.

(** [collection_loop]: while the check is active and the cycles return,
    the loop runs cycle after cycle; it ends, before running a cycle, at
    the first reading that finds the check inactive for more than twice
    the collection interval, and, after the cycle, at the first cycle that
    raises, with no cycle run after it. *)
Theorem collection_loop_ends_at_first_failure n fuel interval readings w self :
  (forall k, (k < n)%nat ->
     inactive interval (readings k) = false
     /\ fst (_collect_statement_samples w (cycles k w self)) = Return tt) ->
  collection_loop n interval readings 0 w self = (None, cycles n w self)
  /\ (inactive interval (readings n) = true ->
      collection_loop (n + S fuel) interval readings 0 w self
      = (Some InactiveStop, cycles n w self))
  /\ (forall e,
        inactive interval (readings n) = false ->
        fst (_collect_statement_samples w (cycles n w self)) = Raise e ->
        collection_loop (n + S fuel) interval readings 0 w self
        = (Some (LoopFailure e), cycles (S n) w self)).
Proof.
  intros Hok.
  assert (Hgo : forall fuel', collection_loop (n + fuel') interval readings 0 w self
                              = collection_loop fuel' interval readings n w (cycles n w self))
    by (intros fuel'; apply (collection_loop_goes_on n fuel' interval readings 0 w self Hok)).
  split; [|split].
  - specialize (Hgo 0%nat). rewrite Nat.add_0_r in Hgo. exact Hgo.
  - intros Hstop. rewrite Hgo. cbn [collection_loop]. rewrite Hstop. reflexivity.
  - intros e Hact Hfail. rewrite Hgo. cbn [collection_loop]. rewrite Hact.
    assert (Hnext : cycles (S n) w self
                    = snd (_collect_statement_samples w (cycles n w self))).
    { clear. revert self. induction n as [|n IH]; intros self; [reflexivity|].
      change (cycles (S (S n)) w self)
        with (cycles (S n) w (snd (_collect_statement_samples w self))).
      rewrite IH. reflexivity. }
    rewrite Hnext.
    destruct (_collect_statement_samples w (cycles n w self)) as [[[]|e'] s']; simpl in *;
      [discriminate | congruence].
Qed.

Lemma collection_loop_ends_at_first_failure_witness :
  collection_loop 1 15 cooling_readings 0 (steady busy_server) default_instance
  = (None, cycles 1 (steady busy_server) default_instance)
  /\ collection_loop 5 15 cooling_readings 0 (steady busy_server) default_instance
     = (Some InactiveStop, cycles 1 (steady busy_server) default_instance).
Proof.
  destruct (collection_loop_ends_at_first_failure 1 3 15 cooling_readings
              (steady busy_server) default_instance) as (Hrun & Hstop & _).
  - intros k Hk. assert (k = 0%nat) as -> by lia. split; vm_compute; reflexivity.
  - split; [exact Hrun | apply Hstop; reflexivity].
Defined.

(** [_can_explain] looks at the first word only, whatever its case and
    whatever white space surrounds the statement: a statement made of
    white space, one of the six keywords in any case, and then nothing or a
    space and anything, can be explained. *)
Theorem can_explain_padded_keyword pad keyword tail :
  forallb is_strip_space (list_ascii_of_string pad) = true ->
  In (lower keyword) VALID_EXPLAIN_STATEMENTS ->
  tail = "" \/ (exists rest, tail = String " " rest) ->
  _can_explain (pad ++ keyword ++ tail) = true.
Proof.
  intros Hpad Hkey Htail. unfold _can_explain.
  destruct (keyword_has_no_space keyword Hkey) as [Hne Hclean].
  assert (Hword : first_word (py_strip (pad ++ keyword ++ tail)) = keyword).
  { rewrite <- (string_of_list_ascii_of_string (py_strip _)).
    replace (pad ++ keyword ++ tail)%string
      with (string_of_list_ascii (list_ascii_of_string pad ++ list_ascii_of_string keyword
                                  ++ list_ascii_of_string tail))
      by (rewrite <- !list_of_append; apply string_of_list_ascii_of_string).
    rewrite (py_strip_padded _ _ _ Hpad Hne Hclean).
    rewrite first_word_of_list.
    - apply string_of_list_ascii_of_string.
    - eapply Forall_impl; [|exact Hclean]. intros c Hc ->. discriminate Hc.
    - destruct Htail as [-> | (rest & ->)]; [left; reflexivity|].
      change (list_ascii_of_string (String " " rest))
        with (" "%char :: list_ascii_of_string rest).
      destruct (rstrip_head " "%char (list_ascii_of_string rest)) as [-> | (rest' & ->)];
        [left; reflexivity | right; eauto]. }
  rewrite Hword. apply mem_string_In, Hkey.
Qed.

Lemma can_explain_padded_keyword_witness :
  _can_explain "  SeLeCT * from orders" = true.
Proof.
  apply (can_explain_padded_keyword "  " "SeLeCT" " * from orders").
  - reflexivity.
  - left. reflexivity.
  - right. exists "* from orders". reflexivity.
Defined.
